(** * Battleship Infinity: the battle context and the grid utilities

    A shallow embedding of [utils/grid.ts] and [contexts/BattleContext.tsx]
    (the action processor, the chunk heat map and its decay timer), with the
    properties the specification states about them.

    Conventions of the embedding.
    - JavaScript numbers that hold grid indices, counters and timestamps
      are integers ([Z]).  [activityCount] is fractional after a decay and
      is an exact rational ([Q]); the decimal literals 0.999, 0.98, 0.95,
      0.2, 0.3, 0.03, 0.1 and 0.01 are the rationals they denote, so the
      rounding of IEEE doubles is not part of the model.
    - An array is a list; [a[i]] is the lookup [a !! i], which is [None]
      where JavaScript yields [undefined].  Reading a property of
      [undefined] raises a TypeError: that is the outcome [Thrown].
    - [Date.now()] and [Math.random()] are inputs of the embedding (the
      record [Env]).
    - The state cells of [BattleProvider] ([blueTeamGrid], [redTeamGrid])
      are only written through their React setters with an updater
      function.  A setter does not run the updater: it queues it, and React
      runs the queue, in order, once the event handler has returned.  An
      event handler is therefore a computation that reads the state of the
      last render and appends to a queue ([Handler]), and [dispatch] runs a
      handler and then the queue.  (React may compute the first update of a
      component with nothing pending at the call itself; the first updater
      of each handler here assigns no variable of the handler and nothing it
      writes is read back by the handler, so the two orders agree.  The
      updaters queued after it always wait for the render.)  The updaters
      modify the rows of the grid in place ([newGrid[y][x] = ...] on a copy
      of the outer array only), so the rows seen by the handler are those
      of the current state. *)

From Stdlib Require Import ZArith QArith Qround Qabs Lia Lqa Sorted.
From stdpp Require Import base list strings.

Local Open Scope Z_scope.

(** ** Data model ([types/index.ts]) *)

Inductive Team := blue | red.

Record ShipRef := { ref_id : string; ref_owner : string }.

(** [CellState]: [ship] and [cooldownUntil] are optional properties. *)
Record CellState := {
  occupied : bool;
  hit : bool;
  ship : option ShipRef;
  cooldownUntil : option Z
}.

Record Coord := { cx : Z; cy : Z }.

Record Ship := {
  ship_id : string;
  ship_owner : string;
  ship_cells : list Coord;
  ship_hits : Z;
  ship_destroyed : bool
}.

Record Chunk := {
  chunk_x : Z;
  chunk_y : Z;
  heatLevel : Z;
  lastActivity : Z;
  activityCount : Q
}.

Record GridStats := { totalShips : Z; totalHits : Z; totalChunks : Z }.

(** [CellState[][]], indexed [grid[y][x]] *)
Abbreviation Grid := (list (list CellState)).

Record TeamGridState := {
  grid : Grid;
  ships : list Ship;
  chunks : list Chunk;
  stats : GridStats
}.

Inductive ActionType := PLACE_SHIP | FIRE.

Record BattleAction := {
  act_type : ActionType;
  act_x : Z;
  act_y : Z;
  shipId : option string;
  owner : option string;
  shipCells : option (list Coord);
  timestamp : Z;
  team : option Team
}.

#[global] Instance Team_eq_dec : EqDecision Team.
Proof. solve_decision. Defined.
#[global] Instance Coord_eq_dec : EqDecision Coord.
Proof. solve_decision. Defined.
#[global] Instance ShipRef_eq_dec : EqDecision ShipRef.
Proof. solve_decision. Defined.
#[global] Instance CellState_eq_dec : EqDecision CellState.
Proof. solve_decision. Defined.

(** ** Constants ([utils/grid.ts]) *)

Definition GRID_SIZE : Z := 1000.
Definition CHUNK_SIZE : Z := 10.
Definition CELLS_PER_CHUNK : Z := 100.
Definition TOTAL_CHUNKS : Z := CHUNK_SIZE * CHUNK_SIZE.
Definition SHIP_SIZES : list Z := [2; 3; 4; 5].
Definition DESTROYED_TERRITORY_COOLDOWN : Z := 10000.

(** ** Outcomes of JavaScript code that may raise *)

Inductive Outcome (A : Type) : Type :=
| Returned (a : A)
| Thrown.
Arguments Returned {A} a.
Arguments Thrown {A}.

(** [Array.prototype.every] with a predicate that may raise: it stops at
    the first element that is rejected or that raises. *)
Fixpoint every {A : Type} (p : A → Outcome bool) (l : list A) : Outcome bool :=
  match l with
  | [] => Returned true
  | a :: l' =>
      match p a with
      | Returned true => every p l'
      | Returned false => Returned false
      | Thrown => Thrown
      end
  end.

(** ** The grid *)

Definition emptyCell : CellState :=
  {| occupied := false; hit := false; ship := None; cooldownUntil := None |}.

Definition generateEmptyGrid : Grid :=
  replicate (Z.to_nat GRID_SIZE) (replicate (Z.to_nat GRID_SIZE) emptyCell).

(** [grid[y][x]]: [None] is [undefined] (a missing row, a missing cell or a
    negative index). *)
Definition cellAt (g : Grid) (x y : Z) : option CellState :=
  if (x <? 0) || (y <? 0) then None
  else g !! Z.to_nat y ≫= λ row, row !! Z.to_nat x.

(** [newGrid[y][x] = f(newGrid[y][x])].  Every updater writes a cell that
    its handler has read or bounds-checked, so on a full grid the index
    exists; where it does not, the grid is left as it is (JavaScript would
    raise on a missing row and grow a short one). *)
Definition updateCell (f : CellState → CellState) (g : Grid) (x y : Z) : Grid :=
  if (x <? 0) || (y <? 0) then g
  else alter (alter f (Z.to_nat x)) (Z.to_nat y) g.

Definition inBounds (x y : Z) : bool :=
  (0 <=? x) && (x <? GRID_SIZE) && (0 <=? y) && (y <? GRID_SIZE).

Definition getChunkFromCoords (x y : Z) : Z * Z :=
  (x / CELLS_PER_CHUNK, y / CELLS_PER_CHUNK).

(** [!cell.cooldownUntil || cell.cooldownUntil < now]: an absent field and
    the number 0 are both falsy. *)
Definition cooldownOver (now : Z) (cell : CellState) : bool :=
  match cooldownUntil cell with
  | None => true
  | Some t => (t =? 0) || (t <? now)
  end.

Definition isValidShipPlacement (now : Z) (g : Grid) (cells : list Coord)
  : Outcome bool :=
  every (λ c,
    if inBounds (cx c) (cy c) then
      match cellAt g (cx c) (cy c) with
      | Some cell => Returned (negb (occupied cell) && cooldownOver now cell)
      | None => Thrown
      end
    else Returned false) cells.

Definition generateId (r : string) : string := r.

Definition generateOwner (r : string) : string := "anon-" +:+ r.

(** A grid of [GRID_SIZE] rows of [GRID_SIZE] cells, as [generateEmptyGrid]
    builds it and every updater keeps it. *)
Definition wf_gridb (g : Grid) : bool :=
  (length g =? Z.to_nat GRID_SIZE)%nat
  && forallb (λ row, (length row =? Z.to_nat GRID_SIZE)%nat) g.

Definition wf_grid (g : Grid) : Prop :=
  length g = Z.to_nat GRID_SIZE
  ∧ Forall (λ row, length row = Z.to_nat GRID_SIZE) g.

(** ** Chunk heat map ([BattleContext.tsx]) *)

Definition DECAY_INTERVAL : Z := 10000.
Definition ACTIVITY_LIFETIME : Z := 120000.
Definition ACTIVITY_EXTENDED_LIFETIME : Z := 240000.
Definition NO_DECAY_PERIOD : Z := 60000.
Definition SUPER_SLOW_DECAY_RATE : Q := 0.999.
Definition SLOW_DECAY_RATE : Q := 0.98.
Definition FINAL_DECAY_RATE : Q := 0.95.

Definition Qlt_bool (a b : Q) : bool := negb (Qle_bool b a).

(** [{ ...chunk, heatLevel: h }] *)
Definition withHeatLevel (h : Z) (c : Chunk) : Chunk :=
  {| chunk_x := chunk_x c; chunk_y := chunk_y c; heatLevel := h;
     lastActivity := lastActivity c; activityCount := activityCount c |}.

(** [{ ...chunk, activityCount: a }] *)
Definition withActivityCount (a : Q) (c : Chunk) : Chunk :=
  {| chunk_x := chunk_x c; chunk_y := chunk_y c; heatLevel := heatLevel c;
     lastActivity := lastActivity c; activityCount := a |}.

(** [{ ...chunk, lastActivity: t }] *)
Definition withLastActivity (t : Z) (c : Chunk) : Chunk :=
  {| chunk_x := chunk_x c; chunk_y := chunk_y c; heatLevel := heatLevel c;
     lastActivity := t; activityCount := activityCount c |}.

Definition isActive (c : Chunk) : bool := Qlt_bool 0 (activityCount c).

(** [[...activeChunks].sort((a, b) => b.activityCount - a.activityCount)]:
    a stable sort, larger counts first.  [insertByActivity c l] puts [c] in
    front of the first element whose count does not exceed its own. *)
Fixpoint insertByActivity (c : Chunk) (l : list Chunk) : list Chunk :=
  match l with
  | [] => [c]
  | d :: l' =>
      if Qle_bool (activityCount d) (activityCount c) then c :: d :: l'
      else d :: insertByActivity c l'
  end.

Definition sortByActivityDesc (l : list Chunk) : list Chunk :=
  foldr insertByActivity [] l.

(** [sortedChunks[i].activityCount]; both uses clamp [i] to the last index
    of a non-empty array (lemma [activityAt_clamped]). *)
Definition activityAt (l : list Chunk) (i : Z) : Q :=
  from_option activityCount 0%Q (l !! Z.to_nat i).

(** The heat level of one chunk against the three thresholds. *)
Definition heatOf (hotThreshold warmThreshold minActivityThreshold a : Q) : Z :=
  if Qle_bool hotThreshold a && Qlt_bool 0 a then 3
  else if Qle_bool warmThreshold a && Qlt_bool 0 a then 2
  else if Qle_bool minActivityThreshold a then 1
  else 0.

Definition updateHeatLevels (chunks : list Chunk) : list Chunk :=
  let activeChunks := List.filter isActive chunks in
  if (length activeChunks =? 0)%nat then chunks
  else
    let sortedChunks := sortByActivityDesc activeChunks in
    let maxActivity := activityAt sortedChunks 0 in
    let hotCount :=
      Z.max 1 (Qfloor (inject_Z (Z.of_nat (length activeChunks)) * 0.2)) in
    let warmCount :=
      Z.max 2 (Qfloor (inject_Z (Z.of_nat (length activeChunks)) * 0.3)) in
    let last := Z.of_nat (length sortedChunks) - 1 in
    let hotThreshold := activityAt sortedChunks (Z.min (hotCount - 1) last) in
    let warmThreshold :=
      activityAt sortedChunks (Z.min (hotCount + warmCount - 1) last) in
    let minActivityThreshold := (maxActivity * 0.03)%Q in
    map (λ chunk,
           withHeatLevel
             (heatOf hotThreshold warmThreshold minActivityThreshold
                (activityCount chunk)) chunk) chunks.

(** The body of the decay loop for one index: the new value of
    [newChunks[i]] and whether it set [hasChanges]. *)
Definition decayChunk (now : Z) (chunk : Chunk) : Chunk * bool :=
  if Qlt_bool 0 (activityCount chunk) then
    let timeSinceActivity := now - lastActivity chunk in
    if timeSinceActivity <=? NO_DECAY_PERIOD then (chunk, false)
    else
      let decayRate :=
        if timeSinceActivity <? ACTIVITY_LIFETIME then SUPER_SLOW_DECAY_RATE
        else if timeSinceActivity <? ACTIVITY_EXTENDED_LIFETIME
             then SLOW_DECAY_RATE
             else FINAL_DECAY_RATE in
      let newActivityCount := (activityCount chunk * decayRate)%Q in
      if Qlt_bool newActivityCount 0.1 then
        if Qlt_bool 0 (activityCount chunk)
        then (withHeatLevel 0 (withActivityCount 0 chunk), true)
        else (chunk, false)
      else if Qlt_bool 0.01 (Qabs (newActivityCount - activityCount chunk))
      then (withActivityCount newActivityCount chunk, true)
      else (chunk, false)
  else (chunk, false).

(** [{ ...prev, chunks: cs }] *)
Definition withChunks (cs : list Chunk) (s : TeamGridState) : TeamGridState :=
  {| grid := grid s; ships := ships s; chunks := cs; stats := stats s |}.

(** The updater the decay timer passes to each team's setter. *)
Definition decayChunks (now : Z) (prev : TeamGridState) : TeamGridState :=
  let steps := map (decayChunk now) (chunks prev) in
  let newChunks := map fst steps in
  let hasChanges := existsb snd steps in
  if hasChanges then withChunks (updateHeatLevels newChunks) prev else prev.



(** ** Derived statistics *)




(** ** React state, setters and event handlers *)

Record World := {
  blueTeamGrid : TeamGridState;
  redTeamGrid : TeamGridState;
  (** the random suffix [generateOwner] drew when the provider mounted *)
  playerRand : string
}.

Definition currentPlayer (w : World) : string := generateOwner (playerRand w).

Definition teamGrid (t : Team) (w : World) : TeamGridState :=
  match t with blue => blueTeamGrid w | red => redTeamGrid w end.

Definition setTeam (t : Team) (s : TeamGridState) (w : World) : World :=
  match t with
  | blue => {| blueTeamGrid := s; redTeamGrid := redTeamGrid w;
               playerRand := playerRand w |}
  | red => {| blueTeamGrid := blueTeamGrid w; redTeamGrid := s;
              playerRand := playerRand w |}
  end.

(** [team === 'blue' ? 'red' : 'blue'] *)
Definition opposite (t : Team) : Team :=
  match t with blue => red | red => blue end.

(** The two [let] variables of the FIRE branch that the ship updater
    assigns ([shipWasDestroyed], [destroyedShipCells]). *)
Record Locals := {
  shipWasDestroyed : bool;
  destroyedShipCells : list Coord
}.

Definition initLocals : Locals :=
  {| shipWasDestroyed := false; destroyedShipCells := [] |}.

(** An updater function: from the previous state of a team to the next;
    it may assign the handler's variables when React runs it. *)
Definition Updater : Type := TeamGridState → Locals → TeamGridState * Locals.

Record Update := { upd_team : Team; upd_run : Updater }.

Record Pending := { queue : list Update; locals : Locals }.

(** An event handler: it sees the state of the render that created it and
    accumulates queued updates. *)
Definition Handler (A : Type) : Type := World → Pending → Outcome A * Pending.

#[global] Instance Handler_ret : MRet Handler :=
  λ A a, λ _ p, (Returned a, p).

#[global] Instance Handler_bind : MBind Handler :=
  λ A B f m, λ w p,
    match m w p with
    | (Returned a, p') => f a w p'
    | (Thrown, p') => (Thrown, p')
    end.

(** [setBlueTeamGrid(updater)] / [setRedTeamGrid(updater)] *)
Definition setTeamGrid (t : Team) (u : Updater) : Handler unit :=
  λ _ p, (Returned (),
          {| queue := queue p ++ [ {| upd_team := t; upd_run := u |} ];
             locals := locals p |}).

(** An updater that assigns no variable of its handler. *)
Definition pureUpdater (f : TeamGridState → TeamGridState) : Updater :=
  λ prev l, (f prev, l).

(** [blueTeamGrid.grid] / [redTeamGrid.grid] as the handler's closure holds
    them. *)
Definition readGrid (t : Team) : Handler Grid :=
  λ w p, (Returned (grid (teamGrid t w)), p).

Definition readPlayer : Handler string :=
  λ w p, (Returned (currentPlayer w), p).

Definition readLocals : Handler Locals :=
  λ _ p, (Returned (locals p), p).

Definition declareLocals (l : Locals) : Handler unit :=
  λ _ p, (Returned (), {| queue := queue p; locals := l |}).

(** A possibly raising expression inside a handler. *)
Definition liftOutcome {A : Type} (o : Outcome A) : Handler A :=
  λ _ p, (o, p).

(** React processing the queue after the handler has returned. *)
Fixpoint flush (q : list Update) (l : Locals) (w : World) : World :=
  match q with
  | [] => w
  | u :: q' =>
      let '(s', l') := upd_run u (teamGrid (upd_team u) w) l in
      flush q' l' (setTeam (upd_team u) s' w)
  end.

(** One event: the handler runs against the current state, then React
    applies what it queued (also when the handler raised). *)
Definition dispatch {A : Type} (h : Handler A) (w : World) : Outcome A * World :=
  let '(r, p) := h w {| queue := []; locals := initLocals |} in
  (r, flush (queue p) (locals p) w).

(** The inputs an event draws from the environment: the clock and the two
    random identifiers ([placeShip] draws one, [processAction] a second one
    if the first is the empty string). *)
Record Env := { now : Z; rand1 : string; rand2 : string }.

(** ** Cooldown of a destroyed ship's area *)

(** [cooldownCells.add(key)]: a [Set] keeps the first insertion. *)
Definition setAdd (s : list Coord) (c : Coord) : list Coord :=
  if decide (c ∈ s) then s else s ++ [c].

(** The nine cells [cell.x + dx, cell.y + dy] in loop order. *)
Definition around (c : Coord) : list Coord :=
  dx ← [-1; 0; 1]; dy ← [-1; 0; 1]; [ {| cx := cx c + dx; cy := cy c + dy |} ].

Definition cooldownCells (shipCells : list Coord) : list Coord :=
  let s1 := foldl setAdd [] shipCells in
  foldl (λ s cell,
           foldl (λ s' n, if inBounds (cx n) (cy n) then setAdd s' n else s')
                 s (around cell))
        s1 shipCells.

(** [{ ...cell, cooldownUntil: t }] *)
Definition withCooldown (t : Z) (c : CellState) : CellState :=
  {| occupied := occupied c; hit := hit c; ship := ship c;
     cooldownUntil := Some t |}.

(** [{ ...prev, grid: g }] *)
Definition withGrid (g : Grid) (s : TeamGridState) : TeamGridState :=
  {| grid := g; ships := ships s; chunks := chunks s; stats := stats s |}.

Definition cooldownUpdater (cooldownEndTime : Z) (cells : list Coord)
  (prev : TeamGridState) : TeamGridState :=
  withGrid
    (foldl (λ g key,
              if inBounds (cx key) (cy key)
              then updateCell (withCooldown cooldownEndTime) g (cx key) (cy key)
              else g)
           (grid prev) cells)
    prev.

Definition applyCooldownToShipArea (e : Env) (shipCells : list Coord)
  (targetTeam : Team) : Handler unit :=
  let cooldownEndTime := now e + DESTROYED_TERRITORY_COOLDOWN in
  setTeamGrid targetTeam
    (pureUpdater (cooldownUpdater cooldownEndTime (cooldownCells shipCells))).

(** ** Recording activity *)

(** [chunks.findIndex(chunk => chunk.x === chunkX && chunk.y === chunkY)];
    [None] is -1. *)
Definition findChunkIndex (chunkX chunkY : Z) (l : list Chunk) : option nat :=
  fst <$> list_find (λ c, chunk_x c = chunkX ∧ chunk_y c = chunkY) l.

(** [(count || 0) + 1] *)
Definition bumpActivity (a : Q) : Q :=
  ((if Qeq_bool a 0 then 0 else a) + 1)%Q.

Definition activityUpdater (e : Env) (chunkX chunkY : Z)
  (prev : TeamGridState) : TeamGridState :=
  let newChunks :=
    match findChunkIndex chunkX chunkY (chunks prev) with
    | Some i =>
        alter (λ c, withLastActivity (now e)
                      (withActivityCount (bumpActivity (activityCount c)) c))
              i (chunks prev)
    | None => chunks prev
    end in
  withChunks (updateHeatLevels newChunks) prev.

Definition updateChunkActivity (e : Env) (x y : Z) (t : Team) : Handler unit :=
  let '(chunkX, chunkY) := getChunkFromCoords x y in
  let targetTeam := opposite t in
  setTeamGrid targetTeam (pureUpdater (activityUpdater e chunkX chunkY)).

(** ** The action processor *)

(** [{ ...cell, hit: true }] *)
Definition withHit (c : CellState) : CellState :=
  {| occupied := occupied c; hit := true; ship := ship c;
     cooldownUntil := cooldownUntil c |}.

(** The updater that marks the target cell and counts the hit. *)
Definition hitUpdater (x y : Z) (prev : TeamGridState) : TeamGridState :=
  {| grid := updateCell withHit (grid prev) x y;
     ships := ships prev;
     chunks := chunks prev;
     stats := {| totalShips := totalShips (stats prev);
                 totalHits := totalHits (stats prev) + 1;
                 totalChunks := totalChunks (stats prev) |} |}.

(** The callback of [prev.ships.map] in the ship updater, for the ship
    identifier [sid] of the cell that was hit. *)
Definition hitShip (sid : option string) (s : Ship) (l : Locals) : Ship * Locals :=
  if bool_decide (Some (ship_id s) = sid) then
    let newHits := ship_hits s + 1 in
    let isDestroyed := newHits =? Z.of_nat (length (ship_cells s)) in
    ({| ship_id := ship_id s; ship_owner := ship_owner s;
        ship_cells := ship_cells s; ship_hits := newHits;
        ship_destroyed := isDestroyed |},
     if isDestroyed
     then {| shipWasDestroyed := true; destroyedShipCells := ship_cells s |}
     else l)
  else (s, l).

(** [Array.prototype.map] with a callback that assigns outer variables. *)
Fixpoint mapWithLocals (f : Ship → Locals → Ship * Locals) (l : list Ship)
  (v : Locals) : list Ship * Locals :=
  match l with
  | [] => ([], v)
  | s :: r =>
      let '(s', v1) := f s v in
      let '(r', v2) := mapWithLocals f r v1 in
      (s' :: r', v2)
  end.

Definition shipHitUpdater (cell : CellState) : Updater :=
  λ prev l,
    let '(updatedShips, l') :=
      mapWithLocals (hitShip (ref_id <$> ship cell)) (ships prev) l in
    ({| grid := grid prev; ships := updatedShips; chunks := chunks prev;
        stats := stats prev |}, l').

(** The record a placement writes into each cell of the new ship. *)
Definition shipCell (s : Ship) : CellState :=
  {| occupied := true; hit := false;
     ship := Some {| ref_id := ship_id s; ref_owner := ship_owner s |};
     cooldownUntil := None |}.

Definition placeUpdater (newShip : Ship) (cells : list Coord)
  (prev : TeamGridState) : TeamGridState :=
  {| grid := foldl (λ g c, updateCell (λ _, shipCell newShip) g (cx c) (cy c))
                   (grid prev) cells;
     ships := ships prev ++ [newShip];
     chunks := chunks prev;
     stats := {| totalShips := totalShips (stats prev) + 1;
                 totalHits := totalHits (stats prev);
                 totalChunks := totalChunks (stats prev) |} |}.

(** A string operand of [||] or [&&]: the empty string and [undefined] are
    falsy. *)
Definition truthy (s : option string) : option string :=
  match s with
  | Some v => if bool_decide (v = "") then None else Some v
  | None => None
  end.

(** [processAction].  In the FIRE branch the variables [shipWasDestroyed]
    and [destroyedShipCells] are assigned by the ship updater only, and
    read right after the setter call that queues it. *)
Definition processAction (e : Env) (action : BattleAction) : Handler bool :=
  let x := act_x action in
  let y := act_y action in
  let actionTeam := default blue (team action) in
  match act_type action with
  | FIRE =>
      let targetTeam := opposite actionTeam in
      updateChunkActivity e x y actionTeam ;;
      targetGrid ← readGrid targetTeam;
      cell ← liftOutcome
               (match cellAt targetGrid x y with
                | Some c => Returned c
                | None => Thrown
                end);
      if hit cell then mret false
      else
        setTeamGrid targetTeam (pureUpdater (hitUpdater x y)) ;;
        (if occupied cell && bool_decide (is_Some (ship cell)) then
           declareLocals initLocals ;;
           setTeamGrid targetTeam (shipHitUpdater cell) ;;
           l ← readLocals;
           if shipWasDestroyed l && (0 <? Z.of_nat (length (destroyedShipCells l)))
           then applyCooldownToShipArea e (destroyedShipCells l) targetTeam
           else mret ()
         else mret ()) ;;
        mret true
  | PLACE_SHIP =>
      match shipCells action, truthy (owner action) with
      | Some cells, Some o =>
          let newShip :=
            {| ship_id := default (generateId (rand2 e)) (truthy (shipId action));
               ship_owner := o; ship_cells := cells; ship_hits := 0;
               ship_destroyed := false |} in
          targetGrid ← readGrid actionTeam;
          valid ← liftOutcome (isValidShipPlacement (now e) targetGrid cells);
          if negb valid then mret false
          else
            setTeamGrid actionTeam (pureUpdater (placeUpdater newShip cells)) ;;
            mret true
      | _, _ => mret false
      end
  end.

(** The cells the loop of [placeShip] pushes: [i] from 0 while [i < size]. *)
Definition shipCellsFrom (x y size : Z) (horizontal : bool) : list Coord :=
  (λ i, {| cx := if horizontal then x + i else x;
           cy := if horizontal then y else y + i |}) <$> seqZ 0 size.

Definition placeShip (e : Env) (x y size : Z) (horizontal : bool) (t : Team)
  : Handler bool :=
  player ← readPlayer;
  processAction e
    {| act_type := PLACE_SHIP; act_x := x; act_y := y;
       shipId := Some (generateId (rand1 e)); owner := Some player;
       shipCells := Some (shipCellsFrom x y size horizontal);
       timestamp := now e; team := Some t |}.

Definition fireShot (e : Env) (x y : Z) (t : Team) : Handler bool :=
  processAction e
    {| act_type := FIRE; act_x := x; act_y := y; shipId := None;
       owner := None; shipCells := None; timestamp := now e;
       team := Some t |}.

(** The callback of the decay timer. *)
Definition decayTick (e : Env) : Handler unit :=
  setTeamGrid blue (pureUpdater (decayChunks (now e))) ;;
  setTeamGrid red (pureUpdater (decayChunks (now e))).

(** ** Initial state and operations *)

Definition initialChunks : list Chunk :=
  (λ index, {| chunk_x := index `mod` CHUNK_SIZE;
               chunk_y := index / CHUNK_SIZE;
               heatLevel := 0; lastActivity := 0; activityCount := 0 |})
    <$> seqZ 0 TOTAL_CHUNKS.

Definition initialTeamGrid : TeamGridState :=
  {| grid := generateEmptyGrid; ships := []; chunks := initialChunks;
     stats := {| totalShips := 0; totalHits := 0;
                 totalChunks := TOTAL_CHUNKS |} |}.

Definition initialWorld (r : string) : World :=
  {| blueTeamGrid := initialTeamGrid; redTeamGrid := initialTeamGrid;
     playerRand := r |}.

(** The three operations on the state: two commands and the timer. *)
Inductive Op :=
| OpPlaceShip (x y size : Z) (horizontal : bool) (t : Team)
| OpFireShot (x y : Z) (t : Team)
| OpDecay.

Definition runOp (e : Env) (o : Op) (w : World) : Outcome bool * World :=
  match o with
  | OpPlaceShip x y size horizontal t => dispatch (placeShip e x y size horizontal t) w
  | OpFireShot x y t => dispatch (fireShot e x y t) w
  | OpDecay => dispatch (decayTick e ;; mret true) w
  end.

(** A sequence of operations, each with the inputs it drew. *)
Fixpoint runOps (l : list (Env * Op)) (w : World) : World :=
  match l with
  | [] => w
  | (e, o) :: l' => runOps l' (snd (runOp e o w))
  end.

(** The chunk array keeps the coordinates it was created with. *)
Definition chunkCoords (l : list Chunk) : list (Z * Z) :=
  (λ c, (chunk_x c, chunk_y c)) <$> l.

Definition wf_chunksb (l : list Chunk) : bool :=
  bool_decide (chunkCoords l = chunkCoords initialChunks).

Definition wf_chunks (l : list Chunk) : Prop :=
  chunkCoords l = chunkCoords initialChunks.


(** ** Vocabulary of the statements *)

(** The ship record [placeShip] hands to [processAction]. *)
Definition newShipFor (e : Env) (w : World) (cells : list Coord) : Ship :=
  {| ship_id := default (generateId (rand2 e))
                        (truthy (Some (generateId (rand1 e))));
     ship_owner := currentPlayer w; ship_cells := cells; ship_hits := 0;
     ship_destroyed := false |}.

(** A cell a new ship may cover: within the grid, not occupied, and its
    cooldown absent or earlier than [t]. *)
Definition cellFree (t : Z) (g : Grid) (c : Coord) : Prop :=
  (0 ≤ cx c < GRID_SIZE ∧ 0 ≤ cy c < GRID_SIZE)
  ∧ ∃ cell, cellAt g (cx c) (cy c) = Some cell
            ∧ occupied cell = false
            ∧ (cooldownUntil cell = None
               ∨ ∃ u, cooldownUntil cell = Some u ∧ u < t).

(** Sample inputs: the clock at [t] with two identifier draws, and the
    state at mount for a player tagged ["p"]. *)
Definition sampleEnv (t : Z) : Env := {| now := t; rand1 := "s1"; rand2 := "s2" |}.

Definition sampleWorld : World := initialWorld "p".

(** Two cells that differ at most in their [hit] flag, and two grids whose
    cells do. *)
Definition sameButHit (c c' : CellState) : Prop :=
  occupied c = occupied c' ∧ ship c = ship c'
  ∧ cooldownUntil c = cooldownUntil c'.

Definition gridsDifferInHitOnly (g g' : Grid) : Prop :=
  ∀ x y, option_Forall2 sameButHit (cellAt g x y) (cellAt g' x y).

(** The sample state after Red has fired at the empty cell (10, 10) of
    Blue. *)
Definition sampleWorldShotAt : World :=
  snd (dispatch (fireShot (sampleEnv 500) 10 10 red) sampleWorld).

(** The position in the chunk array of the chunk that contains cell
    [(x, y)]: the array is laid out row by row, [CHUNK_SIZE] to a row. *)
Definition chunkIndexOf (x y : Z) : nat :=
  Z.to_nat (y / CELLS_PER_CHUNK * CHUNK_SIZE + x / CELLS_PER_CHUNK).

(** The end-to-end scenario of the specification: Blue places a two-cell
    horizontal ship at (10, 10); Red fires at (10, 10), then at (11, 10). *)
Definition scenarioPlaced : World :=
  (dispatch (placeShip (sampleEnv 1000) 10 10 2 true blue) sampleWorld).2.

Definition scenarioFirstHit : World :=
  (dispatch (fireShot (sampleEnv 2000) 10 10 red) scenarioPlaced).2.

Definition scenarioSecondHit : Outcome bool * World :=
  dispatch (fireShot (sampleEnv 3000) 11 10 red) scenarioFirstHit.

(** A state in which Blue's cell (10, 10) is free and carries the cooldown
    timestamp 5000, as the cooldown updater writes it. *)
Definition sampleWorldCooled : World :=
  setTeam blue
    (cooldownUpdater 5000 [ {| cx := 10; cy := 10 |} ] initialTeamGrid)
    sampleWorld.

(** The [cooldownUntil] field of cell [(i, j)] of team [u]: [None] when
    there is no such cell, [Some None] when the field is absent. *)
Definition cooldownAt (u : Team) (w : World) (i j : Z) : option (option Z) :=
  cooldownUntil <$> cellAt (grid (teamGrid u w)) i j.

(** The cells within one step of [c] in each direction, [c] included. *)
Definition near (c d : Coord) : Prop :=
  cx c - 1 ≤ cx d ≤ cx c + 1 ∧ cy c - 1 ≤ cy d ≤ cy c + 1.

(** The three thresholds [updateHeatLevels] computes when some chunk is
    active: hot, warm and minimum. *)
Definition heatThresholds (chunks : list Chunk) : Q * Q * Q :=
  let activeChunks := List.filter isActive chunks in
  let sortedChunks := sortByActivityDesc activeChunks in
  let maxActivity := activityAt sortedChunks 0 in
  let hotCount :=
    Z.max 1 (Qfloor (inject_Z (Z.of_nat (length activeChunks)) * 0.2)) in
  let warmCount :=
    Z.max 2 (Qfloor (inject_Z (Z.of_nat (length activeChunks)) * 0.3)) in
  let last := Z.of_nat (length sortedChunks) - 1 in
  (activityAt sortedChunks (Z.min (hotCount - 1) last),
   activityAt sortedChunks (Z.min (hotCount + warmCount - 1) last),
   (maxActivity * 0.03)%Q).

(** The retention factor of a decay for a chunk idle for [age] ms. *)
Definition decayRateFor (age : Z) : Q :=
  if age <? ACTIVITY_LIFETIME then 0.999
  else if age <? ACTIVITY_EXTENDED_LIFETIME then 0.98
  else 0.95.

(** Two chunks with the same [activityCount]. *)
Definition sameCount (c d : Chunk) : Prop := activityCount c = activityCount d.

(** The shape every reachable state has: full grids, and chunk arrays laid
    out as at creation. *)
Definition wf_world (w : World) : Prop :=
  ∀ t, wf_grid (grid (teamGrid t w)) ∧ wf_chunks (chunks (teamGrid t w)).

(** The invariant of the chunk arrays: counts are not negative, and a
    chunk whose count is 0 has heat level 0. *)
Definition chunkOk (c : Chunk) : Prop :=
  (0 <= activityCount c)%Q ∧ ((activityCount c == 0)%Q → heatLevel c = 0).

(** * Invariants of the battle state, the simulation and the components

    The definitions below embed the rest of [utils/grid.ts] and
    [contexts/BattleContext.tsx] (random placement, the heat reset, the
    simulated battle, the viewport and the zoom) and the callers of the
    battle state in [contexts/TeamSelectionContext.tsx], [App.tsx],
    [components/Grid.tsx], [components/MiniMap.tsx] and
    [components/Console.tsx].

    Further conventions.
    - A number [Math.random()] returns, a pixel coordinate and a wheel
      delta are exact rationals.
    - The components other than [BattleProvider]'s team grids set their
      state cells with plain values, or with an updater that reads only
      its argument; an event is handled against the state of the last
      render, so a handler is a function from the state to the next
      state and to the calls it makes in its context.
    - The callback [zoomToChunk] hands to [setTimeout] is a step of its
      own ([zoomTimeout]).
    - The item of [localStorage] is an optional string.
    - Of what [drawGrid] paints, the model keeps the three things that
      depend on a cell; the cursor style set by [handleMouseMove] is left
      out. *)

(** ** Random placement ([utils/grid.ts]) *)

(** What one attempt of [generateRandomShipPlacement] draws: three random
    numbers, and the clock that [isValidShipPlacement] reads. *)
Record Attempt := {
  orientationDraw : Q;
  xDraw : Q;
  yDraw : Q;
  attemptNow : Z
}.

(** [Math.floor(Math.random() * n)] for the draw [r] *)
Definition randomIndex (r : Q) (n : Z) : Z := Qfloor (r * inject_Z n).

(** The cells one attempt proposes. *)
Definition attemptCells (size : Z) (a : Attempt) : list Coord :=
  let isHorizontal := Qlt_bool 0.5 (orientationDraw a) in
  let x := randomIndex (xDraw a)
             (if isHorizontal then GRID_SIZE - size else GRID_SIZE) in
  let y := randomIndex (yDraw a)
             (if isHorizontal then GRID_SIZE else GRID_SIZE - size) in
  shipCellsFrom x y size isHorizontal.

(** The loop over the attempts: the first valid proposal is returned;
    [None] is [null]. *)
Fixpoint tryAttempts (g : Grid) (size : Z) (attempts : list Attempt)
  : Outcome (option (list Coord)) :=
  match attempts with
  | [] => Returned None
  | a :: rest =>
      let cells := attemptCells size a in
      match isValidShipPlacement (attemptNow a) g cells with
      | Returned true => Returned (Some cells)
      | Returned false => tryAttempts g size rest
      | Thrown => Thrown
      end
  end.

Definition generateRandomShipPlacement (draws : nat → Attempt) (g : Grid)
  (size : Z) : Outcome (option (list Coord)) :=
  tryAttempts g size (draws <$> seq 0 100).

(** [a[i]] for a computed index: [undefined] outside the array. *)
Definition arrayAt {A : Type} (l : list A) (i : Z) : option A :=
  if i <? 0 then None else l !! Z.to_nat i.

(** ** Resetting the heat map and simulating a battle ([BattleContext.tsx]) *)

Definition resetChunks (chunks : list Chunk) : list Chunk :=
  map (λ chunk, {| chunk_x := chunk_x chunk; chunk_y := chunk_y chunk;
                   heatLevel := 0; lastActivity := 0; activityCount := 0 |})
      chunks.

Definition resetHeatMap : Handler unit :=
  setTeamGrid blue
    (pureUpdater (λ prev, withChunks (resetChunks (chunks prev)) prev)) ;;
  setTeamGrid red
    (pureUpdater (λ prev, withChunks (resetChunks (chunks prev)) prev)).

(** A [for] loop whose body is run for each element in turn; a body that
    raises ends the loop. *)
Fixpoint forEach {A : Type} (l : list A) (body : A → Handler unit)
  : Handler unit :=
  match l with
  | [] => mret ()
  | a :: l' => body a ;; forEach l' body
  end.

(** The [options] argument of [simulateBattle]. *)
Record TestAction := {
  ta_type : ActionType;
  ta_x : Z;
  ta_y : Z;
  ta_shipSize : option Z;
  ta_isHorizontal : option bool
}.

Record SimOptions := { testAction : option TestAction }.

(** What one iteration of [generateShips] draws: the index into
    [SHIP_SIZES], the attempts of the random placement, the identifier and
    the owner suffix, the timestamp offset, and what [processAction] reads
    (the clock and its fallback identifier). *)
Record ShipDraws := {
  sizeDraw : Q;
  attempts : nat → Attempt;
  idDraw : string;
  ownerDraw : string;
  placeStampDraw : Q;
  placeEnv : Env
}.

(** What one iteration of [simulateFiring] draws. *)
Record ShotDraws := {
  shotXDraw : Q;
  shotYDraw : Q;
  shotStampDraw : Q;
  shotEnv : Env
}.

Record BattleDraws := {
  shipsFor : Team → nat → ShipDraws;
  shotsFor : Team → nat → ShotDraws
}.

(** [generateShips(team)].  An index outside [SHIP_SIZES] gives the size
    [undefined]: the placement loop then pushes no cell, the empty
    placement is valid and is returned, and the length test skips it. *)
Definition generateShips (d : nat → ShipDraws) (actionsCount : Z) (t : Team)
  : Handler unit :=
  forEach (seq 0 (Z.to_nat (Qfloor (inject_Z actionsCount * 0.1))))
    (λ i,
       let dr := d i in
       let size :=
         arrayAt SHIP_SIZES
           (randomIndex (sizeDraw dr) (Z.of_nat (length SHIP_SIZES))) in
       teamGrid ← readGrid t;
       shipCells ← liftOutcome
                     (match size with
                      | Some sz =>
                          generateRandomShipPlacement (attempts dr) teamGrid sz
                      | None => Returned (Some [])
                      end);
       match shipCells with
       | Some (c :: cells) =>
           processAction (placeEnv dr)
             {| act_type := PLACE_SHIP; act_x := cx c; act_y := cy c;
                shipId := Some (generateId (idDraw dr));
                owner := Some (generateOwner (ownerDraw dr));
                shipCells := Some (c :: cells);
                timestamp := now (placeEnv dr)
                             - randomIndex (placeStampDraw dr) 300000;
                team := Some t |} ;;
           mret ()
       | _ => mret ()
       end).

(** [simulateFiring(team, count)] *)
Definition simulateFiring (d : nat → ShotDraws) (t : Team) (count : Z)
  : Handler unit :=
  forEach (seq 0 (Z.to_nat count))
    (λ i,
       let dr := d i in
       let x := randomIndex (shotXDraw dr) GRID_SIZE in
       let y := randomIndex (shotYDraw dr) GRID_SIZE in
       processAction (shotEnv dr)
         {| act_type := FIRE; act_x := x; act_y := y; shipId := None;
            owner := None; shipCells := None;
            timestamp := now (shotEnv dr)
                         - randomIndex (shotStampDraw dr) 30000;
            team := Some t |} ;;
       mret ()).

(** [simulateBattle(actionsCount, options)].  Without a test action the
    first update it queues is the reset of Blue's chunks; with one, and
    ten actions or more, it is a placement, which writes rows of the grid
    that later iterations read: the statements below about calls with a
    test action concern counts below ten only. *)
Definition simulateBattle (d : BattleDraws) (actionsCount : Z)
  (options : option SimOptions) : Handler unit :=
  match options ≫= testAction with
  | None => resetHeatMap
  | Some _ => mret ()
  end ;;
  generateShips (shipsFor d blue) actionsCount blue ;;
  generateShips (shipsFor d red) actionsCount red ;;
  let fireCount := Qfloor (inject_Z actionsCount * 0.9) in
  simulateFiring (shotsFor d blue) blue (fireCount / 2) ;;
  simulateFiring (shotsFor d red) red (fireCount / 2).

(** ** The simulation driver ([components/Console.tsx], [BattleSimulation]) *)

(** What one action of the driver draws, and the draws of the call of
    [simulateBattle] it makes. *)
Record ActionDraws := {
  actXDraw : Q;
  actYDraw : Q;
  kindDraw : Q;
  shipSizeDraw : Q;
  isHorizontalDraw : Q;
  battleDraws : BattleDraws
}.

(** The body shared by the two generators: place a ship with probability
    0.15, fire otherwise, through [simulateBattle(1, { testAction })]. *)
Definition simulateAction (dr : ActionDraws) (x y : Z) : Handler unit :=
  if Qlt_bool (kindDraw dr) 0.15 then
    let shipSize := 2 + randomIndex (shipSizeDraw dr) 3 in
    let isHorizontal := Qlt_bool 0.5 (isHorizontalDraw dr) in
    simulateBattle (battleDraws dr) 1
      (Some {| testAction :=
                 Some {| ta_type := PLACE_SHIP; ta_x := x; ta_y := y;
                         ta_shipSize := Some shipSize;
                         ta_isHorizontal := Some isHorizontal |} |})
  else
    simulateBattle (battleDraws dr) 1
      (Some {| testAction :=
                 Some {| ta_type := FIRE; ta_x := x; ta_y := y;
                         ta_shipSize := None; ta_isHorizontal := None |} |}).

Definition simulateWideDistribution (d : nat → ActionDraws) : Handler unit :=
  let actionCount := 50%nat in
  forEach (seq 0 actionCount)
    (λ i,
       let dr := d i in
       let x := randomIndex (actXDraw dr) GRID_SIZE in
       let y := randomIndex (actYDraw dr) GRID_SIZE in
       simulateAction dr x y).

(** The eight fixed hotspot chunks, then up to four random ones that are
    not yet in the list. *)
Definition hotspotChunks (d : nat → Q * Q) : list Coord :=
  foldl (λ hs i,
           let randomChunkX := randomIndex (d i).1 CHUNK_SIZE in
           let randomChunkY := randomIndex (d i).2 CHUNK_SIZE in
           if existsb (λ chunk, (cx chunk =? randomChunkX)
                                && (cy chunk =? randomChunkY)) hs
           then hs
           else hs ++ [ {| cx := randomChunkX; cy := randomChunkY |} ])
        [ {| cx := 2; cy := 3 |}; {| cx := 7; cy := 7 |};
          {| cx := 1; cy := 1 |}; {| cx := 9; cy := 9 |};
          {| cx := 5; cy := 5 |}; {| cx := 4; cy := 8 |};
          {| cx := 3; cy := 6 |}; {| cx := 8; cy := 2 |} ]
        (seq 0 4).

Definition simulateFocusedHotspots (dc : nat → Q * Q)
  (d : nat → nat → ActionDraws) : Handler unit :=
  forEach (imap pair (hotspotChunks dc))
    (λ '(k, chunk),
       let baseX := cx chunk * CELLS_PER_CHUNK in
       let baseY := cy chunk * CELLS_PER_CHUNK in
       let actionCount := 12%nat in
       forEach (seq 0 actionCount)
         (λ i,
            let dr := d k i in
            let offsetX := randomIndex (actXDraw dr) CELLS_PER_CHUNK in
            let offsetY := randomIndex (actYDraw dr) CELLS_PER_CHUNK in
            let x := baseX + offsetX in
            let y := baseY + offsetY in
            simulateAction dr x y)).

(** ** Team selection and the cell click ([TeamSelectionContext.tsx],
       [App.tsx]) *)

Inductive GameView := attack | defend.

(** The state cells of [TeamSelectionProvider]. *)
Record TeamSelection := {
  selectedTeam : Team;
  activeView : GameView;
  hasSelectedTeam : bool
}.

(** The placement controls of [BattleProvider]. *)
Record Controls := { selectedShipSize : Z; isHorizontal : bool }.

(** [getActiveGrid]: the opponent's state in the attack view, the own
    state in the defend view. *)
Definition getActiveGrid (sel : TeamSelection) (w : World) : TeamGridState :=
  match activeView sel with
  | attack =>
      match selectedTeam sel with blue => redTeamGrid w | red => blueTeamGrid w end
  | defend =>
      match selectedTeam sel with blue => blueTeamGrid w | red => redTeamGrid w end
  end.

(** [handleCellClick] of the [BattleField] that follows the active view. *)
Definition handleCellClick (e : Env) (sel : TeamSelection) (c : Controls)
  (x y : Z) : Handler unit :=
  match activeView sel with
  | defend =>
      placeShip e x y (selectedShipSize c) (isHorizontal c) (selectedTeam sel) ;;
      mret ()
  | attack => fireShot e x y (selectedTeam sel) ;; mret ()
  end.

(** [handleCellClick] of the [BattleField] that keeps a [gameMode] state:
    the result is the next value of [gameMode]. *)
Inductive GameMode := place | fire.

Definition handleCellClickByMode (e : Env) (gameMode : GameMode)
  (sel : TeamSelection) (c : Controls) (x y : Z) : Handler GameMode :=
  match gameMode with
  | place =>
      success ← placeShip e x y (selectedShipSize c) (isHorizontal c)
                  (selectedTeam sel);
      mret (if success : bool then fire else gameMode)
  | fire => fireShot e x y (selectedTeam sel) ;; mret gameMode
  end.

(** The events of that [BattleField]: a cell click with the inputs it
    draws, or the mode toggle of the console, which does nothing. *)
Inductive FieldEvent :=
| FieldClick (e : Env) (x y : Z)
| FieldModeToggle.

(** The state after a sequence of events; a click that raises leaves
    [gameMode] as it was. *)
Fixpoint runField (sel : TeamSelection) (c : Controls) (l : list FieldEvent)
  (gameMode : GameMode) (w : World) : GameMode * World :=
  match l with
  | [] => (gameMode, w)
  | FieldClick e x y :: l' =>
      let '(r, w') := dispatch (handleCellClickByMode e gameMode sel c x y) w in
      runField sel c l' (match r with Returned m => m | Thrown => gameMode end) w'
  | FieldModeToggle :: l' => runField sel c l' gameMode w
  end.

(** The shots a sequence of events amounts to. *)
Definition shotsOf (sel : TeamSelection) (l : list FieldEvent)
  : list (Env * Op) :=
  l ≫= λ ev, match ev with
             | FieldClick e x y => [(e, OpFireShot x y (selectedTeam sel))]
             | FieldModeToggle => []
             end.

(** ** Persisting the team ([TeamSelectionContext.tsx]) *)

(** The team as [localStorage] holds it under [TEAM_STORAGE_KEY]. *)
Definition teamName (t : Team) : string :=
  match t with blue => "blue" | red => "red" end.

(** The initial state of the provider, from the stored item ([None] is
    [null]). *)
Definition initialSelection (saved : option string) : TeamSelection :=
  {| selectedTeam :=
       if bool_decide (saved = Some "red") then red
       else if bool_decide (saved = Some "blue") then blue
       else blue;
     activeView := attack;
     hasSelectedTeam := bool_decide (saved ≠ None) |}.

(** The effect that persists the team: it runs after the first render and
    after every render in which [selectedTeam] or [hasSelectedTeam] has
    changed. *)
Definition persistTeam (sel : TeamSelection) (saved : option string)
  : option string :=
  if hasSelectedTeam sel then Some (teamName (selectedTeam sel)) else saved.

Definition afterRender (old new : TeamSelection) (saved : option string)
  : option string :=
  if bool_decide (selectedTeam old = selectedTeam new
                  ∧ hasSelectedTeam old = hasSelectedTeam new)
  then saved else persistTeam new saved.

Definition mountSelection (saved : option string)
  : TeamSelection * option string :=
  let sel := initialSelection saved in (sel, persistTeam sel saved).

Inductive SelectionEvent :=
| SelectTeam (t : Team)
| SetActiveView (view : GameView)
| ResetTeamSelection.

(** [handleTeamSelection], [setActiveView] and [resetTeamSelection], each
    followed by the render it causes. *)
Definition selectionStep (ev : SelectionEvent)
  (s : TeamSelection * option string) : TeamSelection * option string :=
  let '(sel, saved) := s in
  match ev with
  | SelectTeam t =>
      let new := {| selectedTeam := t; activeView := activeView sel;
                    hasSelectedTeam := true |} in
      (new, afterRender sel new saved)
  | SetActiveView view =>
      let new := {| selectedTeam := selectedTeam sel; activeView := view;
                    hasSelectedTeam := hasSelectedTeam sel |} in
      (new, afterRender sel new saved)
  | ResetTeamSelection =>
      let new := {| selectedTeam := selectedTeam sel;
                    activeView := activeView sel;
                    hasSelectedTeam := false |} in
      (new, afterRender sel new None)
  end.

(** ** The placement preview ([components/Grid.tsx]) *)

(** [cellData.cooldownUntil && cellData.cooldownUntil > Date.now()] *)
Definition inCooldown (now : Z) (cell : CellState) : bool :=
  match cooldownUntil cell with
  | None => false
  | Some t => negb (t =? 0) && (now <? t)
  end.

(** The validity test of [drawShipPreview]. *)
Definition previewIsValid (now : Z) (g : Grid) (shipCells : list Coord)
  : Outcome bool :=
  every (λ cell,
    if (cx cell <? 0) || (GRID_SIZE <=? cx cell)
       || (cy cell <? 0) || (GRID_SIZE <=? cy cell)
    then Returned false
    else
      match cellAt g (cx cell) (cy cell) with
      | Some cellData =>
          if occupied cellData then Returned false
          else if inCooldown now cellData then Returned false
          else Returned true
      | None => Thrown
      end) shipCells.

(** ** The viewport and the zoom ([BattleContext.tsx]) *)

Record Point := { px : Q; py : Q }.

(** The view state cells of [BattleProvider]. *)
Record ViewState := {
  viewportPosition : Point;
  isZoomedIn : bool;
  zoomedChunk : option Coord;
  previousViewport : Point;
  cellSizeMultiplier : Q
}.

(** The canvas element: the origin of its bounding rectangle and its
    size. *)
Record Canvas := {
  rectLeft : Q;
  rectTop : Q;
  canvasWidth : Q;
  canvasHeight : Q
}.

Definition Math_max (a b : Q) : Q := if Qle_bool a b then b else a.
Definition Math_min (a b : Q) : Q := if Qle_bool a b then a else b.

(** [setViewportPosition] with a value or an updater. *)
Definition setViewportPosition (u : Point → Point) (v : ViewState) : ViewState :=
  {| viewportPosition := u (viewportPosition v); isZoomedIn := isZoomedIn v;
     zoomedChunk := zoomedChunk v; previousViewport := previousViewport v;
     cellSizeMultiplier := cellSizeMultiplier v |}.

(** [zoomToChunk], up to the timer it starts. *)
Definition zoomToChunk (chunk : Coord) (v : ViewState) : ViewState :=
  {| viewportPosition := viewportPosition v; isZoomedIn := true;
     zoomedChunk := Some chunk; previousViewport := viewportPosition v;
     cellSizeMultiplier := 4 |}.

(** The callback of the timer of [zoomToChunk]; [canvas] is what
    [document.querySelector('canvas')] finds. *)
Definition zoomTimeout (chunk : Coord) (canvas : option Canvas)
  (v : ViewState) : ViewState :=
  match canvas with
  | Some cv =>
      let chunkStartX := inject_Z (cx chunk * CELLS_PER_CHUNK) in
      let chunkStartY := inject_Z (cy chunk * CELLS_PER_CHUNK) in
      let cellSizeZoomed := (2.5 * 4)%Q in
      let chunkWidthZoomed := (inject_Z CELLS_PER_CHUNK * cellSizeZoomed)%Q in
      let newX := Math_max 0 (chunkStartX * cellSizeZoomed
                              - (canvasWidth cv - chunkWidthZoomed) / 2) in
      let newY := Math_max 0 (chunkStartY * cellSizeZoomed
                              - (canvasHeight cv - chunkWidthZoomed) / 2) in
      let maxX := (inject_Z GRID_SIZE * cellSizeZoomed - canvasWidth cv)%Q in
      let maxY := (inject_Z GRID_SIZE * cellSizeZoomed - canvasHeight cv)%Q in
      setViewportPosition
        (λ _, {| px := Math_min newX (Math_max 0 maxX);
                 py := Math_min newY (Math_max 0 maxY) |}) v
  | None => v
  end.

Definition returnToOverview (v : ViewState) : ViewState :=
  {| viewportPosition := previousViewport v; isZoomedIn := false;
     zoomedChunk := None; previousViewport := previousViewport v;
     cellSizeMultiplier := 1 |}.

(** ** The mouse on the grid ([components/Grid.tsx]) *)

(** The state cells of the [Grid] component. *)
Record GridUi := {
  hoveredCell : option Coord;
  hoveredChunk : option Coord;
  isDragging : bool;
  dragStart : option Point
}.

Record MouseEvent := { clientX : Q; clientY : Q; button : Z }.

(** What a handler of the component calls in its context. *)
Inductive UiCall :=
| SetViewport (u : Point → Point)
| ZoomToChunk (chunk : Coord)
| CellClick (x y : Z).

Definition cellSize (v : ViewState) : Q := 2.5 * cellSizeMultiplier v.

Definition totalGridWidth (v : ViewState) : Q :=
  inject_Z CHUNK_SIZE * inject_Z CELLS_PER_CHUNK * cellSize v.

Definition totalGridHeight (v : ViewState) : Q :=
  inject_Z CHUNK_SIZE * inject_Z CELLS_PER_CHUNK * cellSize v.

(** [Math.floor(a / b)]; [None] where the quotient is not finite. *)
Definition floorDiv (a b : Q) : option Z :=
  if Qeq_bool b 0 then None else Some (Qfloor (a / b)).

(** [i >= 0 && i < n && j >= 0 && j < n] for two computed indices, as a
    coordinate pair. *)
Definition within (n : Z) (i j : option Z) : option Coord :=
  match i, j with
  | Some x, Some y =>
      if (0 <=? x) && (x <? n) && (0 <=? y) && (y <? n)
      then Some {| cx := x; cy := y |} else None
  | _, _ => None
  end.

(** The updater both the drag and the wheel pass to
    [setViewportPosition]: move by [(dx, dy)], not below 0 and, with a
    canvas, not beyond the far edge of the grid. *)
Definition moveViewport (v : ViewState) (canvas : option Canvas) (dx dy : Q)
  (prev : Point) : Point :=
  let newX := Math_max 0 (px prev + dx) in
  let newY := Math_max 0 (py prev + dy) in
  match canvas with
  | Some cv =>
      let maxX := Math_max 0 (totalGridWidth v - canvasWidth cv) in
      let maxY := Math_max 0 (totalGridHeight v - canvasHeight cv) in
      {| px := Math_min newX maxX; py := Math_min newY maxY |}
  | None => {| px := newX; py := newY |}
  end.

Definition handleMouseMove (v : ViewState) (canvas : option Canvas)
  (e : MouseEvent) (ui : GridUi) : GridUi * list UiCall :=
  match canvas with
  | None => (ui, [])
  | Some cv =>
      let mouseX := (clientX e - rectLeft cv)%Q in
      let mouseY := (clientY e - rectTop cv)%Q in
      let newHoveredChunk :=
        if negb (isZoomedIn v) && negb (isDragging ui) then
          let chunkX := floorDiv (mouseX + px (viewportPosition v))
                          (inject_Z CELLS_PER_CHUNK * cellSize v) in
          let chunkY := floorDiv (mouseY + py (viewportPosition v))
                          (inject_Z CELLS_PER_CHUNK * cellSize v) in
          within CHUNK_SIZE chunkX chunkY
        else hoveredChunk ui in
      match isDragging ui, dragStart ui with
      | true, Some start =>
          let deltaX := (mouseX - px start)%Q in
          let deltaY := (mouseY - py start)%Q in
          ({| hoveredCell := hoveredCell ui; hoveredChunk := newHoveredChunk;
              isDragging := isDragging ui;
              dragStart := Some {| px := mouseX; py := mouseY |} |},
           [ SetViewport (moveViewport v canvas (- deltaX) (- deltaY)) ])
      | _, _ =>
          let cellX := floorDiv (mouseX + px (viewportPosition v)) (cellSize v) in
          let cellY := floorDiv (mouseY + py (viewportPosition v)) (cellSize v) in
          ({| hoveredCell := within (CHUNK_SIZE * CELLS_PER_CHUNK) cellX cellY;
              hoveredChunk := newHoveredChunk;
              isDragging := isDragging ui; dragStart := dragStart ui |},
           [])
      end
  end.

Definition handleMouseDown (canvas : option Canvas) (e : MouseEvent)
  (ui : GridUi) : GridUi * list UiCall :=
  if button e =? 0 then
    ({| hoveredCell := hoveredCell ui; hoveredChunk := hoveredChunk ui;
        isDragging := true;
        dragStart :=
          match canvas with
          | Some cv => Some {| px := clientX e - rectLeft cv;
                               py := clientY e - rectTop cv |}
          | None => dragStart ui
          end |}, [])
  else (ui, []).

Definition handleMouseUp (v : ViewState) (canvas : option Canvas)
  (e : MouseEvent) (ui : GridUi) : GridUi * list UiCall :=
  if button e =? 0 then
    ({| hoveredCell := hoveredCell ui; hoveredChunk := hoveredChunk ui;
        isDragging := false; dragStart := None |},
     match isDragging ui, dragStart ui, canvas with
     | true, Some start, Some cv =>
         let endX := (clientX e - rectLeft cv)%Q in
         let endY := (clientY e - rectTop cv)%Q in
         let dx := Qabs (endX - px start) in
         let dy := Qabs (endY - py start) in
         if Qlt_bool dx 5 && Qlt_bool dy 5 then
           match hoveredChunk ui, isZoomedIn v, hoveredCell ui with
           | Some chunk, false, _ => [ ZoomToChunk chunk ]
           | _, _, Some cell => [ CellClick (cx cell) (cy cell) ]
           | _, _, None => []
           end
         else []
     | _, _, _ => []
     end)
  else (ui, []).

Definition handleMouseLeave (ui : GridUi) : GridUi * list UiCall :=
  ({| hoveredCell := None; hoveredChunk := None; isDragging := false;
      dragStart := None |}, []).

(** [Math.sign(d) * Math.min(Math.abs(d), m)] *)
Definition limitDelta (d m : Q) : Q :=
  ((if Qlt_bool 0 d then 1 else if Qlt_bool d 0 then -1 else 0)
   * Math_min (Qabs d) m)%Q.

Definition handleWheel (v : ViewState) (canvas : option Canvas)
  (wheelX wheelY : Q) : list UiCall :=
  let sensitivity := 1.0%Q in
  let deltaX := (wheelX * sensitivity)%Q in
  let deltaY := (wheelY * sensitivity)%Q in
  let '(deltaX, deltaY) :=
    if Qlt_bool (Qabs deltaX) (Qabs deltaY * 0.5) then ((deltaX * 0.5)%Q, deltaY)
    else if Qlt_bool (Qabs deltaY) (Qabs deltaX * 0.5)
         then (deltaX, (deltaY * 0.5)%Q)
         else (deltaX, deltaY) in
  let maxDelta := 30%Q in
  [ SetViewport (moveViewport v canvas (limitDelta deltaX maxDelta)
                   (limitDelta deltaY maxDelta)) ].

(** A step of the component: one mouse event with the view state and the
    canvas of the render that handles it. *)
Inductive MouseKind := MouseMove | MouseDown | MouseUp | MouseLeave.

Record MouseStep := {
  stepKind : MouseKind;
  stepView : ViewState;
  stepCanvas : option Canvas;
  stepEvent : MouseEvent
}.

Definition mouseStep (s : MouseStep) (ui : GridUi) : GridUi * list UiCall :=
  match stepKind s with
  | MouseMove => handleMouseMove (stepView s) (stepCanvas s) (stepEvent s) ui
  | MouseDown => handleMouseDown (stepCanvas s) (stepEvent s) ui
  | MouseUp => handleMouseUp (stepView s) (stepCanvas s) (stepEvent s) ui
  | MouseLeave => handleMouseLeave ui
  end.

(** The calls a sequence of mouse events makes, in order. *)
Fixpoint mouseCalls (l : list MouseStep) (ui : GridUi) : list UiCall :=
  match l with
  | [] => []
  | s :: l' => let '(ui', calls) := mouseStep s ui in calls ++ mouseCalls l' ui'
  end.

Definition initialGridUi : GridUi :=
  {| hoveredCell := None; hoveredChunk := None; isDragging := false;
     dragStart := None |}.

(** ** Drawing a cell ([components/Grid.tsx]) *)

Definition getCellColor (view : GameView) (t : Team) (cell : CellState)
  : string :=
  match view with
  | defend =>
      if occupied cell then
        if hit cell then "rgb(180, 30, 30)"
        else match t with
             | blue => "rgb(50, 93, 136)"
             | red => "rgb(136, 50, 50)"
             end
      else if hit cell then "rgb(30, 70, 180)"
      else "rgb(30, 35, 50)"
  | attack =>
      if occupied cell && hit cell then "rgb(200, 50, 50)"
      else if hit cell && negb (occupied cell) then "rgb(30, 100, 180)"
      else "rgb(40, 45, 60)"
  end.

(** [getCooldownColor]: transparent, or red with an opacity; the opacity
    is kept as the number that [toFixed(2)] formats. *)
Inductive CooldownColor :=
| transparent
| redOverlay (opacity : Q).

Definition getCooldownColor (now : Z) (until : option Z) : CooldownColor :=
  match until with
  | None => transparent
  | Some t =>
      if t =? 0 then transparent
      else if t <=? now then transparent
      else
        let totalDuration := DESTROYED_TERRITORY_COOLDOWN in
        let remainingTime := t - now in
        let progress := (inject_Z remainingTime / inject_Z totalDuration)%Q in
        redOverlay (Math_max 0 (Math_min 0.6 (progress * 0.6)))
  end.

(** What [drawGrid] paints in one cell: the fill colour, the cooldown
    overlay if the cell has a cooldown, and the marker. *)
Inductive Marker := noMarker | explosionMarker | splashMarker | shipMarker.

Record CellDrawing := {
  fillStyle : string;
  overlay : option CooldownColor;
  marker : Marker
}.

Definition drawCell (view : GameView) (t : Team) (now : Z) (cell : CellState)
  : CellDrawing :=
  {| fillStyle := getCellColor view t cell;
     overlay :=
       match cooldownUntil cell with
       | Some u => if u =? 0 then None
                   else Some (getCooldownColor now (cooldownUntil cell))
       | None => None
       end;
     marker :=
       if hit cell then
         if occupied cell then explosionMarker else splashMarker
       else if occupied cell
               && match view with defend => true | attack => false end
       then shipMarker
       else noMarker |}.

(** ** The mini-map ([components/MiniMap.tsx]) *)

Definition miniMapSize : Q := 120.

(** [miniMapCoordsToViewport]; [canvas] is what
    [document.querySelector('canvas')] finds. *)
Definition miniMapCoordsToViewport (v : ViewState) (canvas : option Canvas)
  (x y : Q) : Point :=
  let totalGridSize := CHUNK_SIZE * CELLS_PER_CHUNK in
  let baseCellSize := 2.5%Q in
  let mainCellSize := (baseCellSize * cellSizeMultiplier v)%Q in
  let mainGridWidth := (inject_Z totalGridSize * mainCellSize)%Q in
  let mainGridHeight := (inject_Z totalGridSize * mainCellSize)%Q in
  let ratioX := (x / miniMapSize)%Q in
  let ratioY := (y / miniMapSize)%Q in
  match canvas with
  | None => {| px := 0; py := 0 |}
  | Some cv =>
      let viewportX := (ratioX * (mainGridWidth - canvasWidth cv))%Q in
      let viewportY := (ratioY * (mainGridHeight - canvasHeight cv))%Q in
      {| px := Math_max 0 (Math_min viewportX (mainGridWidth - canvasWidth cv));
         py := Math_max 0 (Math_min viewportY (mainGridHeight - canvasHeight cv)) |}
  end.

(** The [getActiveGrid] of the mini-map, written apart from the one of
    [BattleProvider]. *)
Definition miniMapActiveGrid (sel : TeamSelection) (w : World) : Grid :=
  match activeView sel with
  | defend =>
      match selectedTeam sel with
      | blue => grid (blueTeamGrid w)
      | red => grid (redTeamGrid w)
      end
  | attack =>
      match selectedTeam sel with
      | blue => grid (redTeamGrid w)
      | red => grid (blueTeamGrid w)
      end
  end.

(** ** An unused heat estimate ([utils/grid.ts]) *)

(** [calculateHeatLevel(lastActivity)] with the clock and the random
    number it draws. *)
Definition calculateHeatLevel (now : Z) (random : Q) (lastActivity : Z) : Z :=
  if lastActivity =? 0 then 0
  else
    let timeSinceActivity := now - lastActivity in
    let randomFactor := (0.9 + random * 0.2)%Q in
    let adjustedTime := (inject_Z timeSinceActivity * randomFactor)%Q in
    if Qlt_bool adjustedTime 60000 then 3
    else if Qlt_bool adjustedTime 300000 then 2
    else if Qlt_bool adjustedTime 1800000 then 1
    else 0.

(** ** The events that reach the battle state *)

(** A cell click reported by the grid, a tick of the decay timer, a tick
    of the console's simulation (a simulated battle with no options), and
    a tick of the simulation driver (one of its two generators). *)
Inductive AppEvent :=
| AppClick (e : Env) (sel : TeamSelection) (ctl : Controls) (x y : Z)
| AppDecay (e : Env)
| AppSimulate (d : BattleDraws) (actionsCount : Z)
| AppWide (d : nat → ActionDraws)
| AppHotspots (dc : nat → Q * Q) (d : nat → nat → ActionDraws).

Definition appStep (ev : AppEvent) (w : World) : Outcome unit * World :=
  match ev with
  | AppClick e sel ctl x y => dispatch (handleCellClick e sel ctl x y) w
  | AppDecay e => dispatch (decayTick e) w
  | AppSimulate d actionsCount => dispatch (simulateBattle d actionsCount None) w
  | AppWide d => dispatch (simulateWideDistribution d) w
  | AppHotspots dc d => dispatch (simulateFocusedHotspots dc d) w
  end.

(** The outcomes of a sequence of events, and the state it ends in. *)
Fixpoint appRun (l : list AppEvent) (w : World)
  : list (Outcome unit) * World :=
  match l with
  | [] => ([], w)
  | ev :: l' =>
      let '(r, w') := appStep ev w in
      let '(rs, w'') := appRun l' w' in
      (r :: rs, w'')
  end.

(** ** Vocabulary of the further statements *)

(** A ship of the registry after a shot at a cell that carries the
    identifier [sid]: one more hit, and destroyed exactly when the hits
    now equal the number of its cells. *)
Definition struck (sid : string) (s : Ship) : Ship :=
  if bool_decide (ship_id s = sid) then
    {| ship_id := ship_id s; ship_owner := ship_owner s;
       ship_cells := ship_cells s; ship_hits := ship_hits s + 1;
       ship_destroyed := ship_hits s + 1 =? Z.of_nat (length (ship_cells s)) |}
  else s.

(** The reference a cell of ship [s] holds. *)
Definition refOf (s : Ship) : ShipRef :=
  {| ref_id := ship_id s; ref_owner := ship_owner s |}.

(** The grid and the registry of a team describe the same fleet: a cell is
    occupied exactly when it holds a ship reference; the reference is that
    of a registered ship which lists the cell; and every cell a registered
    ship lists is occupied and refers to it. *)
Definition fleetConsistent (s : TeamGridState) : Prop :=
  (∀ i j cell, cellAt (grid s) i j = Some cell →
     (occupied cell = true ↔ is_Some (ship cell))
     ∧ ∀ r, ship cell = Some r →
         ∃ sh, sh ∈ ships s ∧ r = refOf sh
               ∧ {| cx := i; cy := j |} ∈ ship_cells sh)
  ∧ (∀ sh c, sh ∈ ships s → c ∈ ship_cells sh →
       ∃ cell, cellAt (grid s) (cx c) (cy c) = Some cell
               ∧ occupied cell = true ∧ ship cell = Some (refOf sh)).

(** What one operation can do to the state of one team, apart from its
    chunk array: nothing, the placement of the ship [placed] on free
    cells, or one hit on a cell not hit before. *)
Inductive TeamEffect (placed : option Ship) (s s' : TeamGridState) : Prop :=
| effect_none :
    grid s' = grid s → ships s' = ships s → stats s' = stats s →
    TeamEffect placed s s'
| effect_placed (sh : Ship) :
    placed = Some sh →
    Forall (λ c, inBounds (cx c) (cy c) = true
                 ∧ ∃ cell, cellAt (grid s) (cx c) (cy c) = Some cell
                           ∧ occupied cell = false) (ship_cells sh) →
    s' = placeUpdater sh (ship_cells sh) s →
    TeamEffect placed s s'
| effect_hit (x y : Z) (cell : CellState) :
    cellAt (grid s) x y = Some cell → hit cell = false →
    grid s' = updateCell withHit (grid s) x y →
    ships s' =
      (if occupied cell
       then from_option (λ r, struck (ref_id r) <$> ships s) (ships s) (ship cell)
       else ships s) →
    stats s' = {| totalShips := totalShips (stats s);
                  totalHits := totalHits (stats s) + 1;
                  totalChunks := totalChunks (stats s) |} →
    TeamEffect placed s s'.

(** The ship an operation tries to place, if it is a placement. *)
Definition placedShip (e : Env) (o : Op) (w : World) : option Ship :=
  match o with
  | OpPlaceShip x y size horizontal _ =>
      Some (newShipFor e w (shipCellsFrom x y size horizontal))
  | _ => None
  end.

(** Whether the cell at [c] is marked hit (a missing cell is not). *)
Definition isHitAt (g : Grid) (c : Coord) : bool :=
  from_option hit false (cellAt g (cx c) (cy c)).

(** The number of cells of a ship that are marked hit on the grid. *)
Definition hitCells (g : Grid) (sh : Ship) : Z :=
  Z.of_nat (length (List.filter (isHitAt g) (ship_cells sh))).

(** The identifier a placement gives its ship, and the identifiers a
    sequence of operations hands out. *)
Definition placedId (e : Env) : string :=
  default (generateId (rand2 e)) (truthy (Some (generateId (rand1 e)))).

Definition placedIds (ops : list (Env * Op)) : list string :=
  ops ≫= λ eo, match eo.2 with
               | OpPlaceShip _ _ _ _ _ => [placedId eo.1]
               | _ => []
               end.

(** The registry counts the hits of the grid: identifiers are not
    repeated, and each ship lists distinct cells, has as many hits as it
    has cells marked hit, and is flagged destroyed exactly when it has
    been hit and its hits amount to the number of its cells. *)
Definition fleetCounted (s : TeamGridState) : Prop :=
  NoDup (ship_id <$> ships s)
  ∧ ∀ sh, sh ∈ ships s →
      NoDup (ship_cells sh)
      ∧ ship_hits sh = hitCells (grid s) sh
      ∧ ship_destroyed sh
        = (0 <? ship_hits sh)
          && (ship_hits sh =? Z.of_nat (length (ship_cells sh))).

(** Running the queue [q] in front of any other updates takes a state
    [w0] to a state [w1] with [R w0 w1]. *)
Definition runsAs (R : World → World → Prop) (q : list Update) : Prop :=
  ∀ l w0 q', ∃ l' w1, flush (q ++ q') l w0 = flush q' l' w1 ∧ R w0 w1.

(** The handler [h], run against the state [w], returns, and what it has
    queued runs as [R]. *)
Definition queuesOnly {A : Type} (h : Handler A) (w : World)
  (R : World → World → Prop) : Prop :=
  ∀ p, ∃ a l q,
    h w p = (Returned a, {| queue := queue p ++ q; locals := l |})
    ∧ runsAs R q.

(** A random number as [Math.random] returns it. *)
Definition unitDraw (r : Q) : Prop := (0 <= r)%Q ∧ (r < 1)%Q.

(** The sum of the activity counts of a chunk array. *)
Definition totalActivity (cs : list Chunk) : Q :=
  foldr (λ c a, (activityCount c + a)%Q) 0%Q cs.

(** The shots of a simulated battle draw their coordinates as
    [Math.random] does. *)
Definition unitShots (d : BattleDraws) : Prop :=
  ∀ t i, unitDraw (shotXDraw (shotsFor d t i))
         ∧ unitDraw (shotYDraw (shotsFor d t i)).

(** A step between two states that keeps them well formed and adds
    [k u] to the total activity of team [u]. *)
Definition battleStep (k : Team → Z) (w0 w1 : World) : Prop :=
  wf_world w0 →
  wf_world w1
  ∧ ∀ u, (totalActivity (chunks (teamGrid u w1))
          == totalActivity (chunks (teamGrid u w0)) + inject_Z (k u))%Q.

(** The number of shots [simulateBattle] fires at each team. *)
Definition shotsPerTeam (actionsCount : Z) : Z :=
  Z.max 0 (Qfloor (inject_Z actionsCount * 0.9) / 2).

(** [n] shots at team [v] and none at the other team. *)
Definition shotsAt (v : Team) (n : Z) : Team → Z :=
  λ u, if decide (u = v) then n else 0.

(** The team whose state the grid component displays. *)
Definition shownTeam (sel : TeamSelection) : Team :=
  match activeView sel with
  | attack => opposite (selectedTeam sel)
  | defend => selectedTeam sel
  end.

(** A hover state whose cell, if any, is a cell of the grid and whose
    chunk, if any, is a chunk of the grid. *)
Definition hoverInside (ui : GridUi) : Prop :=
  (∀ c, hoveredCell ui = Some c → inBounds (cx c) (cy c) = true)
  ∧ (∀ c, hoveredChunk ui = Some c →
       0 ≤ cx c < CHUNK_SIZE ∧ 0 ≤ cy c < CHUNK_SIZE).

(** A viewport position that shows no space before the grid and none
    after it, unless the canvas is larger than the grid. *)
Definition onGrid (v : ViewState) (cv : Canvas) (p : Point) : Prop :=
  (0 <= px p)%Q ∧ (px p <= Math_max 0 (totalGridWidth v - canvasWidth cv))%Q
  ∧ (0 <= py p)%Q ∧ (py p <= Math_max 0 (totalGridHeight v - canvasHeight cv))%Q.

(** Events as the components produce them: clicks on cells of the grid,
    which are all the grid component reports, and shots drawn by
    [Math.random]. *)
Definition appEventOk (ev : AppEvent) : Prop :=
  match ev with
  | AppClick _ _ _ x y => inBounds x y = true
  | AppSimulate d _ => unitShots d
  | _ => True
  end.


(** ** Sample inputs *)

(** Sample draws of a simulated battle: every shot draws 0.25 and 0.5,
    every other random number is 0.5, and the clock reads 9000. *)
Definition sampleAttempt : Attempt :=
  {| orientationDraw := 0.5; xDraw := 0.5; yDraw := 0.5; attemptNow := 9000 |}.

Definition sampleBattleDraws : BattleDraws :=
  {| shipsFor := λ _ _,
       {| sizeDraw := 0.5; attempts := λ _, sampleAttempt; idDraw := "id";
          ownerDraw := "o"; placeStampDraw := 0.5; placeEnv := sampleEnv 9000 |};
     shotsFor := λ _ _,
       {| shotXDraw := 0.25; shotYDraw := 0.5;
          shotStampDraw := 0.5; shotEnv := sampleEnv 9000 |} |}.

(** Sample inputs: an 800 by 600 canvas at the origin, the view zoomed
    into the first chunk, and a click (move, press, release) at the
    pixel (105, 55). *)
Definition sampleCanvas : Canvas :=
  {| rectLeft := 0; rectTop := 0; canvasWidth := 800; canvasHeight := 600 |}.

Definition sampleZoomedView : ViewState :=
  {| viewportPosition := {| px := 0; py := 0 |}; isZoomedIn := true;
     zoomedChunk := Some {| cx := 0; cy := 0 |};
     previousViewport := {| px := 50; py := 50 |}; cellSizeMultiplier := 4 |}.

Definition sampleClick : list MouseStep :=
  (λ k, {| stepKind := k; stepView := sampleZoomedView;
           stepCanvas := Some sampleCanvas;
           stepEvent := {| clientX := 105; clientY := 55; button := 0 |} |})
    <$> [MouseMove; MouseDown; MouseUp].


(** ** Proof automation *)

(** Side conditions of the case analysis of [decayChunk]. *)
Ltac decay_side :=
  try done; try lia; try apply Qle_refl;
  try (intros H; exfalso; by apply H).
(** * Properties *)

(** ** Grid access *)

Lemma cellAt_updateCell (f : CellState → CellState) (g : Grid) (x y i j : Z) :
  cellAt (updateCell f g x y) i j =
  if bool_decide (i = x ∧ j = y) then f <$> cellAt g i j else cellAt g i j.
Proof.
  unfold cellAt, updateCell.
  destruct (x <? 0) eqn:Hx; cbn [orb].
  { case_bool_decide as H; [|done]. destruct H as [-> ->]. by rewrite Hx. }
  destruct (y <? 0) eqn:Hy; cbn [orb].
  { case_bool_decide as H; [|done]. destruct H as [-> ->].
    rewrite Hy. by rewrite orb_true_r. }
  destruct (i <? 0) eqn:Hi; cbn [orb].
  { by case_bool_decide. }
  destruct (j <? 0) eqn:Hj; cbn [orb].
  { by case_bool_decide. }
  apply Z.ltb_ge in Hx, Hy, Hi, Hj.
  destruct (decide (j = y)) as [->|Hjy].
  - rewrite list_lookup_alter_eq.
    destruct (g !! Z.to_nat y) as [row|]; cbn [fmap option_fmap option_map mbind option_bind].
    + destruct (decide (i = x)) as [->|Hix].
      * rewrite list_lookup_alter_eq. by rewrite bool_decide_eq_true_2.
      * rewrite list_lookup_alter_ne by lia.
        rewrite bool_decide_eq_false_2; [done|]. intros [? _]; done.
    + by case_bool_decide.
  - rewrite list_lookup_alter_ne by lia.
    rewrite bool_decide_eq_false_2; [done|]. intros [_ ?]; done.
Qed.

Lemma wf_gridb_spec (g : Grid) : wf_gridb g = true ↔ wf_grid g.
Proof.
  unfold wf_gridb, wf_grid.
  rewrite andb_true_iff, Nat.eqb_eq, forallb_forall, Forall_forall.
  split; intros [H1 H2]; split; try done; intros r Hr.
  - apply Nat.eqb_eq, H2. by apply list_elem_of_In.
  - apply Nat.eqb_eq, H2. by apply list_elem_of_In.
Qed.

Lemma wf_grid_cellAt (g : Grid) (x y : Z) :
  wf_grid g → inBounds x y = true → is_Some (cellAt g x y).
Proof.
  intros [Hlen Hrows] Hb. unfold inBounds, GRID_SIZE in Hb.
  repeat (apply andb_true_iff in Hb as [Hb ?]).
  unfold cellAt.
  replace (x <? 0) with false by lia. replace (y <? 0) with false by lia.
  simpl.
  destruct (lookup_lt_is_Some_2 g (Z.to_nat y)) as [row Hrow].
  { rewrite Hlen. unfold GRID_SIZE. lia. }
  rewrite Hrow. simpl.
  apply lookup_lt_is_Some_2.
  rewrite Forall_forall in Hrows.
  rewrite (Hrows row) by (by eapply list_elem_of_lookup_2).
  unfold GRID_SIZE. lia.
Qed.

Lemma wf_grid_updateCell (f : CellState → CellState) (g : Grid) (x y : Z) :
  wf_grid g → wf_grid (updateCell f g x y).
Proof.
  intros [Hlen Hrows]. unfold updateCell.
  destruct ((x <? 0) || (y <? 0)); [done|].
  split.
  - by rewrite length_alter.
  - apply Forall_alter; [done|]. intros row _ Hr. by rewrite length_alter.
Qed.

Lemma wf_grid_empty : wf_grid generateEmptyGrid.
Proof.
  unfold wf_grid, generateEmptyGrid. split.
  - by rewrite length_replicate.
  - apply Forall_replicate. by rewrite length_replicate.
Qed.

(** ** Running the handlers *)

Lemma truthy_player (w : World) :
  truthy (Some (currentPlayer w)) = Some (currentPlayer w).
Proof.
  unfold truthy, currentPlayer, generateOwner.
  by rewrite bool_decide_eq_false_2.
Qed.

Lemma dispatch_placeShip (e : Env) (w : World) (x y size : Z)
  (horizontal : bool) (t : Team) :
  dispatch (placeShip e x y size horizontal t) w =
  let cells := shipCellsFrom x y size horizontal in
  match isValidShipPlacement (now e) (grid (teamGrid t w)) cells with
  | Returned true =>
      (Returned true,
       setTeam t (placeUpdater (newShipFor e w cells) cells (teamGrid t w)) w)
  | Returned false => (Returned false, w)
  | Thrown => (Thrown, w)
  end.
Proof.
  unfold dispatch, placeShip, processAction, newShipFor.
  unfold mbind, Handler_bind, mret, Handler_ret, readPlayer, readGrid,
    liftOutcome, setTeamGrid, pureUpdater.
  cbn [act_type shipCells owner shipId team default from_option].
  rewrite truthy_player.
  destruct (isValidShipPlacement _ _ _) as [[|]|]; reflexivity.
Qed.

Lemma teamGrid_setTeam (t : Team) (s : TeamGridState) (w : World) :
  teamGrid t (setTeam t s w) = s.
Proof. by destruct t. Qed.


Lemma teamGrid_setTeam_ne (t u : Team) (s : TeamGridState) (w : World) :
  t ≠ u → teamGrid u (setTeam t s w) = teamGrid u w.
Proof. by destruct t, u. Qed.

Lemma setTeam_setTeam (t : Team) (s s' : TeamGridState) (w : World) :
  setTeam t s (setTeam t s' w) = setTeam t s w.
Proof. by destruct t. Qed.

Lemma playerRand_setTeam (t : Team) (s : TeamGridState) (w : World) :
  playerRand (setTeam t s w) = playerRand w.
Proof. by destruct t. Qed.

Lemma opposite_ne (t : Team) : opposite t ≠ t.
Proof. by destruct t. Qed.

Lemma dispatch_fireShot (e : Env) (w : World) (x y : Z) (t : Team) :
  dispatch (fireShot e x y t) w =
  let target := opposite t in
  let s0 := teamGrid target w in
  let s1 := activityUpdater e (x / CELLS_PER_CHUNK) (y / CELLS_PER_CHUNK) s0 in
  match cellAt (grid s0) x y with
  | None => (Thrown, setTeam target s1 w)
  | Some cell =>
      if hit cell then (Returned false, setTeam target s1 w)
      else
        let s2 := hitUpdater x y s1 in
        if occupied cell && bool_decide (is_Some (ship cell))
        then (Returned true,
              setTeam target (fst (shipHitUpdater cell s2 initLocals)) w)
        else (Returned true, setTeam target s2 w)
  end.
Proof.
  unfold dispatch, fireShot, processAction, updateChunkActivity,
    applyCooldownToShipArea, getChunkFromCoords.
  unfold mbind, Handler_bind, mret, Handler_ret, readGrid, readLocals,
    declareLocals, liftOutcome, setTeamGrid, pureUpdater.
  cbn [act_type act_x act_y team default from_option id queue locals app].
  cbv zeta.
  destruct (cellAt (grid (teamGrid (opposite t) w)) x y) as [cell|];
    cbn [queue locals flush upd_team upd_run app].
  - destruct (hit cell); cbn [queue locals flush upd_team upd_run app].
    + reflexivity.
    + destruct (occupied cell && bool_decide (is_Some (ship cell)));
        cbn [queue locals flush upd_team upd_run app initLocals
             shipWasDestroyed destroyedShipCells andb].
      * rewrite !teamGrid_setTeam, !setTeam_setTeam.
        destruct (shipHitUpdater cell _ _) as [s3 l3]. cbn [fst].
        by rewrite setTeam_setTeam.
      * by rewrite !teamGrid_setTeam, !setTeam_setTeam.
  - reflexivity.
Qed.

Lemma dispatch_decayTick (e : Env) (w : World) :
  snd (dispatch (decayTick e) w) =
  {| blueTeamGrid := decayChunks (now e) (blueTeamGrid w);
     redTeamGrid := decayChunks (now e) (redTeamGrid w);
     playerRand := playerRand w |}.
Proof. reflexivity. Qed.

(** ** Ship placement *)

Lemma every_true {A : Type} (p : A → Outcome bool) (l : list A) :
  every p l = Returned true ↔ Forall (λ a, p a = Returned true) l.
Proof.
  induction l as [|a l IH]; cbn [every].
  - split; [constructor|done].
  - rewrite Forall_cons. destruct (p a) as [[|]|]; [|split; [done|]..].
    + rewrite IH. tauto.
    + intros [? _]; done.
    + intros [? _]; done.
Qed.

Lemma every_returns {A : Type} (p : A → Outcome bool) (l : list A) :
  Forall (λ a, p a ≠ Thrown) l → ∃ b, every p l = Returned b.
Proof.
  induction 1 as [|a l Ha _ IH]; cbn [every]; [by eexists|].
  destruct (p a) as [[|]|]; [done|by eexists|done].
Qed.

Lemma inBounds_spec (x y : Z) :
  inBounds x y = true ↔ 0 ≤ x < GRID_SIZE ∧ 0 ≤ y < GRID_SIZE.
Proof. unfold inBounds. rewrite !andb_true_iff. lia. Qed.

Lemma cooldownOver_spec (t : Z) (cell : CellState) :
  0 < t →
  cooldownOver t cell = true
  ↔ cooldownUntil cell = None ∨ ∃ u, cooldownUntil cell = Some u ∧ u < t.
Proof.
  intros Ht. unfold cooldownOver. destruct (cooldownUntil cell) as [u|].
  - rewrite orb_true_iff. split.
    + intros [?|?]; right; exists u; split; [done|lia|done|lia].
    + intros [?|(u' & [= <-] & ?)]; [done|]. right. lia.
  - split; [by left|done].
Qed.

Lemma isValidShipPlacement_true (t : Z) (g : Grid) (cells : list Coord) :
  0 < t →
  isValidShipPlacement t g cells = Returned true ↔ Forall (cellFree t g) cells.
Proof.
  intros Ht. unfold isValidShipPlacement. rewrite every_true.
  apply Forall_proper; [|done]. intros c. unfold cellFree.
  rewrite <- inBounds_spec.
  destruct (inBounds (cx c) (cy c)); [|split; [done|by intros [? _]]].
  destruct (cellAt g (cx c) (cy c)) as [cell|].
  - split.
    + intros [= H]. apply andb_true_iff in H as [Ho Hc].
      split; [done|]. exists cell. split; [done|].
      split; [by destruct (occupied cell)|by apply cooldownOver_spec].
    + intros (_ & cell' & [= <-] & Ho & Hc). f_equal.
      rewrite Ho. by apply cooldownOver_spec.
  - split; [done|]. by intros (_ & cell & ? & _).
Qed.

Lemma isValidShipPlacement_returns (t : Z) (g : Grid) (cells : list Coord) :
  wf_grid g → ∃ b, isValidShipPlacement t g cells = Returned b.
Proof.
  intros Hwf. apply every_returns, Forall_forall. intros c _.
  destruct (inBounds (cx c) (cy c)) eqn:Hb; [|done].
  by destruct (wf_grid_cellAt g _ _ Hwf Hb) as [cell ->].
Qed.



Lemma cellAt_placed (s : Ship) (cells : list Coord) (g : Grid) (i j : Z) :
  cellAt (foldl (λ g c, updateCell (λ _, shipCell s) g (cx c) (cy c)) g cells)
         i j =
  if bool_decide ({| cx := i; cy := j |} ∈ cells)
  then (λ _, shipCell s) <$> cellAt g i j
  else cellAt g i j.
Proof.
  revert g. induction cells as [|c cells IH]; intros g; cbn [foldl].
  - rewrite bool_decide_eq_false_2; [done|]. apply not_elem_of_nil.
  - rewrite IH, cellAt_updateCell.
    destruct c as [x y]. cbn [cx cy].
    destruct (decide (i = x ∧ j = y)) as [[-> ->]|Hne].
    + rewrite (bool_decide_eq_true_2 (x = x ∧ y = y)) by done.
      rewrite (bool_decide_eq_true_2 (_ ∈ _ :: _)) by apply list_elem_of_here.
      case_bool_decide; [|done]. by destruct (cellAt g x y).
    + rewrite (bool_decide_eq_false_2 (i = x ∧ j = y)) by done.
      rewrite (bool_decide_ext (_ ∈ _ :: _) ({| cx := i; cy := j |} ∈ cells));
        [done|].
      rewrite elem_of_cons.
      split; [|tauto]. intros [[= -> ->]|?]; [by destruct Hne|done].
Qed.



Lemma every_ext {A : Type} (p q : A → Outcome bool) (l : list A) :
  (∀ a, p a = q a) → every p l = every q l.
Proof.
  intros Hpq. induction l as [|a l IH]; [done|].
  cbn [every]. by rewrite Hpq, IH.
Qed.

Lemma isValidShipPlacement_hit_blind (t : Z) (g g' : Grid) (cells : list Coord) :
  gridsDifferInHitOnly g g' →
  isValidShipPlacement t g' cells = isValidShipPlacement t g cells.
Proof.
  intros Hgg. apply every_ext. intros c.
  destruct (inBounds (cx c) (cy c)); [|done].
  destruct (Hgg (cx c) (cy c)) as [cell cell' (Ho & _ & Hc)|]; [|done].
  unfold cooldownOver. by rewrite Ho, Hc.
Qed.

(** C10. The validity check of a placement does not look at the [hit]
    flag: two grids that differ only in [hit] flags give the same verdict.
    So a placement whose cells are all free succeeds also over cells that
    were hit, and it overwrites every covered cell with a fresh record
    (occupied, not hit, the new ship's reference, no [cooldownUntil]). *)
Theorem placeShip_overwrites_hit_cells (e : Env) (w : World) (x y size : Z)
  (horizontal : bool) (t : Team) :
  0 < now e →
  let cells := shipCellsFrom x y size horizontal in
  let g := grid (teamGrid t w) in
  let res := dispatch (placeShip e x y size horizontal t) w in
  (∀ g', gridsDifferInHitOnly g g' →
         isValidShipPlacement (now e) g' cells
         = isValidShipPlacement (now e) g cells)
  ∧ (Forall (cellFree (now e) g) cells →
     fst res = Returned true
     ∧ ∀ c, c ∈ cells →
         cellAt (grid (teamGrid t (snd res))) (cx c) (cy c) =
         Some {| occupied := true; hit := false;
                 ship := Some {| ref_id := ship_id (newShipFor e w cells);
                                 ref_owner := currentPlayer w |};
                 cooldownUntil := None |}).
Proof.
  intros Hnow cells g res. subst g. split.
  { intros g'. apply isValidShipPlacement_hit_blind. }
  intros Hfree.
  assert (res = (Returned true,
                 setTeam t (placeUpdater (newShipFor e w cells) cells
                              (teamGrid t w)) w)) as ->.
  { unfold res. rewrite dispatch_placeShip. cbv zeta. fold cells.
    by rewrite (proj2 (isValidShipPlacement_true _ _ _ Hnow) Hfree). }
  split; [done|]. intros c Hc. cbn [snd].
  rewrite teamGrid_setTeam. cbn [placeUpdater grid].
  rewrite cellAt_placed. destruct c as [i j]. cbn [cx cy].
  rewrite bool_decide_eq_true_2 by done.
  rewrite Forall_forall in Hfree.
  destruct (Hfree _ Hc) as (_ & cell & Hcell & _). cbn [cx cy] in Hcell.
  by rewrite Hcell.
Qed.

Lemma placeShip_overwrites_hit_cells_witness :
  (hit <$> cellAt (grid (blueTeamGrid sampleWorldShotAt)) 10 10 = Some true)
  ∧ fst (dispatch (placeShip (sampleEnv 1000) 10 10 2 true blue)
           sampleWorldShotAt) = Returned true
  ∧ hit <$> cellAt (grid (blueTeamGrid
         (snd (dispatch (placeShip (sampleEnv 1000) 10 10 2 true blue)
                 sampleWorldShotAt)))) 10 10 = Some false.
Proof.
  split; [vm_compute; reflexivity|].
  assert (0 < now (sampleEnv 1000)) as Hnow by reflexivity.
  destruct (proj2 (placeShip_overwrites_hit_cells (sampleEnv 1000)
                     sampleWorldShotAt 10 10 2 true blue Hnow))
    as [Hres Hcells].
  { apply (isValidShipPlacement_true _ _ _ Hnow). vm_compute. reflexivity. }
  split; [exact Hres|].
  assert ({| cx := 10; cy := 10 |} ∈ shipCellsFrom 10 10 2 true) as Hin
    by apply list_elem_of_here.
  apply Hcells in Hin. cbn [cx cy teamGrid] in Hin.
  rewrite Hin. reflexivity.
Defined.

(** ** What the updaters touch *)

Lemma withHeatLevel_same (c : Chunk) : withHeatLevel (heatLevel c) c = c.
Proof. by destruct c. Qed.

Lemma updateHeatLevels_map (cs : list Chunk) :
  ∃ h : Chunk → Z, updateHeatLevels cs = (λ c, withHeatLevel (h c) c) <$> cs.
Proof.
  unfold updateHeatLevels.
  destruct (length (List.filter isActive cs) =? 0)%nat.
  - exists heatLevel. induction cs as [|c cs IH]; [done|].
    cbn [fmap list_fmap]. rewrite withHeatLevel_same. by f_equal.
  - by eexists (λ c, heatOf _ _ _ (activityCount c)).
Qed.

Lemma updateHeatLevels_lookup (cs : list Chunk) (j : nat) (c' : Chunk) :
  updateHeatLevels cs !! j = Some c' →
  ∃ c, cs !! j = Some c ∧ c' = withHeatLevel (heatLevel c') c.
Proof.
  destruct (updateHeatLevels_map cs) as [h ->].
  rewrite list_lookup_fmap. destruct (cs !! j) as [c|]; [|done].
  intros [= <-]. by exists c.
Qed.

Lemma updateHeatLevels_lookup_Some (cs : list Chunk) (j : nat) (c : Chunk) :
  cs !! j = Some c →
  ∃ h, updateHeatLevels cs !! j = Some (withHeatLevel h c).
Proof.
  destruct (updateHeatLevels_map cs) as [h ->]. intros Hc.
  rewrite list_lookup_fmap, Hc. by eexists.
Qed.

Lemma length_updateHeatLevels (cs : list Chunk) :
  length (updateHeatLevels cs) = length cs.
Proof.
  destruct (updateHeatLevels_map cs) as [h ->]. by rewrite length_fmap.
Qed.

Lemma chunkCoords_updateHeatLevels (cs : list Chunk) :
  chunkCoords (updateHeatLevels cs) = chunkCoords cs.
Proof.
  destruct (updateHeatLevels_map cs) as [h ->]. unfold chunkCoords.
  rewrite <- list_fmap_compose. by apply list_fmap_ext.
Qed.

Lemma lookup_chunkCoords_initial (j : nat) :
  (j < 100)%nat →
  chunkCoords initialChunks !! j
  = Some (Z.of_nat j `mod` CHUNK_SIZE, Z.of_nat j / CHUNK_SIZE).
Proof.
  intros Hj. unfold chunkCoords, initialChunks.
  rewrite !list_lookup_fmap, lookup_seqZ_lt by (unfold TOTAL_CHUNKS, CHUNK_SIZE; lia).
  done.
Qed.

Lemma wf_chunks_lookup (cs : list Chunk) (j : nat) (c : Chunk) :
  wf_chunks cs → cs !! j = Some c →
  (j < 100)%nat
  ∧ chunk_x c = Z.of_nat j `mod` CHUNK_SIZE
  ∧ chunk_y c = Z.of_nat j / CHUNK_SIZE.
Proof.
  intros Hwf Hc.
  assert (chunkCoords cs !! j = Some (chunk_x c, chunk_y c)) as Hcc.
  { unfold chunkCoords. by rewrite list_lookup_fmap, Hc. }
  rewrite Hwf in Hcc.
  assert (j < 100)%nat as Hj.
  { apply lookup_lt_Some in Hcc. unfold chunkCoords, initialChunks in Hcc.
    rewrite !length_fmap, length_seqZ in Hcc. exact Hcc. }
  rewrite lookup_chunkCoords_initial in Hcc by done.
  by injection Hcc as -> ->.
Qed.

Lemma wf_chunks_length (cs : list Chunk) : wf_chunks cs → length cs = 100%nat.
Proof.
  intros Hwf. apply (f_equal length) in Hwf. unfold chunkCoords in Hwf.
  rewrite !length_fmap in Hwf. rewrite Hwf. unfold initialChunks.
  by rewrite length_fmap, length_seqZ.
Qed.

Lemma wf_chunksb_spec (cs : list Chunk) : wf_chunksb cs = true ↔ wf_chunks cs.
Proof. unfold wf_chunksb, wf_chunks. apply bool_decide_eq_true. Qed.

Lemma findChunkIndex_wf (cs : list Chunk) (x y : Z) :
  wf_chunks cs → inBounds x y = true →
  findChunkIndex (x / CELLS_PER_CHUNK) (y / CELLS_PER_CHUNK) cs
  = Some (chunkIndexOf x y)
  ∧ ∃ c, cs !! chunkIndexOf x y = Some c
         ∧ chunk_x c = x / CELLS_PER_CHUNK ∧ chunk_y c = y / CELLS_PER_CHUNK.
Proof.
  intros Hwf Hb. apply inBounds_spec in Hb. unfold GRID_SIZE in Hb.
  set (X := x / CELLS_PER_CHUNK). set (Y := y / CELLS_PER_CHUNK).
  assert (0 ≤ X < 10 ∧ 0 ≤ Y < 10) as HXY.
  { unfold X, Y, CELLS_PER_CHUNK. split; split;
      try (apply Z.div_pos; lia); apply Z.div_lt_upper_bound; lia. }
  unfold chunkIndexOf. fold X Y. unfold CHUNK_SIZE.
  set (i := Z.to_nat (Y * 10 + X)).
  destruct (lookup_lt_is_Some_2 cs i) as [c Hc].
  { rewrite (wf_chunks_length cs Hwf). unfold i. lia. }
  destruct (wf_chunks_lookup cs i c Hwf Hc) as (_ & Hx & Hy).
  unfold CHUNK_SIZE in Hx, Hy.
  assert (Z.of_nat i = Y * 10 + X) as Hi by (unfold i; lia).
  assert (chunk_x c = X ∧ chunk_y c = Y) as [HcX HcY].
  { rewrite Hx, Hy, Hi. split.
    - rewrite Z.add_comm, Z.mod_add by lia. apply Z.mod_small. lia.
    - rewrite Z.add_comm, Z.div_add by lia. rewrite Z.div_small by lia. lia. }
  split; [|by exists c].
  unfold findChunkIndex.
  assert (list_find (λ c, chunk_x c = X ∧ chunk_y c = Y) cs = Some (i, c)) as ->;
    [|done].
  apply list_find_Some. split; [done|]. split; [done|].
  intros j d Hd Hji [HdX HdY].
  destruct (wf_chunks_lookup cs j d Hwf Hd) as (_ & Hx' & Hy').
  unfold CHUNK_SIZE in Hx', Hy'.
  pose proof (Z.div_mod (Z.of_nat j) 10). lia.
Qed.

Lemma shipHitUpdater_frame (cell : CellState) (s : TeamGridState) (l : Locals) :
  grid (shipHitUpdater cell s l).1 = grid s
  ∧ chunks (shipHitUpdater cell s l).1 = chunks s
  ∧ stats (shipHitUpdater cell s l).1 = stats s.
Proof.
  unfold shipHitUpdater. by destruct (mapWithLocals _ _ _).
Qed.

Lemma fireShot_frame (e : Env) (w : World) (x y : Z) (t : Team) :
  let res := dispatch (fireShot e x y t) w in
  teamGrid t res.2 = teamGrid t w
  ∧ playerRand res.2 = playerRand w
  ∧ chunks (teamGrid (opposite t) res.2)
    = chunks (activityUpdater e (x / CELLS_PER_CHUNK) (y / CELLS_PER_CHUNK)
                (teamGrid (opposite t) w)).
Proof.
  cbv zeta. rewrite dispatch_fireShot. cbv zeta.
  assert (∀ s, teamGrid t (setTeam (opposite t) s w) = teamGrid t w) as Hacting.
  { intros s. apply teamGrid_setTeam_ne, opposite_ne. }
  destruct (cellAt _ x y) as [cell|]; [destruct (hit cell);
    [|destruct (occupied cell && bool_decide (is_Some (ship cell)))]|];
    cbn [snd]; rewrite Hacting, playerRand_setTeam, teamGrid_setTeam;
    repeat split; try done.
  by rewrite (proj1 (proj2 (shipHitUpdater_frame _ _ _))).
Qed.

Lemma bumpActivity_spec (a : Q) : (bumpActivity a == a + 1)%Q.
Proof.
  unfold bumpActivity. destruct (Qeq_bool a 0) eqn:H; [|reflexivity].
  apply Qeq_bool_eq in H. by rewrite H.
Qed.

(** C3. A FIRE at in-bounds [(x, y)] adds exactly one to the
    [activityCount] of the chunk of the opposing team that contains
    [(x, y)] and sets its [lastActivity] to the clock reading; the other
    chunks of that team keep theirs, and the acting team's state is not
    touched.  Nothing is assumed of the target cell: the shot at a cell
    already hit, which returns [false], records its activity too. *)
Theorem fireShot_records_target_activity (e : Env) (w : World) (x y : Z)
  (t : Team) :
  inBounds x y = true → wf_chunks (chunks (teamGrid (opposite t) w)) →
  let target := opposite t in
  let res := dispatch (fireShot e x y t) w in
  let i := chunkIndexOf x y in
  (∃ c c', chunks (teamGrid target w) !! i = Some c
           ∧ chunk_x c = x / CELLS_PER_CHUNK ∧ chunk_y c = y / CELLS_PER_CHUNK
           ∧ chunks (teamGrid target res.2) !! i = Some c'
           ∧ chunk_x c' = chunk_x c ∧ chunk_y c' = chunk_y c
           ∧ (activityCount c' == activityCount c + 1)%Q
           ∧ lastActivity c' = now e)
  ∧ (∀ j d, j ≠ i → chunks (teamGrid target w) !! j = Some d →
       ∃ d', chunks (teamGrid target res.2) !! j = Some d'
             ∧ chunk_x d' = chunk_x d ∧ chunk_y d' = chunk_y d
             ∧ activityCount d' = activityCount d
             ∧ lastActivity d' = lastActivity d)
  ∧ teamGrid t res.2 = teamGrid t w
  ∧ (∀ cell, cellAt (grid (teamGrid target w)) x y = Some cell →
             hit cell = true → res.1 = Returned false).
Proof.
  intros Hb Hwf target res i.
  destruct (fireShot_frame e w x y t) as (Hacting & _ & Hchunks).
  fold res target in Hacting, Hchunks.
  destruct (findChunkIndex_wf _ x y Hwf Hb) as (Hfind & c & Hc & HcX & HcY).
  fold target i in Hfind, Hc.
  rewrite Hchunks. unfold activityUpdater. rewrite Hfind.
  cbn [withChunks chunks].
  repeat split.
  - exists c.
    destruct (updateHeatLevels_lookup_Some
      (alter (λ c, withLastActivity (now e)
                     (withActivityCount (bumpActivity (activityCount c)) c))
             i (chunks (teamGrid target w))) i
      (withLastActivity (now e)
         (withActivityCount (bumpActivity (activityCount c)) c)))
      as [h Hh].
    { by rewrite list_lookup_alter_eq, Hc. }
    eexists. split; [done|]. split; [done|]. split; [done|].
    split; [exact Hh|]. cbn. repeat split; try done.
    apply bumpActivity_spec.
  - intros j d Hji Hd.
    destruct (updateHeatLevels_lookup_Some
      (alter (λ c, withLastActivity (now e)
                     (withActivityCount (bumpActivity (activityCount c)) c))
             i (chunks (teamGrid target w))) j d) as [h Hh].
    { by rewrite list_lookup_alter_ne. }
    eexists. split; [exact Hh|]. done.
  - exact Hacting.
  - intros cell Hcell Hhit. unfold res. rewrite dispatch_fireShot. cbv zeta.
    fold target. by rewrite Hcell, Hhit.
Qed.

Lemma fireShot_records_target_activity_witness :
  ∃ c', chunks (blueTeamGrid
                  (dispatch (fireShot (sampleEnv 600) 10 10 red)
                     sampleWorldShotAt).2) !! 0%nat = Some c'
        ∧ (activityCount c' == 2)%Q ∧ lastActivity c' = 600.
Proof.
  destruct (fireShot_records_target_activity (sampleEnv 600) sampleWorldShotAt
              10 10 red) as [(c & c' & Hc & _ & _ & Hc' & _ & _ & Hact & Hlast) _].
  - reflexivity.
  - apply wf_chunksb_spec. vm_compute. reflexivity.
  - exists c'. split; [exact Hc'|]. split; [|exact Hlast].
    rewrite Hact. vm_compute in Hc. injection Hc as <-. reflexivity.
Defined.

(** ** Firing at a cell already hit *)

(** C2, as stated, fails: the shot at an already-hit cell returns [false]
    but the state is not the one before.  Blue's cell (10, 10) has been hit;
    Red fires at it again and Blue's chunk (0, 0) counts a second action. *)
Lemma fireShot_hit_cell_not_noop :
  ¬ (∀ (e : Env) (w : World) (x y : Z) (t : Team) (cell : CellState),
       inBounds x y = true →
       cellAt (grid (teamGrid (opposite t) w)) x y = Some cell →
       hit cell = true →
       dispatch (fireShot e x y t) w = (Returned false, w)).
Proof.
  intros H.
  specialize (H (sampleEnv 600) sampleWorldShotAt 10 10 red
                (withHit emptyCell) eq_refl).
  assert (cellAt (grid (teamGrid (opposite red) sampleWorldShotAt)) 10 10
          = Some (withHit emptyCell)) as Hcell by (vm_compute; reflexivity).
  specialize (H Hcell eq_refl).
  apply (f_equal (λ r, lastActivity <$> chunks (blueTeamGrid r.2) !! 0%nat)) in H.
  vm_compute in H. discriminate H.
Qed.

(** C2, amended.  Firing at a cell that is already hit returns [false] and
    leaves the grid, the ships and the stats of the target team, and the
    whole state of the acting team, as they were; the target team's chunks
    are those after the activity of the shot has been recorded. *)
Theorem fireShot_hit_cell_keeps_cells (e : Env) (w : World) (x y : Z)
  (t : Team) (cell : CellState) :
  cellAt (grid (teamGrid (opposite t) w)) x y = Some cell →
  hit cell = true →
  let target := opposite t in
  let res := dispatch (fireShot e x y t) w in
  res.1 = Returned false
  ∧ grid (teamGrid target res.2) = grid (teamGrid target w)
  ∧ ships (teamGrid target res.2) = ships (teamGrid target w)
  ∧ stats (teamGrid target res.2) = stats (teamGrid target w)
  ∧ chunks (teamGrid target res.2)
    = chunks (activityUpdater e (x / CELLS_PER_CHUNK) (y / CELLS_PER_CHUNK)
                (teamGrid target w))
  ∧ teamGrid t res.2 = teamGrid t w
  ∧ playerRand res.2 = playerRand w.
Proof.
  intros Hcell Hhit target res. subst target res.
  rewrite dispatch_fireShot. cbv zeta.
  rewrite Hcell, Hhit. cbn [fst snd].
  rewrite teamGrid_setTeam, playerRand_setTeam.
  rewrite (teamGrid_setTeam_ne (opposite t) t) by apply opposite_ne.
  done.
Qed.

Lemma fireShot_hit_cell_keeps_cells_witness :
  (dispatch (fireShot (sampleEnv 600) 10 10 red) sampleWorldShotAt).1
  = Returned false.
Proof.
  refine (proj1 (fireShot_hit_cell_keeps_cells (sampleEnv 600)
                   sampleWorldShotAt 10 10 red (withHit emptyCell) _ _)).
  - vm_compute. reflexivity.
  - reflexivity.
Defined.

(** ** Totality *)

(** C8, as stated, fails: [placeShip] and [fireShot] do not both return a
    boolean on every input.  [fireShot] at a column outside the grid reads
    [hit] from [undefined] and raises. *)
Lemma fireShot_out_of_range_throws :
  ¬ (∀ (e : Env) (w : World) (t : Team),
       wf_grid (grid (blueTeamGrid w)) → wf_grid (grid (redTeamGrid w)) →
       (∀ x y size horizontal,
          ∃ b, (dispatch (placeShip e x y size horizontal t) w).1 = Returned b)
       ∧ (∀ x y, ∃ b, (dispatch (fireShot e x y t) w).1 = Returned b)).
Proof.
  intros H.
  destruct (H (sampleEnv 600) sampleWorld red) as [_ Hfire].
  - apply wf_grid_empty.
  - apply wf_grid_empty.
  - destruct (Hfire 1000 0) as [b Hb].
    vm_compute in Hb. discriminate Hb.
Qed.

(** C8, amended.  On full grids [placeShip] returns a boolean for every
    input, coordinates outside the grid included, and [fireShot] returns a
    boolean for every coordinates within the grid. *)
Theorem commands_return_boolean (e : Env) (w : World) (t : Team) :
  wf_grid (grid (blueTeamGrid w)) → wf_grid (grid (redTeamGrid w)) →
  (∀ x y size horizontal,
     ∃ b, (dispatch (placeShip e x y size horizontal t) w).1 = Returned b)
  ∧ (∀ x y, inBounds x y = true →
       ∃ b, (dispatch (fireShot e x y t) w).1 = Returned b).
Proof.
  intros Hblue Hred.
  assert (∀ u, wf_grid (grid (teamGrid u w))) as Hwf by (by intros []).
  split.
  - intros x y size horizontal. rewrite dispatch_placeShip. cbv zeta.
    destruct (isValidShipPlacement_returns (now e) (grid (teamGrid t w))
                (shipCellsFrom x y size horizontal) (Hwf t)) as [b ->].
    exists b. by destruct b.
  - intros x y Hb. rewrite dispatch_fireShot. cbv zeta.
    destruct (wf_grid_cellAt _ x y (Hwf (opposite t)) Hb) as [cell ->].
    destruct (hit cell); [by eexists|].
    destruct (occupied cell && bool_decide (is_Some (ship cell))); by eexists.
Qed.

Lemma commands_return_boolean_witness :
  (∃ b, (dispatch (placeShip (sampleEnv 600) (-5) 2000 3 false blue)
           sampleWorld).1 = Returned b)
  ∧ (∃ b, (dispatch (fireShot (sampleEnv 600) 999 0 blue) sampleWorld).1
          = Returned b).
Proof.
  destruct (commands_return_boolean (sampleEnv 600) sampleWorld blue)
    as [Hplace Hfire].
  - apply wf_gridb_spec. vm_compute. reflexivity.
  - apply wf_gridb_spec. vm_compute. reflexivity.
  - split; [apply Hplace|apply Hfire; reflexivity].
Defined.

(** ** Cooldown *)

Lemma fireShot_grid (e : Env) (w : World) (x y : Z) (t : Team) :
  let g := grid (teamGrid (opposite t) w) in
  let g' := grid (teamGrid (opposite t) (dispatch (fireShot e x y t) w).2) in
  g' = g ∨ g' = updateCell withHit g x y.
Proof.
  cbv zeta. rewrite dispatch_fireShot. cbv zeta.
  destruct (cellAt _ x y) as [cell|]; [destruct (hit cell);
    [|destruct (occupied cell && bool_decide (is_Some (ship cell)))]|];
    cbn [snd]; rewrite teamGrid_setTeam.
  - by left.
  - right. by rewrite (proj1 (shipHitUpdater_frame _ _ _)).
  - by right.
  - by left.
Qed.


Lemma elem_of_foldl_setAdd (l s : list Coord) (c : Coord) :
  c ∈ foldl setAdd s l ↔ c ∈ s ∨ c ∈ l.
Proof.
  revert s. induction l as [|d l IH]; intros s; cbn [foldl].
  - rewrite elem_of_nil. tauto.
  - rewrite IH, elem_of_cons. unfold setAdd.
    case_decide as Hd.
    + split; [tauto|]. intros [?| [->|?]]; tauto.
    + rewrite elem_of_app, list_elem_of_singleton. tauto.
Qed.

Lemma elem_of_around (c d : Coord) : d ∈ around c ↔ near c d.
Proof.
  unfold around, near. destruct c as [x y], d as [i j]. cbn [cx cy].
  cbn. rewrite !elem_of_cons, elem_of_nil.
  split.
  - intros H. repeat (destruct H as [[= -> ->]|H]; [lia|]). done.
  - intros [Hi Hj].
    assert (i = x + -1 ∨ i = x + 0 ∨ i = x + 1) as Hi' by lia.
    assert (j = y + -1 ∨ j = y + 0 ∨ j = y + 1) as Hj' by lia.
    destruct Hi' as [-> | [-> | ->] ], Hj' as [-> | [-> | ->] ]; tauto.
Qed.

Lemma elem_of_foldl_around (l s : list Coord) (c : Coord) :
  c ∈ foldl (λ s' n, if inBounds (cx n) (cy n) then setAdd s' n else s') s l
  ↔ c ∈ s ∨ (c ∈ l ∧ inBounds (cx c) (cy c) = true).
Proof.
  revert s. induction l as [|d l IH]; intros s; cbn [foldl].
  - rewrite elem_of_nil. tauto.
  - rewrite IH, elem_of_cons.
    destruct (inBounds (cx d) (cy d)) eqn:Hd.
    + unfold setAdd. case_decide as Hin.
      * split; [tauto|]. intros [?| [[->|?] ?]]; tauto.
      * rewrite elem_of_app, list_elem_of_singleton.
        split; [|tauto]. intros [[?| ->]|?]; tauto.
    + split; [tauto|]. intros [?| [[->|?] ?]]; [tauto|congruence|tauto].
Qed.

(** The set [applyCooldownToShipArea] collects: the ship's cells, and the
    cells of the grid within one step of one of them. *)
Lemma elem_of_cooldownCells (shipCells : list Coord) (c : Coord) :
  c ∈ cooldownCells shipCells
  ↔ c ∈ shipCells
    ∨ (inBounds (cx c) (cy c) = true ∧ ∃ d, d ∈ shipCells ∧ near d c).
Proof.
  unfold cooldownCells.
  assert (∀ l s,
    c ∈ foldl (λ s cell,
                 foldl (λ s' n, if inBounds (cx n) (cy n)
                                then setAdd s' n else s') s (around cell)) s l
    ↔ c ∈ s ∨ (inBounds (cx c) (cy c) = true ∧ ∃ d, d ∈ l ∧ near d c)) as H.
  { induction l as [|d l IH]; intros s; cbn [foldl].
    - split; [tauto|]. intros [?| [_ (d & Hd & _)]]; [done|].
      by apply elem_of_nil in Hd.
    - rewrite IH, elem_of_foldl_around, elem_of_around.
      split.
      + intros [[?| [? ?]]| [? (d' & ? & ?)]]; [tauto|right..].
        * split; [done|]. exists d. split; [apply list_elem_of_here|done].
        * split; [done|]. exists d'. split; [by apply list_elem_of_further|done].
      + intros [?| [? (d' & Hd' & ?)]]; [tauto|].
        apply elem_of_cons in Hd' as [->|?]; [tauto|].
        right. split; [done|]. by exists d'. }
  rewrite H, elem_of_foldl_setAdd, elem_of_nil. tauto.
Qed.

(** The updater [applyCooldownToShipArea] queues: the cells of the set that
    lie in the grid get the timestamp, every other cell is as before. *)
Lemma cellAt_cooldownUpdater (T : Z) (cells : list Coord) (s : TeamGridState)
  (i j : Z) :
  cellAt (grid (cooldownUpdater T cells s)) i j =
  if bool_decide ({| cx := i; cy := j |} ∈ cells ∧ inBounds i j = true)
  then withCooldown T <$> cellAt (grid s) i j
  else cellAt (grid s) i j.
Proof.
  unfold cooldownUpdater. cbn [withGrid grid]. generalize (grid s) as g.
  induction cells as [|c cells IH]; intros g; cbn [foldl].
  - rewrite bool_decide_eq_false_2; [done|]. intros [H _].
    by apply elem_of_nil in H.
  - rewrite IH. destruct c as [x y]. cbn [cx cy].
    assert (cellAt (if inBounds x y then updateCell (withCooldown T) g x y else g) i j
            = if bool_decide ((i = x ∧ j = y) ∧ inBounds i j = true)
              then withCooldown T <$> cellAt g i j else cellAt g i j) as ->.
    { destruct (inBounds x y) eqn:Hb.
      - rewrite cellAt_updateCell. apply (f_equal (λ b : bool, if b then _ else _)).
        apply bool_decide_ext. split; [|tauto]. intros [-> ->]. tauto.
      - rewrite bool_decide_eq_false_2; [done|]. intros [[-> ->] ?]. congruence. }
    destruct (decide ((i = x ∧ j = y) ∧ inBounds i j = true)) as [[[-> ->] Hb]|Hne].
    + rewrite (bool_decide_eq_true_2 ((x = x ∧ y = y) ∧ _)) by done.
      rewrite (bool_decide_eq_true_2 (_ ∈ _ :: _ ∧ _))
        by (split; [apply list_elem_of_here|done]).
      case_bool_decide; [|done]. by destruct (cellAt g x y).
    + rewrite (bool_decide_eq_false_2 ((i = x ∧ j = y) ∧ _)) by done.
      apply (f_equal (λ b : bool, if b then _ else _)).
      apply bool_decide_ext. rewrite elem_of_cons.
      split; [tauto|]. intros [[[= -> ->]|?] ?]; tauto.
Qed.

(** What a call of [applyCooldownToShipArea] does once React has run its
    updater: the cells of the collected set that lie in the grid carry
    [now + DESTROYED_TERRITORY_COOLDOWN], all other cells are untouched. *)
Lemma applyCooldownToShipArea_sets_area (e : Env) (shipCells : list Coord)
  (target : Team) (w : World) (i j : Z) :
  cellAt (grid (teamGrid target
                  (dispatch (applyCooldownToShipArea e shipCells target) w).2))
         i j =
  if bool_decide ({| cx := i; cy := j |} ∈ cooldownCells shipCells
                  ∧ inBounds i j = true)
  then withCooldown (now e + DESTROYED_TERRITORY_COOLDOWN)
         <$> cellAt (grid (teamGrid target w)) i j
  else cellAt (grid (teamGrid target w)) i j.
Proof.
  unfold dispatch, applyCooldownToShipArea, setTeamGrid, pureUpdater.
  cbn [queue locals app flush upd_team upd_run snd].
  rewrite teamGrid_setTeam. apply cellAt_cooldownUpdater.
Qed.

(** In the scenario below the ship updater of the second shot does assign
    the two variables when React runs it, with the ship's cells; the handler
    has tested them by then. *)
Lemma ship_updater_assigns_after_the_test :
  ∃ cell, cellAt (grid (blueTeamGrid scenarioFirstHit)) 11 10 = Some cell
          ∧ (shipHitUpdater cell (blueTeamGrid scenarioFirstHit) initLocals).2
            = {| shipWasDestroyed := true;
                 destroyedShipCells := [ {| cx := 10; cy := 10 |};
                                         {| cx := 11; cy := 10 |} ] |}.
Proof.
  eexists. split; vm_compute; reflexivity.
Qed.

(** C4.  The specification's scenario, run on the code: Red's second shot
    brings the hit count of Blue's two-cell ship to its cell count, the ship
    is flagged destroyed, and yet no cell of the ship nor of its
    neighbourhood carries a [cooldownUntil] afterwards.  The ship updater is
    only queued when [shipWasDestroyed] is tested, so the test reads the
    initial [false] and [applyCooldownToShipArea] is not called. *)
Theorem destroying_shot_sets_no_cooldown :
  scenarioSecondHit.1 = Returned true
  ∧ ships (blueTeamGrid scenarioSecondHit.2)
    = [ {| ship_id := "s1"; ship_owner := "anon-p";
           ship_cells := [ {| cx := 10; cy := 10 |}; {| cx := 11; cy := 10 |} ];
           ship_hits := 2; ship_destroyed := true |} ]
  ∧ Forall (λ c, cooldownAt blue scenarioSecondHit.2 (cx c) (cy c) = Some None)
           (cooldownCells [ {| cx := 10; cy := 10 |}; {| cx := 11; cy := 10 |} ]).
Proof.
  split; [vm_compute; reflexivity|]. split; [vm_compute; reflexivity|].
  apply (bool_decide_unpack _). vm_compute. exact I.
Qed.

Lemma decayChunks_grid (t : Z) (s : TeamGridState) :
  grid (decayChunks t s) = grid s.
Proof. unfold decayChunks. by destruct (existsb _ _). Qed.

Lemma runOp_decay (e : Env) (w : World) :
  (runOp e OpDecay w).2 =
  {| blueTeamGrid := decayChunks (now e) (blueTeamGrid w);
     redTeamGrid := decayChunks (now e) (redTeamGrid w);
     playerRand := playerRand w |}.
Proof. reflexivity. Qed.



(** ** Derived statistics *)




(** ** Heat levels *)

Lemma Qlt_bool_iff (a b : Q) : Qlt_bool a b = true ↔ (a < b)%Q.
Proof.
  unfold Qlt_bool. rewrite negb_true_iff.
  destruct (Qle_bool b a) eqn:H.
  - apply Qle_bool_iff in H. split; [done|]. intros H'.
    by apply Qlt_not_le in H'.
  - split; [|done]. intros _. apply Qnot_le_lt. intros H'.
    apply Qle_bool_iff in H'. congruence.
Qed.

Lemma Qlt_bool_false_iff (a b : Q) : Qlt_bool a b = false ↔ (b <= a)%Q.
Proof.
  unfold Qlt_bool. rewrite negb_false_iff. apply Qle_bool_iff.
Qed.

Lemma isActive_spec (c : Chunk) : isActive c = true ↔ (0 < activityCount c)%Q.
Proof. apply Qlt_bool_iff. Qed.

Lemma insertByActivity_perm (c : Chunk) (l : list Chunk) :
  insertByActivity c l ≡ₚ c :: l.
Proof.
  induction l as [|d l IH]; cbn [insertByActivity]; [done|].
  destruct (Qle_bool _ _); [done|]. rewrite IH. apply Permutation_swap.
Qed.

Lemma sortByActivityDesc_perm (l : list Chunk) : sortByActivityDesc l ≡ₚ l.
Proof.
  induction l as [|c l IH]; [done|].
  cbn [sortByActivityDesc foldr]. rewrite insertByActivity_perm.
  by constructor.
Qed.

Lemma length_sortByActivityDesc (l : list Chunk) :
  length (sortByActivityDesc l) = length l.
Proof. by rewrite sortByActivityDesc_perm. Qed.



Lemma updateHeatLevels_unfold (cs : list Chunk) :
  updateHeatLevels cs =
  if (length (List.filter isActive cs) =? 0)%nat then cs
  else
    let '(hot, warm, minimum) := heatThresholds cs in
    (λ c, withHeatLevel (heatOf hot warm minimum (activityCount c)) c) <$> cs.
Proof. reflexivity. Qed.

(** Both indexed reads of [sortedChunks] hit an element of the array: the
    index is clamped to the last one. *)
Lemma activityAt_clamped (l : list Chunk) (i : Z) :
  l ≠ [] → 0 ≤ i →
  ∃ c, c ∈ l
       ∧ activityAt l (Z.min i (Z.of_nat (length l) - 1)) = activityCount c.
Proof.
  intros Hl Hi.
  destruct (lookup_lt_is_Some_2 l (Z.to_nat (Z.min i (Z.of_nat (length l) - 1))))
    as [c Hc].
  { destruct l; [done|]. cbn [length]. lia. }
  exists c. split; [by eapply list_elem_of_lookup_2|].
  unfold activityAt. by rewrite Hc.
Qed.

Lemma sorted_active_elem (cs : list Chunk) (c : Chunk) :
  c ∈ sortByActivityDesc (List.filter isActive cs) →
  c ∈ cs ∧ (0 < activityCount c)%Q.
Proof.
  rewrite sortByActivityDesc_perm. rewrite list_elem_of_In, filter_In.
  rewrite <- list_elem_of_In, isActive_spec. tauto.
Qed.

Lemma sorted_active_nonempty (cs : list Chunk) :
  (length (List.filter isActive cs) =? 0)%nat = false →
  sortByActivityDesc (List.filter isActive cs) ≠ [].
Proof.
  intros H Hnil. apply (f_equal length) in Hnil.
  rewrite length_sortByActivityDesc in Hnil. cbn in Hnil.
  apply Nat.eqb_neq in H. done.
Qed.

(** With an active chunk, the three thresholds are positive. *)
Lemma heatThresholds_pos (cs : list Chunk) :
  (length (List.filter isActive cs) =? 0)%nat = false →
  let '(hot, warm, minimum) := heatThresholds cs in
  (0 < hot ∧ 0 < warm ∧ 0 < minimum)%Q.
Proof.
  intros Hact. pose proof (sorted_active_nonempty cs Hact) as Hne.
  unfold heatThresholds.
  set (sorted := sortByActivityDesc (List.filter isActive cs)) in *.
  set (n := Z.of_nat (length (List.filter isActive cs))).
  destruct (activityAt_clamped sorted (Z.max 1 (Qfloor (inject_Z n * 0.2)) - 1)
              Hne) as (c1 & Hc1 & ->); [lia|].
  destruct (activityAt_clamped sorted
              (Z.max 1 (Qfloor (inject_Z n * 0.2))
               + Z.max 2 (Qfloor (inject_Z n * 0.3)) - 1) Hne)
    as (c2 & Hc2 & ->); [lia|].
  destruct (activityAt_clamped sorted 0 Hne) as (c3 & Hc3 & Hmax); [lia|].
  replace (Z.min 0 (Z.of_nat (length sorted) - 1)) with 0 in Hmax
    by (destruct sorted; [done|cbn [length]; lia]).
  rewrite Hmax.
  apply sorted_active_elem in Hc1 as [_ H1], Hc2 as [_ H2], Hc3 as [_ H3].
  split; [done|]. split; [done|].
  apply Qmult_lt_0_compat; [done|reflexivity].
Qed.

(** A chunk that is not active gets heat level 0 from a recomputation, or
    keeps the one it has when no chunk is active. *)
Lemma updateHeatLevels_inactive (cs : list Chunk) (i : nat) (c : Chunk) :
  cs !! i = Some c → (activityCount c <= 0)%Q →
  updateHeatLevels cs !! i = Some c
  ∨ updateHeatLevels cs !! i = Some (withHeatLevel 0 c).
Proof.
  intros Hc Hle. rewrite updateHeatLevels_unfold.
  destruct (length (List.filter isActive cs) =? 0)%nat eqn:Hact; [by left|].
  right. pose proof (heatThresholds_pos cs Hact) as Hpos.
  destruct (heatThresholds cs) as [[hot warm] minimum].
  destruct Hpos as (_ & _ & Hmin).
  rewrite list_lookup_fmap, Hc. cbn [fmap option_fmap option_map].
  do 2 f_equal. unfold heatOf.
  assert (Qlt_bool 0 (activityCount c) = false) as ->
    by (by apply Qlt_bool_false_iff).
  rewrite !andb_false_r.
  destruct (Qle_bool minimum (activityCount c)) eqn:H; [|done].
  apply Qle_bool_iff in H.
  exfalso. apply (Qlt_irrefl 0).
  eapply Qlt_le_trans; [exact Hmin|].
  by apply Qle_trans with (activityCount c).
Qed.

(** ** Decay *)

Lemma decayChunk_spec (t : Z) (c : Chunk) :
  let c1 := (decayChunk t c).1 in
  let age := t - lastActivity c in
  let new := (activityCount c * decayRateFor age)%Q in
  (chunk_x c1 = chunk_x c ∧ chunk_y c1 = chunk_y c
   ∧ lastActivity c1 = lastActivity c)
  ∧ (activityCount c1 <= activityCount c)%Q
  ∧ ((0 <= activityCount c)%Q → (0 <= activityCount c1)%Q)
  ∧ ((decayChunk t c).2 = false → c1 = c)
  ∧ (age ≤ NO_DECAY_PERIOD → c1 = c)
  ∧ (¬ (0 < activityCount c)%Q → c1 = c)
  ∧ (NO_DECAY_PERIOD < age → (0 < activityCount c)%Q →
       ((new < 0.1)%Q → activityCount c1 = 0%Q ∧ heatLevel c1 = 0)
       ∧ (¬ (new < 0.1)%Q → (0.01 < Qabs (new - activityCount c))%Q →
            heatLevel c1 = heatLevel c ∧ activityCount c1 = new)
       ∧ (¬ (new < 0.1)%Q → (Qabs (new - activityCount c) <= 0.01)%Q →
            c1 = c)).
Proof.
  cbv zeta. unfold decayChunk.
  destruct (Qlt_bool 0 (activityCount c)) eqn:Hact.
  2:{ apply Qlt_bool_false_iff in Hact. cbn [fst snd].
      split_and!; try done; try apply Qle_refl.
      intros _ H. exfalso. by apply (Qlt_not_le _ _ H). }
  apply Qlt_bool_iff in Hact.
  destruct (t - lastActivity c <=? NO_DECAY_PERIOD) eqn:Hgrace.
  { apply Z.leb_le in Hgrace. cbn [fst snd].
    split_and!; try done; try apply Qle_refl. lia. }
  apply Z.leb_gt in Hgrace.
  set (rate := if t - lastActivity c <? ACTIVITY_LIFETIME
               then SUPER_SLOW_DECAY_RATE
               else if t - lastActivity c <? ACTIVITY_EXTENDED_LIFETIME
                    then SLOW_DECAY_RATE else FINAL_DECAY_RATE).
  assert (rate = decayRateFor (t - lastActivity c)) as Hrate by reflexivity.
  assert (0 < rate ∧ rate <= 1)%Q as [Hr0 Hr1].
  { unfold rate. destruct (_ <? ACTIVITY_LIFETIME);
      [|destruct (_ <? ACTIVITY_EXTENDED_LIFETIME)]; split; done. }
  rewrite <- Hrate. clearbody rate.
  assert (activityCount c * rate <= activityCount c)%Q as Hle.
  { rewrite <- (Qmult_1_r (activityCount c)) at 2.
    apply Qmult_le_l; done. }
  assert (0 < activityCount c * rate)%Q as Hpos
    by (by apply Qmult_lt_0_compat).
  assert (0 <= activityCount c)%Q as Hact' by (by apply Qlt_le_weak).
  assert (0 <= activityCount c * rate)%Q as Hpos' by (by apply Qlt_le_weak).
  destruct (Qlt_bool (activityCount c * rate) 0.1) eqn:Hsnap.
  - apply Qlt_bool_iff in Hsnap.
    cbn [fst snd withHeatLevel withActivityCount chunk_x chunk_y lastActivity
         activityCount heatLevel].
    split_and!; decay_side.
  - apply Qlt_bool_false_iff in Hsnap.
    assert (¬ (activityCount c * rate < 0.1)%Q) as Hnot
      by (by apply Qle_not_lt).
    destruct (Qlt_bool 0.01 (Qabs (activityCount c * rate - activityCount c)))
      eqn:Heps.
    + apply Qlt_bool_iff in Heps.
      cbn [fst snd withActivityCount chunk_x chunk_y lastActivity
           activityCount heatLevel].
      split_and!; decay_side.
      intros _ _. split_and!; decay_side.
      intros _ H. exfalso. by apply (Qlt_not_le _ _ Heps).
    + apply Qlt_bool_false_iff in Heps. cbn [fst snd].
      split_and!; decay_side.
      intros _ _. split_and!; decay_side.
      intros _ H. exfalso. by apply (Qlt_not_le _ _ H).
Qed.

Lemma decayChunks_lookup (t : Z) (s : TeamGridState) (i : nat) (c : Chunk) :
  chunks s !! i = Some c →
  let c1 := (decayChunk t c).1 in
  chunks (decayChunks t s) !! i = Some c1
  ∨ ∃ h, chunks (decayChunks t s) !! i = Some (withHeatLevel h c1)
         ∧ ((activityCount c1 <= 0)%Q → h = heatLevel c1 ∨ h = 0).
Proof.
  intros Hc c1. unfold decayChunks.
  destruct (existsb snd (map (decayChunk t) (chunks s))) eqn:Hch.
  - cbn [withChunks chunks].
    assert (map fst (map (decayChunk t) (chunks s)) !! i = Some c1) as Hc1.
    { change (map fst (map (decayChunk t) (chunks s)))
        with (fst <$> (decayChunk t <$> chunks s)).
      by rewrite !list_lookup_fmap, Hc. }
    destruct (updateHeatLevels_lookup_Some _ _ _ Hc1) as [h Hh].
    right. exists h. split; [done|]. intros Hle.
    destruct (updateHeatLevels_inactive _ _ _ Hc1 Hle) as [H|H];
      rewrite H in Hh; apply (f_equal (fmap heatLevel)) in Hh;
      cbn in Hh; injection Hh as Hh; [left; congruence|right; congruence].
  - left. rewrite Hc. f_equal. symmetry.
    destruct (decayChunk_spec t c) as (_ & _ & _ & Hsame & _).
    apply Hsame.
    destruct (decayChunk t c).2 eqn:Hflag; [|done].
    assert (existsb snd (map (decayChunk t) (chunks s)) = true) as Htrue.
    { apply existsb_exists. exists (decayChunk t c). split; [|done].
      apply in_map. apply list_elem_of_In. by eapply list_elem_of_lookup_2. }
    congruence.
Qed.

(** One run of the decay updater, chunk by chunk. *)
Lemma decayChunks_on_chunk (t : Z) (s : TeamGridState) (i : nat) (c : Chunk) :
  chunks s !! i = Some c →
  let age := t - lastActivity c in
  let candidate := (activityCount c * decayRateFor age)%Q in
  ∃ c', chunks (decayChunks t s) !! i = Some c'
    ∧ (chunk_x c' = chunk_x c ∧ chunk_y c' = chunk_y c
       ∧ lastActivity c' = lastActivity c)
    ∧ (activityCount c' <= activityCount c)%Q
    ∧ ((0 <= activityCount c)%Q → (0 <= activityCount c')%Q)
    ∧ (age ≤ NO_DECAY_PERIOD → activityCount c' = activityCount c)
    ∧ (¬ (0 < activityCount c)%Q → activityCount c' = activityCount c)
    ∧ (NO_DECAY_PERIOD < age → (0 < activityCount c)%Q →
         ((candidate < 0.1)%Q → activityCount c' = 0%Q ∧ heatLevel c' = 0)
         ∧ (¬ (candidate < 0.1)%Q →
              (0.01 < Qabs (candidate - activityCount c))%Q →
              activityCount c' = candidate)
         ∧ (¬ (candidate < 0.1)%Q →
              (Qabs (candidate - activityCount c) <= 0.01)%Q →
              activityCount c' = activityCount c))
    ∧ ((activityCount c' == 0)%Q →
       (0 < activityCount c)%Q ∨ heatLevel c = 0 → heatLevel c' = 0).
Proof.
  intros Hc age candidate.
  destruct (decayChunk_spec t c)
    as ((Hx & Hy & Hlast) & Hle & Hnonneg & _ & Hgrace & Hidle & Hdecay).
  fold age candidate in Hgrace, Hdecay.
  set (c1 := (decayChunk t c).1) in *.
  assert (∃ c', chunks (decayChunks t s) !! i = Some c'
                ∧ (∃ h, c' = withHeatLevel h c1)
                ∧ ((activityCount c1 <= 0)%Q →
                   heatLevel c' = heatLevel c1 ∨ heatLevel c' = 0))
    as (c' & Hc' & [h ->] & Hheat).
  { destruct (decayChunks_lookup t s i c Hc) as [H|(h & H & Hh)].
    - exists c1. split; [done|]. split; [|by left].
      exists (heatLevel c1). by rewrite withHeatLevel_same.
    - exists (withHeatLevel h c1). split; [done|]. split; [by exists h|].
      exact Hh. }
  exists (withHeatLevel h c1). split; [done|].
  cbn [withHeatLevel chunk_x chunk_y lastActivity activityCount heatLevel] in *.
  split_and!; try done.
  - intros H. by rewrite (Hgrace H).
  - intros H. by rewrite (Hidle H).
  - intros Hage Hact. destruct (Hdecay Hage Hact) as (Hsnap & Hstore & Hkeep).
    split_and!.
    + intros H. destruct (Hsnap H) as [H0 Hh0]. split; [done|].
      destruct Hheat as [-> | ->]; [by rewrite H0|done|done].
    + intros H1 H2. by apply Hstore.
    + intros H1 H2. by rewrite (Hkeep H1 H2).
  - intros Hzero Hbefore.
    assert (activityCount c1 <= 0)%Q as Hle0 by (rewrite Hzero; apply Qle_refl).
    destruct (Hheat Hle0) as [-> | ->]; [|done].
    destruct (Qlt_le_dec 0 (activityCount c)) as [Hact|Hidle'].
    + destruct (Z_le_gt_dec age NO_DECAY_PERIOD) as [Hg|Hg].
      { exfalso. rewrite (Hgrace Hg) in Hzero. rewrite Hzero in Hact.
        by apply (Qlt_irrefl 0). }
      destruct (Hdecay ltac:(lia) Hact) as (Hsnap & Hstore & Hkeep).
      destruct (Qlt_le_dec candidate 0.1) as [Hlow|Hhigh]; [by apply Hsnap|].
      exfalso. apply Qle_not_lt in Hhigh as Hnot.
      destruct (Qlt_le_dec 0.01 (Qabs (candidate - activityCount c)))
        as [Hbig|Hsmall].
      * destruct (Hstore Hnot Hbig) as [_ Heq]. rewrite Heq in Hzero.
        rewrite Hzero in Hhigh. by apply (Qle_not_lt _ _ Hhigh).
      * rewrite (Hkeep Hnot Hsmall) in Hzero. rewrite Hzero in Hact.
        by apply (Qlt_irrefl 0).
    + rewrite Hidle by (by apply Qle_not_lt).
      destruct Hbefore as [Hact|H0]; [|done].
      exfalso. by apply (Qlt_not_le _ _ Hact).
Qed.



(** ** Heat levels are a function of the activity counts *)






Lemma sameCount_updateHeatLevels (cs : list Chunk) :
  Forall2 sameCount cs (updateHeatLevels cs).
Proof.
  destruct (updateHeatLevels_map cs) as [h ->].
  apply Forall2_fmap_r, Forall_Forall2_diag, Forall_forall. by intros c _.
Qed.



(** ** The recomputation against the specification's algorithm *)







(** ** Reachable states are well formed *)

Lemma wf_grid_foldl_updateCell {A : Type} (f : A → CellState → CellState)
  (px py : A → Z) (guard : A → bool) (l : list A) (g : Grid) :
  wf_grid g →
  wf_grid (foldl (λ g a, if guard a then updateCell (f a) g (px a) (py a)
                          else g) g l).
Proof.
  revert g. induction l as [|a l IH]; intros g Hg; cbn [foldl]; [done|].
  apply IH. destruct (guard a); [by apply wf_grid_updateCell|done].
Qed.

Lemma wf_grid_placeUpdater (s : Ship) (cells : list Coord) (prev : TeamGridState) :
  wf_grid (grid prev) → wf_grid (grid (placeUpdater s cells prev)).
Proof.
  intros Hg. cbn [placeUpdater grid].
  apply (wf_grid_foldl_updateCell (λ _ _, shipCell s) cx cy (λ _, true)), Hg.
Qed.

Lemma chunkCoords_alter (f : Chunk → Chunk) (i : nat) (cs : list Chunk) :
  (∀ c, chunk_x (f c) = chunk_x c ∧ chunk_y (f c) = chunk_y c) →
  chunkCoords (alter f i cs) = chunkCoords cs.
Proof.
  intros Hf. unfold chunkCoords.
  rewrite (list_fmap_alter _ f id); [|apply Forall_forall; intros c _;
    destruct (Hf c) as [-> ->]; done].
  apply list_eq. intros j. rewrite list_lookup_alter.
  case_decide; [subst|done]. by destruct (_ !! j).
Qed.

Lemma wf_chunks_activityUpdater (e : Env) (X Y : Z) (prev : TeamGridState) :
  wf_chunks (chunks prev) → wf_chunks (chunks (activityUpdater e X Y prev)).
Proof.
  unfold wf_chunks, activityUpdater. cbn [withChunks chunks]. intros Hwf.
  rewrite chunkCoords_updateHeatLevels.
  destruct (findChunkIndex X Y (chunks prev)); [|done].
  by rewrite chunkCoords_alter.
Qed.

Lemma wf_chunks_decayChunks (t : Z) (prev : TeamGridState) :
  wf_chunks (chunks prev) → wf_chunks (chunks (decayChunks t prev)).
Proof.
  unfold wf_chunks, decayChunks. intros Hwf.
  destruct (existsb _ _); [|done]. cbn [withChunks chunks].
  rewrite chunkCoords_updateHeatLevels, <- Hwf. unfold chunkCoords.
  change (map fst (map (decayChunk t) (chunks prev)))
    with (fst <$> (decayChunk t <$> chunks prev)).
  rewrite <- !list_fmap_compose. apply list_fmap_ext. intros _ c _. cbn.
  destruct (decayChunk_spec t c) as ((-> & -> & _) & _). done.
Qed.

Lemma wf_world_initial (r : string) : wf_world (initialWorld r).
Proof. intros []; split; (apply wf_grid_empty || done). Qed.

Lemma wf_world_runOp (e : Env) (o : Op) (w : World) :
  wf_world w → wf_world (runOp e o w).2.
Proof.
  intros Hw u. destruct (Hw u) as [Hg Hc].
  destruct o as [x y size horizontal t|x y t|].
  - cbn [runOp]. rewrite dispatch_placeShip. cbv zeta.
    destruct (isValidShipPlacement _ _ _) as [[|]|]; [|done..]. cbn [snd].
    destruct (decide (u = t)) as [-> |Hu].
    + rewrite teamGrid_setTeam. split; [by apply wf_grid_placeUpdater|done].
    + by rewrite teamGrid_setTeam_ne.
  - cbn [runOp]. destruct (decide (u = t)) as [-> |Hu].
    + by rewrite (proj1 (fireShot_frame e w x y t)).
    + assert (u = opposite t) as -> by (by destruct u, t).
      split.
      * destruct (fireShot_grid e w x y t) as [Hgrid|Hgrid]; rewrite Hgrid;
          [done|by apply wf_grid_updateCell].
      * rewrite (proj2 (proj2 (fireShot_frame e w x y t))).
        by apply wf_chunks_activityUpdater.
  - rewrite runOp_decay.
    destruct u; cbn [teamGrid blueTeamGrid redTeamGrid];
      (split; [by rewrite decayChunks_grid|by apply wf_chunks_decayChunks]).
Qed.

(** Every state the three operations lead to from the initial one has full
    grids and the chunk layout of the initial state: the shape the
    statements above assume. *)
Lemma wf_world_reachable (r : string) (ops : list (Env * Op)) :
  wf_world (runOps ops (initialWorld r)).
Proof.
  generalize (wf_world_initial r). generalize (initialWorld r).
  induction ops as [|[e o] ops IH]; intros w Hw; [done|].
  cbn [runOps]. by apply IH, wf_world_runOp.
Qed.

(** ** A chunk with no activity has no heat *)

Lemma chunkOk_updateHeatLevels (cs : list Chunk) :
  Forall chunkOk cs → Forall chunkOk (updateHeatLevels cs).
Proof.
  rewrite !Forall_lookup. intros Hcs j c' Hc'.
  destruct (updateHeatLevels_lookup cs j c' Hc') as (c & Hc & Hheat).
  destruct (Hcs j c Hc) as [Hnonneg Hzero].
  rewrite Hheat. split; [done|]. cbn [withHeatLevel activityCount heatLevel].
  intros H0.
  assert (activityCount c <= 0)%Q as Hle by (rewrite H0; apply Qle_refl).
  destruct (updateHeatLevels_inactive cs j c Hc Hle) as [H|H];
    rewrite H in Hc'; injection Hc' as <-; [by apply Hzero|done].
Qed.

Lemma chunkOk_activityUpdater (e : Env) (X Y : Z) (prev : TeamGridState) :
  Forall chunkOk (chunks prev) →
  Forall chunkOk (chunks (activityUpdater e X Y prev)).
Proof.
  intros Hcs. unfold activityUpdater. cbn [withChunks chunks].
  apply chunkOk_updateHeatLevels.
  destruct (findChunkIndex X Y (chunks prev)) as [i|]; [|done].
  apply Forall_alter; [done|]. intros c _ [Hnonneg _].
  assert (0 < bumpActivity (activityCount c))%Q as Hpos.
  { rewrite bumpActivity_spec.
    apply Qlt_le_trans with (0 + 1)%Q; [done|].
    by apply Qplus_le_compat; [|apply Qle_refl]. }
  split; cbn [withLastActivity withActivityCount activityCount heatLevel].
  - by apply Qlt_le_weak.
  - intros H0. rewrite H0 in Hpos. by apply Qlt_irrefl in Hpos.
Qed.

Lemma chunkOk_decayChunks (t : Z) (prev : TeamGridState) :
  Forall chunkOk (chunks prev) → Forall chunkOk (chunks (decayChunks t prev)).
Proof.
  rewrite !Forall_lookup. intros Hcs j c' Hc'.
  destruct (lookup_lt_is_Some_2 (chunks prev) j) as [c Hc].
  { apply lookup_lt_Some in Hc'.
    assert (length (chunks (decayChunks t prev)) = length (chunks prev)) as <-;
      [|done].
    unfold decayChunks. destruct (existsb _ _); [|done].
    cbn [withChunks chunks].
    by rewrite length_updateHeatLevels, !length_map. }
  destruct (Hcs j c Hc) as [Hnonneg Hzero].
  destruct (decayChunks_on_chunk t prev j c Hc)
    as (c'' & Hc'' & _ & _ & Hkeep & _ & _ & _ & Hheat).
  rewrite Hc' in Hc''. injection Hc'' as <-.
  split; [by apply Hkeep|].
  intros H0. apply Hheat; [done|].
  destruct (Qlt_le_dec 0 (activityCount c)) as [Hact|Hle]; [by left|].
  right. apply Hzero. by apply Qle_antisym.
Qed.

(** In every state the operations lead to from the initial one, the chunks
    of both teams have a count that is not negative, and heat level 0 when
    the count is 0. *)
Lemma chunkOk_reachable (r : string) (ops : list (Env * Op)) (t : Team) :
  Forall chunkOk (chunks (teamGrid t (runOps ops (initialWorld r)))).
Proof.
  assert (∀ u, Forall chunkOk (chunks (teamGrid u (initialWorld r)))) as Hinit.
  { intros []; cbn; apply Forall_forall; intros c Hc;
      apply list_elem_of_fmap in Hc as (k & -> & _); by split. }
  revert t. generalize Hinit. generalize (initialWorld r). clear Hinit.
  induction ops as [|[e o] ops IH]; intros w Hw t; [by apply Hw|].
  cbn [runOps]. apply IH. clear IH t. intros u.
  destruct o as [x y size horizontal t|x y t|].
  - cbn [runOp]. rewrite dispatch_placeShip. cbv zeta.
    destruct (isValidShipPlacement _ _ _) as [[|]|]; [|by apply Hw..].
    cbn [snd]. destruct (decide (u = t)) as [-> |Hu].
    + rewrite teamGrid_setTeam. by apply Hw.
    + rewrite teamGrid_setTeam_ne by done. by apply Hw.
  - cbn [runOp]. destruct (decide (u = t)) as [-> |Hu].
    + rewrite (proj1 (fireShot_frame e w x y t)). by apply Hw.
    + assert (u = opposite t) as -> by (by destruct u, t).
      rewrite (proj2 (proj2 (fireShot_frame e w x y t))).
      by apply chunkOk_activityUpdater, Hw.
  - rewrite runOp_decay.
    destruct u; cbn [teamGrid blueTeamGrid redTeamGrid];
      apply chunkOk_decayChunks; [apply (Hw blue)|apply (Hw red)].
Qed.

(** * Properties of the invariants, the simulation and the components *)

(** ** What one operation does to a team *)

Lemma isValidShipPlacement_unoccupied (t : Z) (g : Grid) (cells : list Coord) :
  isValidShipPlacement t g cells = Returned true →
  Forall (λ c, inBounds (cx c) (cy c) = true
               ∧ ∃ cell, cellAt g (cx c) (cy c) = Some cell
                         ∧ occupied cell = false) cells.
Proof.
  unfold isValidShipPlacement. rewrite every_true.
  intros H. eapply Forall_impl; [exact H|]. clear H. intros c. cbv beta.
  destruct (inBounds (cx c) (cy c)); [|done].
  destruct (cellAt g (cx c) (cy c)) as [cell|]; [|done].
  intros [= H]. apply andb_true_iff in H as [Ho _].
  split; [done|]. exists cell. split; [done|]. by destruct (occupied cell).
Qed.

Lemma mapWithLocals_struck (sid : string) (l : list Ship) (v : Locals) :
  (mapWithLocals (hitShip (Some sid)) l v).1 = struck sid <$> l.
Proof.
  revert v. induction l as [|s l IH]; intros v; cbn [mapWithLocals]; [done|].
  destruct (hitShip (Some sid) s v) as [s' v1] eqn:Hs.
  specialize (IH v1). destruct (mapWithLocals _ l v1) as [r' v2].
  cbn [fst] in *. rewrite fmap_cons, <- IH. f_equal.
  unfold hitShip in Hs. unfold struck.
  rewrite (bool_decide_ext (Some (ship_id s) = Some sid) (ship_id s = sid))
    in Hs by (split; congruence).
  destruct (bool_decide (ship_id s = sid)); by injection Hs as <- _.
Qed.

Lemma mapWithLocals_none (l : list Ship) (v : Locals) :
  (mapWithLocals (hitShip None) l v).1 = l.
Proof.
  revert v. induction l as [|s l IH]; intros v; cbn [mapWithLocals]; [done|].
  unfold hitShip at 1. rewrite bool_decide_eq_false_2 by done.
  specialize (IH v). destruct (mapWithLocals _ l v) as [r' v2].
  cbn [fst] in *. by rewrite IH.
Qed.

Lemma ships_shipHitUpdater (cell : CellState) (s : TeamGridState) (l : Locals) :
  ships (shipHitUpdater cell s l).1 =
  from_option (λ r, struck (ref_id r) <$> ships s) (ships s) (ship cell).
Proof.
  unfold shipHitUpdater.
  destruct (ship cell) as [r|]; cbn [fmap option_fmap option_map from_option].
  - rewrite <- (mapWithLocals_struck _ _ l). by destruct (mapWithLocals _ _ _).
  - rewrite <- (mapWithLocals_none (ships s) l) at 2.
    by destruct (mapWithLocals _ _ _).
Qed.

Lemma decayChunks_frame (t : Z) (s : TeamGridState) :
  grid (decayChunks t s) = grid s ∧ ships (decayChunks t s) = ships s
  ∧ stats (decayChunks t s) = stats s.
Proof. unfold decayChunks. by destruct (existsb _ _). Qed.

Lemma fireShot_effect (e : Env) (w : World) (x y : Z) (t u : Team) :
  TeamEffect None (teamGrid u w) (teamGrid u (dispatch (fireShot e x y t) w).2).
Proof.
  destruct (decide (u = t)) as [->|Hu].
  { rewrite (proj1 (fireShot_frame e w x y t)). by apply effect_none. }
  assert (u = opposite t) as -> by (by destruct u, t).
  rewrite dispatch_fireShot. cbv zeta.
  destruct (cellAt _ x y) as [cell|] eqn:Hcell;
    [destruct (hit cell) eqn:Hhit;
     [|destruct (occupied cell && bool_decide (is_Some (ship cell))) eqn:Hocc]|];
    cbn [snd]; rewrite teamGrid_setTeam.
  - by apply effect_none.
  - destruct (shipHitUpdater_frame cell
      (hitUpdater x y (activityUpdater e (x / CELLS_PER_CHUNK)
         (y / CELLS_PER_CHUNK) (teamGrid (opposite t) w))) initLocals)
      as (Hg & _ & Hs).
    apply andb_true_iff in Hocc as [Ho _].
    apply (effect_hit _ _ _ x y cell); [done|done|by rewrite Hg| |by rewrite Hs].
    by rewrite ships_shipHitUpdater, Ho.
  - apply (effect_hit _ _ _ x y cell); [done..| |done].
    cbn [hitUpdater ships activityUpdater withChunks].
    destruct (occupied cell); [|done].
    destruct (ship cell); [|done].
    by rewrite bool_decide_eq_true_2 in Hocc by done.
  - by apply effect_none.
Qed.

Lemma runOp_effect (e : Env) (o : Op) (w : World) (u : Team) :
  TeamEffect (placedShip e o w) (teamGrid u w) (teamGrid u (runOp e o w).2).
Proof.
  destruct o as [x y size horizontal t|x y t|].
  - cbn [runOp]. rewrite dispatch_placeShip. cbv zeta.
    destruct (isValidShipPlacement _ _ _) as [[|]|] eqn:Hv; cbn [snd];
      [|by apply effect_none..].
    destruct (decide (u = t)) as [->|Hu].
    + rewrite teamGrid_setTeam.
      apply (effect_placed _ _ _
               (newShipFor e w (shipCellsFrom x y size horizontal)));
        [done| |done].
      by apply isValidShipPlacement_unoccupied in Hv.
    + rewrite teamGrid_setTeam_ne by done. by apply effect_none.
  - apply fireShot_effect.
  - rewrite runOp_decay.
    destruct u; cbn [teamGrid blueTeamGrid redTeamGrid];
      apply effect_none; apply decayChunks_frame.
Qed.

(** ** A shot at a cell not hit before *)



(** ** The fleet on the grid and in the registry *)

Lemma refOf_struck (sid : string) (s : Ship) :
  refOf (struck sid s) = refOf s ∧ ship_cells (struck sid s) = ship_cells s.
Proof. unfold struck. by case_bool_decide. Qed.

Lemma fleetConsistent_effect (placed : option Ship) (s s' : TeamGridState) :
  TeamEffect placed s s' → fleetConsistent s → fleetConsistent s'.
Proof.
  intros Heff [Hcells Hships]. destruct Heff as [Hg Hs _|sh _ Hfree ->|x y cell Hcell Hhit Hg Hs _].
  - split.
    + intros i j c. rewrite Hg, Hs. apply Hcells.
    + intros sh c. rewrite Hg, Hs. apply Hships.
  - rewrite Forall_forall in Hfree.
    split.
    + intros i j c. cbn [placeUpdater grid ships]. rewrite cellAt_placed.
      case_bool_decide as Hin.
      * destruct (cellAt (grid s) i j); [|done]. intros [= <-].
        split; [by split; [eexists|]|].
        intros r [= <-]. exists sh. split; [|done].
        apply elem_of_app. right. apply list_elem_of_here.
      * intros Hc. destruct (Hcells i j c Hc) as [Hocc Href].
        split; [done|]. intros r Hr.
        destruct (Href r Hr) as (sh' & Hin' & ? & ?).
        exists sh'. split; [|done]. apply elem_of_app. by left.
    + intros sh' c Hin' Hc. cbn [placeUpdater grid ships] in *.
      rewrite cellAt_placed. destruct c as [i j]. cbn [cx cy].
      apply elem_of_app in Hin' as [Hin'|Hin'].
      * destruct (Hships sh' _ Hin' Hc) as (cell & Hcell & Hocc & Href).
        cbn [cx cy] in Hcell.
        rewrite bool_decide_eq_false_2; [by exists cell|].
        intros Hin. destruct (Hfree _ Hin) as (_ & cell' & Hcell' & Hocc').
        cbn [cx cy] in Hcell'. congruence.
      * apply list_elem_of_singleton in Hin' as ->.
        rewrite bool_decide_eq_true_2 by done.
        destruct (Hfree _ Hc) as (_ & cell' & Hcell' & _).
        cbn [cx cy] in Hcell'. rewrite Hcell'.
        by exists (shipCell sh).
  - assert (∃ f, ships s' = f <$> ships s
                 ∧ ∀ sh, refOf (f sh) = refOf sh
                         ∧ ship_cells (f sh) = ship_cells sh) as (f & Hf & Hkeep).
    { rewrite Hs. destruct (occupied cell), (ship cell) as [r|];
        cbn [from_option];
        first [ exists (struck (ref_id r)); split; [done|]; apply refOf_struck
              | exists id; split; [by rewrite list_fmap_id|done] ]. }
    split.
    + intros i j c. rewrite Hg, cellAt_updateCell.
      intros Hc.
      assert (∃ c0, cellAt (grid s) i j = Some c0 ∧ occupied c = occupied c0
                    ∧ ship c = ship c0) as (c0 & Hc0 & -> & ->).
      { case_bool_decide; [|by exists c].
        destruct (cellAt (grid s) i j) as [c0|]; [|done].
        injection Hc as <-. by exists c0. }
      destruct (Hcells i j c0 Hc0) as [Hocc Href].
      split; [done|]. intros r Hr.
      destruct (Href r Hr) as (sh & Hin & -> & Hcell').
      exists (f sh). rewrite Hf. split; [by apply list_elem_of_fmap_2|].
      by destruct (Hkeep sh) as [-> ->].
    + intros sh' c. rewrite Hf. intros Hin Hc.
      apply list_elem_of_fmap in Hin as (sh & -> & Hin).
      destruct (Hkeep sh) as [Hr Hcs]. rewrite Hcs in Hc. rewrite Hr.
      destruct (Hships sh c Hin Hc) as (c0 & Hc0 & Hocc & Href).
      rewrite Hg, cellAt_updateCell, Hc0.
      case_bool_decide; [by exists (withHit c0)|by exists c0].
Qed.

Lemma cellAt_generateEmptyGrid (i j : Z) (cell : CellState) :
  cellAt generateEmptyGrid i j = Some cell → cell = emptyCell.
Proof.
  unfold cellAt, generateEmptyGrid. destruct (_ || _); [done|].
  destruct (replicate _ _ !! Z.to_nat j) as [row|] eqn:Hrow; [|done].
  apply lookup_replicate in Hrow as [-> _]. cbn [mbind option_bind].
  intros Hcell. by apply lookup_replicate in Hcell as [-> _].
Qed.

Lemma fleetConsistent_initial : fleetConsistent initialTeamGrid.
Proof.
  split.
  - intros i j cell Hcell.
    apply cellAt_generateEmptyGrid in Hcell as ->.
    split; [|done]. split; [done|]. by intros [? ?].
  - intros sh c Hin. by apply elem_of_nil in Hin.
Qed.

(** X2. In every state the three operations lead to from the initial one,
    the grid and the registry of each team describe the same fleet: a cell
    is occupied exactly when it holds a ship reference, the reference is
    that of a registered ship which lists the cell, and every cell listed
    by a registered ship is occupied and refers to that ship.  So two
    registered ships that share a cell have the same identifier and
    owner: ships with different identifiers never overlap. *)
Theorem fleet_consistent_reachable (r : string) (ops : list (Env * Op))
  (u : Team) :
  let s := teamGrid u (runOps ops (initialWorld r)) in
  fleetConsistent s
  ∧ ∀ sh1 sh2 c, sh1 ∈ ships s → sh2 ∈ ships s →
      c ∈ ship_cells sh1 → c ∈ ship_cells sh2 → refOf sh1 = refOf sh2.
Proof.
  cbv zeta.
  assert (fleetConsistent (teamGrid u (runOps ops (initialWorld r)))) as Hcons.
  { assert (fleetConsistent (teamGrid u (initialWorld r))) as Hinit.
    { destruct u; apply fleetConsistent_initial. }
    revert Hinit. generalize (initialWorld r).
    induction ops as [|[e o] ops IH]; intros w Hw; [done|].
    cbn [runOps]. apply IH.
    eapply fleetConsistent_effect; [apply runOp_effect|done]. }
  split; [done|]. intros sh1 sh2 c H1 H2 Hc1 Hc2.
  destruct Hcons as [_ Hships].
  destruct (Hships sh1 c H1 Hc1) as (cell & Hcell & _ & Href).
  destruct (Hships sh2 c H2 Hc2) as (cell' & Hcell' & _ & Href').
  congruence.
Qed.

(** X3. In every reachable state the counter [totalShips] of a team is the
    length of its registry, [totalChunks] is still [TOTAL_CHUNKS], and
    [totalHits] is not negative. *)
Theorem stats_count_registry (r : string) (ops : list (Env * Op)) (u : Team) :
  let s := teamGrid u (runOps ops (initialWorld r)) in
  totalShips (stats s) = Z.of_nat (length (ships s))
  ∧ totalChunks (stats s) = TOTAL_CHUNKS
  ∧ 0 ≤ totalHits (stats s).
Proof.
  cbv zeta.
  assert (let s := teamGrid u (initialWorld r) in
          totalShips (stats s) = Z.of_nat (length (ships s))
          ∧ totalChunks (stats s) = TOTAL_CHUNKS
          ∧ 0 ≤ totalHits (stats s)) as Hinit by (by destruct u).
  revert Hinit. generalize (initialWorld r). cbv zeta.
  induction ops as [|[e o] ops IH]; intros w Hw; [done|].
  cbn [runOps]. apply IH. destruct Hw as (Hships & Hchunks & Hhits).
  destruct (runOp_effect e o w u) as [_ Hs Hst|sh _ _ ->|x y cell _ _ _ Hs Hst].
  - by rewrite Hs, Hst.
  - cbn [placeUpdater stats ships totalShips totalChunks totalHits].
    rewrite length_app. cbn [length]. split_and!; [lia|done..].
  - rewrite Hs, Hst. cbn [totalShips totalChunks totalHits].
    split_and!; [|done|lia].
    destruct (occupied cell), (ship cell); cbn [from_option];
      by rewrite ?length_fmap.
Qed.

(** X4. An occupied cell stays occupied by the same ship whatever
    operations follow, also after the ship is destroyed; and once it is
    hit it stays hit. *)
Theorem occupied_cell_stays (ops : list (Env * Op)) (w : World) (u : Team)
  (i j : Z) (cell : CellState) :
  cellAt (grid (teamGrid u w)) i j = Some cell →
  occupied cell = true →
  ∃ cell', cellAt (grid (teamGrid u (runOps ops w))) i j = Some cell'
           ∧ occupied cell' = true
           ∧ ship cell' = ship cell
           ∧ (hit cell = true → hit cell' = true).
Proof.
  revert w cell. induction ops as [|[e o] ops IH]; intros w cell Hcell Hocc.
  { by exists cell. }
  cbn [runOps].
  assert (∃ c1, cellAt (grid (teamGrid u (runOp e o w).2)) i j = Some c1
                ∧ occupied c1 = true ∧ ship c1 = ship cell
                ∧ (hit cell = true → hit c1 = true)) as (c1 & Hc1 & Ho1 & Hs1 & Hh1).
  { destruct (runOp_effect e o w u) as [Hg _ _|sh _ Hfree ->|x y c0 _ _ Hg _ _].
    - rewrite Hg. by exists cell.
    - cbn [placeUpdater grid]. rewrite cellAt_placed.
      rewrite bool_decide_eq_false_2; [by exists cell|].
      intros Hin. rewrite Forall_forall in Hfree.
      destruct (Hfree _ Hin) as (_ & c' & Hc' & Ho').
      cbn [cx cy] in Hc'. congruence.
    - rewrite Hg, cellAt_updateCell, Hcell.
      case_bool_decide; [by exists (withHit cell)|by exists cell]. }
  destruct (IH _ c1 Hc1 Ho1) as (cell' & Hcell' & Ho' & Hs' & Hh').
  exists cell'. split_and!; [done|done|congruence|tauto].
Qed.

Lemma occupied_cell_stays_witness :
  ∃ cell',
    cellAt (grid (teamGrid blue
      (runOps [(sampleEnv 2000, OpFireShot 10 10 red);
               (sampleEnv 3000, OpFireShot 11 10 red);
               (sampleEnv 20000, OpPlaceShip 10 10 2 true blue)]
              scenarioPlaced))) 10 10 = Some cell'
    ∧ occupied cell' = true
    ∧ ship cell' = Some {| ref_id := "s1"; ref_owner := "anon-p" |}
    ∧ (false = true → hit cell' = true).
Proof.
  apply (occupied_cell_stays _ scenarioPlaced blue 10 10
           {| occupied := true; hit := false;
              ship := Some {| ref_id := "s1"; ref_owner := "anon-p" |};
              cooldownUntil := None |}).
  - vm_compute. reflexivity.
  - reflexivity.
Defined.

(** X5. No operation ever sets a cooldown: in every state the three
    operations lead to from the initial one, no cell of either team
    carries a [cooldownUntil]. *)
Theorem no_cooldown_reachable (r : string) (ops : list (Env * Op)) (u : Team)
  (i j : Z) :
  cooldownAt u (runOps ops (initialWorld r)) i j = None
  ∨ cooldownAt u (runOps ops (initialWorld r)) i j = Some None.
Proof.
  assert (∀ i j, cooldownAt u (initialWorld r) i j = None
                 ∨ cooldownAt u (initialWorld r) i j = Some None) as Hinit.
  { intros i' j'. unfold cooldownAt.
    destruct (cellAt _ i' j') as [cell|] eqn:Hcell; [|by left]. right.
    assert (grid (teamGrid u (initialWorld r)) = generateEmptyGrid) as Hg
      by (by destruct u).
    rewrite Hg in Hcell. by apply cellAt_generateEmptyGrid in Hcell as ->. }
  revert i j. revert Hinit. generalize (initialWorld r).
  induction ops as [|[e o] ops IH]; intros w Hw i j; [done|].
  cbn [runOps]. apply IH. clear i j. intros i j.
  specialize (Hw i j). unfold cooldownAt in *.
  destruct (runOp_effect e o w u) as [Hg _ _|sh _ _ ->|x y c0 _ _ Hg _ _].
  - by rewrite Hg.
  - cbn [placeUpdater grid]. rewrite cellAt_placed.
    case_bool_decide; [|done].
    destruct (cellAt _ i j); [by right|by left].
  - rewrite Hg, cellAt_updateCell. case_bool_decide; [|done].
    by destruct (cellAt _ i j).
Qed.

(** ** Heat levels follow the activity counts *)

Lemma heatOf_range (hot warm minimum a : Q) : 0 ≤ heatOf hot warm minimum a ≤ 3.
Proof.
  unfold heatOf.
  destruct (_ && _); [lia|]. destruct (_ && _); [lia|].
  destruct (Qle_bool _ _); lia.
Qed.

Lemma Qle_bool_mono (x a b : Q) :
  (a <= b)%Q → Qle_bool x a = true → Qle_bool x b = true.
Proof.
  rewrite !Qle_bool_iff. intros Hab Hxa. by apply Qle_trans with a.
Qed.

Lemma Qlt_bool_mono (x a b : Q) :
  (a <= b)%Q → Qlt_bool x a = true → Qlt_bool x b = true.
Proof.
  rewrite !Qlt_bool_iff. intros Hab Hxa. by apply Qlt_le_trans with a.
Qed.

Lemma heatOf_mono (hot warm minimum a b : Q) :
  (a <= b)%Q → heatOf hot warm minimum a ≤ heatOf hot warm minimum b.
Proof.
  intros Hab. unfold heatOf.
  pose proof (Qle_bool_mono hot _ _ Hab) as H1.
  pose proof (Qle_bool_mono warm _ _ Hab) as H2.
  pose proof (Qle_bool_mono minimum _ _ Hab) as H3.
  pose proof (Qlt_bool_mono 0 _ _ Hab) as H4.
  destruct (Qle_bool hot a), (Qle_bool hot b), (Qlt_bool 0 a), (Qlt_bool 0 b),
    (Qle_bool warm a), (Qle_bool warm b), (Qle_bool minimum a),
    (Qle_bool minimum b); cbn [andb]; try lia; exfalso; intuition discriminate.
Qed.

(** X6. When some chunk is active, the recomputed heat levels are between
    0 and 3 and follow the activity counts: a chunk with at least the
    activity of another one is at least as hot. *)
Theorem heat_follows_activity (cs : list Chunk) (i j : nat) (c d : Chunk) :
  (length (List.filter isActive cs) =? 0)%nat = false →
  updateHeatLevels cs !! i = Some c →
  updateHeatLevels cs !! j = Some d →
  (activityCount c <= activityCount d)%Q →
  0 ≤ heatLevel c ∧ heatLevel c ≤ heatLevel d ∧ heatLevel d ≤ 3.
Proof.
  intros Hact. rewrite updateHeatLevels_unfold, Hact.
  destruct (heatThresholds cs) as [[hot warm] minimum].
  rewrite !list_lookup_fmap.
  destruct (cs !! i) as [c0|]; [|done]. destruct (cs !! j) as [d0|]; [|done].
  intros [= <-] [= <-]. cbn [withHeatLevel heatLevel activityCount].
  intros Hle.
  pose proof (heatOf_range hot warm minimum (activityCount c0)).
  pose proof (heatOf_range hot warm minimum (activityCount d0)).
  pose proof (heatOf_mono hot warm minimum _ _ Hle). lia.
Qed.

Lemma heat_follows_activity_witness :
  let cs := chunks (teamGrid blue sampleWorldShotAt) in
  ∃ c d, updateHeatLevels cs !! 1%nat = Some c
         ∧ updateHeatLevels cs !! 0%nat = Some d
         ∧ 0 ≤ heatLevel c ∧ heatLevel c ≤ heatLevel d ∧ heatLevel d ≤ 3.
Proof.
  cbv zeta. eexists _, _. split; [vm_compute; reflexivity|].
  split; [vm_compute; reflexivity|].
  apply (heat_follows_activity (chunks (teamGrid blue sampleWorldShotAt)) 1 0).
  - vm_compute. reflexivity.
  - vm_compute. reflexivity.
  - vm_compute. reflexivity.
  - vm_compute. discriminate.
Defined.

Lemma active_chunk_counts (cs : list Chunk) (c : Chunk) :
  c ∈ cs → (0 < activityCount c)%Q →
  (length (List.filter isActive cs) =? 0)%nat = false.
Proof.
  intros Hc Hpos. apply Nat.eqb_neq. intros Hlen.
  assert (c ∈ List.filter isActive cs) as Hin.
  { by rewrite list_elem_of_In, filter_In, <- list_elem_of_In, isActive_spec. }
  destruct (List.filter isActive cs); [by apply elem_of_nil in Hin|done].
Qed.

(** The hot threshold is the count of some active chunk, so the largest
    count reaches it. *)
Lemma largest_count_is_hot (cs : list Chunk) (c : Chunk) :
  c ∈ cs → (0 < activityCount c)%Q →
  (∀ d, d ∈ cs → (activityCount d <= activityCount c)%Q) →
  let '(hot, warm, minimum) := heatThresholds cs in
  heatOf hot warm minimum (activityCount c) = 3.
Proof.
  intros Hc Hpos Hmax.
  pose proof (sorted_active_nonempty cs (active_chunk_counts cs c Hc Hpos)) as Hne.
  unfold heatThresholds.
  set (sorted := sortByActivityDesc (List.filter isActive cs)) in *.
  set (n := Z.of_nat (length (List.filter isActive cs))).
  destruct (activityAt_clamped sorted (Z.max 1 (Qfloor (inject_Z n * 0.2)) - 1)
              Hne) as (c1 & Hc1 & Hhot); [lia|].
  unfold heatOf. rewrite Hhot.
  apply sorted_active_elem in Hc1 as [Hc1 _].
  assert (Qle_bool (activityCount c1) (activityCount c) = true) as ->
    by (apply Qle_bool_iff, Hmax, Hc1).
  by assert (Qlt_bool 0 (activityCount c) = true) as ->
    by (by apply Qlt_bool_iff).
Qed.

(** X7. A chunk whose activity is positive and is the largest of the array
    is hot (level 3) after a recomputation. *)
Theorem most_active_chunk_is_hot (cs : list Chunk) (i : nat) (c : Chunk) :
  cs !! i = Some c →
  (0 < activityCount c)%Q →
  (∀ d, d ∈ cs → (activityCount d <= activityCount c)%Q) →
  heatLevel <$> updateHeatLevels cs !! i = Some 3.
Proof.
  intros Hc Hpos Hmax.
  assert (c ∈ cs) as Hin by (by eapply list_elem_of_lookup_2).
  rewrite updateHeatLevels_unfold, (active_chunk_counts cs c Hin Hpos).
  pose proof (largest_count_is_hot cs c Hin Hpos Hmax) as Hhot.
  destruct (heatThresholds cs) as [[hot warm] minimum].
  rewrite list_lookup_fmap, Hc.
  cbn [fmap option_fmap option_map withHeatLevel heatLevel]. by f_equal.
Qed.

Lemma most_active_chunk_is_hot_witness :
  heatLevel <$> updateHeatLevels (chunks (teamGrid blue sampleWorldShotAt))
                  !! 0%nat = Some 3.
Proof.
  eapply (most_active_chunk_is_hot _ 0).
  - vm_compute. reflexivity.
  - vm_compute. reflexivity.
  - intros d Hd. apply Qle_bool_iff. revert d Hd.
    setoid_rewrite list_elem_of_In. apply forallb_forall.
    vm_compute. reflexivity.
Defined.

(** ** Resetting the heat map *)

Lemma dispatch_resetHeatMap (w : World) :
  dispatch resetHeatMap w =
  (Returned (),
   {| blueTeamGrid := withChunks (resetChunks (chunks (blueTeamGrid w)))
                        (blueTeamGrid w);
      redTeamGrid := withChunks (resetChunks (chunks (redTeamGrid w)))
                       (redTeamGrid w);
      playerRand := playerRand w |}).
Proof. reflexivity. Qed.

Lemma chunkCoords_resetChunks (cs : list Chunk) :
  chunkCoords (resetChunks cs) = chunkCoords cs.
Proof.
  unfold chunkCoords, resetChunks.
  change (map ?f cs) with (f <$> cs).
  rewrite <- list_fmap_compose. by apply list_fmap_ext.
Qed.

Lemma lookup_resetChunks (cs : list Chunk) (j : nat) (c : Chunk) :
  resetChunks cs !! j = Some c →
  heatLevel c = 0 ∧ lastActivity c = 0 ∧ activityCount c = 0%Q.
Proof.
  unfold resetChunks. change (map ?f cs) with (f <$> cs).
  rewrite list_lookup_fmap. destruct (cs !! j); [|done]. by intros [= <-].
Qed.

Lemma resetChunks_idempotent (cs : list Chunk) :
  resetChunks (resetChunks cs) = resetChunks cs.
Proof.
  unfold resetChunks. change (map ?f ?l) with (f <$> l).
  rewrite <- list_fmap_compose. by apply list_fmap_ext.
Qed.

(** A decay changes nothing where no chunk is active. *)
Lemma decayChunks_idle (t : Z) (s : TeamGridState) :
  Forall (λ c, isActive c = false) (chunks s) → decayChunks t s = s.
Proof.
  intros Hidle. unfold decayChunks.
  assert (existsb snd (map (decayChunk t) (chunks s)) = false) as ->; [|done].
  induction Hidle as [|c cs Hc _ IH]; [done|].
  cbn [map existsb]. rewrite IH, orb_false_r.
  unfold decayChunk. unfold isActive in Hc. by rewrite Hc.
Qed.

(** X8. [resetHeatMap] returns; for each team it sets the heat level, the
    activity count and the time of the last activity of every chunk to 0
    and keeps the coordinates of the chunks, the grid, the registry and
    the counters.  A decay tick that follows changes nothing, at whatever
    time it runs, and neither does a second reset. *)
Theorem resetHeatMap_clears (w : World) (u : Team) :
  let res := dispatch resetHeatMap w in
  let s := teamGrid u w in
  let s' := teamGrid u res.2 in
  res.1 = Returned ()
  ∧ grid s' = grid s ∧ ships s' = ships s ∧ stats s' = stats s
  ∧ playerRand res.2 = playerRand w
  ∧ chunkCoords (chunks s') = chunkCoords (chunks s)
  ∧ Forall (λ c, heatLevel c = 0 ∧ lastActivity c = 0 ∧ activityCount c = 0%Q)
           (chunks s')
  ∧ (∀ e, (dispatch (decayTick e) res.2).2 = res.2)
  ∧ (dispatch resetHeatMap res.2).2 = res.2.
Proof.
  cbv zeta. rewrite dispatch_resetHeatMap. cbn [fst snd].
  assert (∀ s, Forall (λ c, isActive c = false)
                 (chunks (withChunks (resetChunks (chunks s)) s))) as Hidle.
  { intros s. apply Forall_lookup. intros j c Hc.
    apply lookup_resetChunks in Hc as (_ & _ & Hc).
    unfold isActive. by rewrite Hc. }
  split_and!; try (by destruct u).
  - destruct u; apply chunkCoords_resetChunks.
  - apply Forall_lookup. intros j c Hc.
    destruct u; apply (lookup_resetChunks _ j c Hc).
  - intros e. rewrite dispatch_decayTick.
    cbn [blueTeamGrid redTeamGrid playerRand].
    by rewrite !decayChunks_idle by apply Hidle.
  - rewrite dispatch_resetHeatMap. cbn [snd blueTeamGrid redTeamGrid playerRand
      withChunks chunks grid ships stats].
    by rewrite !resetChunks_idempotent.
Qed.

(** X9. After a reset, the first shot makes the chunk of its target cell
    the one hot chunk of the target team: that chunk has activity 1, the
    time of the shot and heat level 3, and every other chunk is still at
    0. *)
Theorem first_shot_after_reset (e : Env) (w : World) (x y : Z) (t : Team)
  (j : nat) (c : Chunk) :
  wf_chunks (chunks (teamGrid (opposite t) w)) →
  inBounds x y = true →
  let w1 := (dispatch resetHeatMap w).2 in
  let w2 := (dispatch (fireShot e x y t) w1).2 in
  chunks (teamGrid (opposite t) w2) !! j = Some c →
  if decide (j = chunkIndexOf x y)
  then heatLevel c = 3 ∧ (activityCount c == 1)%Q ∧ lastActivity c = now e
  else heatLevel c = 0 ∧ (activityCount c == 0)%Q ∧ lastActivity c = 0.
Proof.
  intros Hwf Hb. cbv zeta.
  rewrite (proj2 (proj2 (fireShot_frame e _ x y t))).
  rewrite dispatch_resetHeatMap. cbn [snd].
  set (cs := resetChunks (chunks (teamGrid (opposite t) w))).
  assert (teamGrid (opposite t)
            {| blueTeamGrid := withChunks (resetChunks (chunks (blueTeamGrid w)))
                                 (blueTeamGrid w);
               redTeamGrid := withChunks (resetChunks (chunks (redTeamGrid w)))
                                (redTeamGrid w);
               playerRand := playerRand w |}
          = withChunks cs (teamGrid (opposite t) w)) as -> by (by destruct t).
  assert (wf_chunks cs) as Hwf'.
  { unfold wf_chunks, cs. by rewrite chunkCoords_resetChunks. }
  unfold activityUpdater. cbn [withChunks chunks].
  destruct (findChunkIndex_wf cs x y Hwf' Hb) as (-> & c0 & Hc0 & _).
  set (i := chunkIndexOf x y) in *.
  set (f := λ c : Chunk, withLastActivity (now e)
              (withActivityCount (bumpActivity (activityCount c)) c)).
  destruct (lookup_resetChunks _ _ _ Hc0) as (Hh0 & Hl0 & Ha0).
  assert (alter f i cs !! i = Some (f c0)) as Hi
    by (by rewrite list_lookup_alter_eq, Hc0).
  assert (activityCount (f c0) = 1%Q) as Hone.
  { unfold f. cbn [withLastActivity withActivityCount activityCount].
    by rewrite Ha0. }
  intros Hc. destruct (decide (j = i)) as [->|Hne].
  - assert (f c0 ∈ alter f i cs) as Hin by (by eapply list_elem_of_lookup_2).
    assert ((0 < activityCount (f c0))%Q) as Hpos by (by rewrite Hone).
    assert (∀ d, d ∈ alter f i cs → (activityCount d <= activityCount (f c0))%Q)
      as Hmax.
    { intros d Hd. apply list_elem_of_lookup in Hd as [k Hk].
      destruct (decide (k = i)) as [->|Hki].
      - rewrite Hi in Hk. injection Hk as <-. apply Qle_refl.
      - rewrite list_lookup_alter_ne in Hk by done.
        apply lookup_resetChunks in Hk as (_ & _ & ->). by rewrite Hone. }
    rewrite updateHeatLevels_unfold, (active_chunk_counts _ _ Hin Hpos) in Hc.
    pose proof (largest_count_is_hot _ _ Hin Hpos Hmax) as Hhot.
    destruct (heatThresholds (alter f i cs)) as [[hot warm] minimum].
    rewrite list_lookup_fmap, Hi in Hc. injection Hc as <-.
    cbn [withHeatLevel heatLevel activityCount lastActivity].
    rewrite Hone. by split_and!.
  - assert (alter f i cs !! j = Some c ∨ ∃ d, alter f i cs !! j = Some d
              ∧ c = withHeatLevel 0 d) as Hd.
    { destruct (updateHeatLevels_lookup _ _ _ Hc) as (d & Hd & Hcd).
      destruct (updateHeatLevels_inactive _ _ _ Hd) as [Hsame|Hzero].
      - rewrite list_lookup_alter_ne in Hd by done.
        apply lookup_resetChunks in Hd as (_ & _ & ->). apply Qle_refl.
      - left. congruence.
      - right. exists d. split; [done|congruence]. }
    rewrite list_lookup_alter_ne in Hd by done.
    destruct Hd as [Hd|(d & Hd & ->)];
      apply lookup_resetChunks in Hd as (Hh & Hl & Ha);
      cbn [withHeatLevel heatLevel activityCount lastActivity];
      rewrite ?Ha; by split_and!.
Qed.

Lemma first_shot_after_reset_witness :
  ∃ c, chunks (teamGrid blue
         (dispatch (fireShot (sampleEnv 7000) 250 130 red)
            (dispatch resetHeatMap sampleWorldShotAt).2).2) !! 12%nat = Some c
       ∧ heatLevel c = 3 ∧ (activityCount c == 1)%Q ∧ lastActivity c = 7000.
Proof.
  eexists. split; [vm_compute; reflexivity|].
  apply (first_shot_after_reset (sampleEnv 7000) sampleWorldShotAt 250 130 red
           12).
  - vm_compute. reflexivity.
  - reflexivity.
  - vm_compute. reflexivity.
Defined.

(** ** Handlers as queues of updates *)

Lemma queuesOnly_pure {A : Type} (h : Handler A) (w : World)
  (R : World → World → Prop) :
  (∀ p, ∃ a l, h w p = (Returned a, {| queue := queue p; locals := l |})) →
  (∀ w0, R w0 w0) →
  queuesOnly h w R.
Proof.
  intros Hh Hrefl p. destruct (Hh p) as (a & l & Heq).
  exists a, l, []. rewrite app_nil_r. split; [done|].
  intros l0 w0 q'. by exists l0, w0.
Qed.

Lemma queuesOnly_ret {A : Type} (a : A) (w : World) (R : World → World → Prop) :
  (∀ w0, R w0 w0) → queuesOnly (mret a) w R.
Proof.
  intros Hrefl. apply queuesOnly_pure; [|done].
  intros [q l]. by exists a, l.
Qed.

Lemma queuesOnly_bind {A B : Type} (m : Handler A) (f : A → Handler B)
  (w : World) (R1 R2 R : World → World → Prop) :
  queuesOnly m w R1 →
  (∀ a, queuesOnly (f a) w R2) →
  (∀ w0 w1 w2, R1 w0 w1 → R2 w1 w2 → R w0 w2) →
  queuesOnly (m ≫= f) w R.
Proof.
  intros Hm Hf Hcomp p.
  destruct (Hm p) as (a & l1 & q1 & Heq1 & Hr1).
  destruct (Hf a {| queue := queue p ++ q1; locals := l1 |})
    as (b & l2 & q2 & Heq2 & Hr2).
  exists b, l2, (q1 ++ q2). split.
  - unfold mbind, Handler_bind. rewrite Heq1, Heq2.
    cbn [queue]. by rewrite app_assoc.
  - intros l0 w0 q'. rewrite <- app_assoc.
    destruct (Hr1 l0 w0 (q2 ++ q')) as (l' & w1 & -> & HR1).
    destruct (Hr2 l' w1 q') as (l'' & w2 & -> & HR2).
    exists l'', w2. split; [done|]. by eapply Hcomp.
Qed.

Lemma queuesOnly_weaken {A : Type} (h : Handler A) (w : World)
  (R R' : World → World → Prop) :
  queuesOnly h w R → (∀ w0 w1, R w0 w1 → R' w0 w1) → queuesOnly h w R'.
Proof.
  intros Hh Himp p. destruct (Hh p) as (a & l & q & Heq & Hr).
  exists a, l, q. split; [done|]. intros l0 w0 q'.
  destruct (Hr l0 w0 q') as (l' & w1 & Hf & HR).
  exists l', w1. split; [done|]. by apply Himp.
Qed.

Lemma queuesOnly_set (t : Team) (u : Updater) (w : World)
  (R : World → World → Prop) :
  (∀ l w0, R w0 (setTeam t (u (teamGrid t w0) l).1 w0)) →
  queuesOnly (setTeamGrid t u) w R.
Proof.
  intros HR p. exists (), (locals p), [ {| upd_team := t; upd_run := u |} ].
  split; [done|]. intros l w0 q'.
  cbn [app flush upd_team upd_run]. specialize (HR l w0).
  destruct (u (teamGrid t w0) l) as [s' l']. by exists l', (setTeam t s' w0).
Qed.

Lemma queuesOnly_dispatch {A : Type} (h : Handler A) (w : World)
  (R : World → World → Prop) :
  queuesOnly h w R →
  ∃ a, (dispatch h w).1 = Returned a ∧ R w (dispatch h w).2.
Proof.
  intros Hh. unfold dispatch.
  destruct (Hh {| queue := []; locals := initLocals |}) as (a & l & q & -> & Hr).
  exists a. split; [done|]. cbn [snd queue locals app].
  destruct (Hr l w []) as (l' & w1 & Hf & HR).
  rewrite app_nil_r in Hf. by rewrite Hf.
Qed.

(** A loop whose every iteration adds one unit of [R] adds as many units
    as it has iterations. *)
Lemma queuesOnly_forEach {A : Type} (l : list A) (body : A → Handler unit)
  (w : World) (R : Z → World → World → Prop) (step : Z) :
  (∀ w0, R 0 w0 w0) →
  (∀ m n w0 w1 w2, R m w0 w1 → R n w1 w2 → R (m + n) w0 w2) →
  (∀ a, a ∈ l → queuesOnly (body a) w (R step)) →
  queuesOnly (forEach l body) w (R (step * Z.of_nat (length l))).
Proof.
  intros Hrefl Hcomp. induction l as [|a l IH]; intros Hbody.
  - cbn [forEach length]. rewrite Z.mul_0_r. by apply queuesOnly_ret.
  - cbn [forEach]. eapply queuesOnly_bind.
    + apply Hbody, list_elem_of_here.
    + intros _. apply IH. intros b Hb. by apply Hbody, list_elem_of_further.
    + intros w0 w1 w2 H1 H2.
      replace (step * Z.of_nat (length (a :: l)))
        with (step + step * Z.of_nat (length l)) by (cbn [length]; lia).
      by eapply Hcomp.
Qed.

(** ** Random numbers *)

Lemma randomIndex_range (r : Q) (n : Z) :
  unitDraw r → 0 < n → 0 ≤ randomIndex r n < n.
Proof.
  intros [Hr0 Hr1] Hn. unfold randomIndex.
  assert ((0 < inject_Z n)%Q) as Hn' by (by rewrite Zlt_Qlt in Hn).
  split.
  - change 0 with (Qfloor (inject_Z 0)) at 1. apply Qfloor_resp_le.
    by apply Qmult_le_0_compat; [|apply Qlt_le_weak].
  - rewrite Zlt_Qlt. eapply Qle_lt_trans; [apply Qfloor_le|].
    rewrite <- (Qmult_1_l (inject_Z n)) at 2.
    by apply Qmult_lt_compat_r.
Qed.


(** ** Total activity *)

Lemma totalActivity_sameCount (l1 l2 : list Chunk) :
  Forall2 sameCount l1 l2 → totalActivity l1 = totalActivity l2.
Proof.
  induction 1 as [|c d l1 l2 Hcd _ IH]; [done|].
  unfold totalActivity in *. cbn [foldr]. by rewrite Hcd, IH.
Qed.

Lemma totalActivity_updateHeatLevels (cs : list Chunk) :
  totalActivity (updateHeatLevels cs) = totalActivity cs.
Proof.
  symmetry. apply totalActivity_sameCount, sameCount_updateHeatLevels.
Qed.

Lemma totalActivity_alter (f : Chunk → Chunk) (i : nat) (cs : list Chunk)
  (c : Chunk) (k : Q) :
  cs !! i = Some c →
  (activityCount (f c) == activityCount c + k)%Q →
  (totalActivity (alter f i cs) == totalActivity cs + k)%Q.
Proof.
  revert i. induction cs as [|d cs IH]; intros [|i] Hc Hf; try done.
  - injection Hc as ->. cbn [alter list_alter totalActivity foldr].
    rewrite Hf. ring.
  - cbn [alter list_alter totalActivity foldr].
    change (foldr _ 0%Q (list_alter f i cs)) with (totalActivity (alter f i cs)).
    rewrite (IH i Hc Hf). unfold totalActivity. cbn [foldr]. ring.
Qed.

Lemma totalActivity_resetChunks (cs : list Chunk) :
  (totalActivity (resetChunks cs) == 0)%Q.
Proof.
  induction cs as [|c cs IH]; [done|].
  cbn [resetChunks map totalActivity foldr activityCount].
  change (foldr _ 0%Q (map _ cs)) with (totalActivity (resetChunks cs)).
  rewrite IH. ring.
Qed.

Lemma totalActivity_activityUpdater (e : Env) (x y : Z) (s : TeamGridState) :
  wf_chunks (chunks s) → inBounds x y = true →
  (totalActivity
     (chunks (activityUpdater e (x / CELLS_PER_CHUNK) (y / CELLS_PER_CHUNK) s))
   == totalActivity (chunks s) + 1)%Q.
Proof.
  intros Hwf Hb. unfold activityUpdater. cbn [withChunks chunks].
  rewrite totalActivity_updateHeatLevels.
  destruct (findChunkIndex_wf (chunks s) x y Hwf Hb) as (-> & c & Hc & _).
  apply (totalActivity_alter _ _ _ c); [done|].
  cbn [withLastActivity withActivityCount activityCount].
  apply bumpActivity_spec.
Qed.

(** ** The steps of a simulated battle *)

Lemma battleStep_refl (w : World) : battleStep (λ _, 0) w w.
Proof.
  intros Hw. split; [done|]. intros u. cbn. ring.
Qed.

Lemma battleStep_compose (k1 k2 k : Team → Z) (w0 w1 w2 : World) :
  (∀ u, k u = k1 u + k2 u) →
  battleStep k1 w0 w1 → battleStep k2 w1 w2 → battleStep k w0 w2.
Proof.
  intros Hk H1 H2 Hw0. destruct (H1 Hw0) as [Hw1 Hs1].
  destruct (H2 Hw1) as [Hw2 Hs2]. split; [done|]. intros u.
  rewrite Hs2, Hs1, Hk, inject_Z_plus. ring.
Qed.

Lemma battleStep_team (k : Z) (v : Team) (s' : TeamGridState) (w0 : World) :
  (wf_grid (grid (teamGrid v w0)) → wf_grid (grid s')) →
  (wf_chunks (chunks (teamGrid v w0)) →
   wf_chunks (chunks s')
   ∧ (totalActivity (chunks s')
      == totalActivity (chunks (teamGrid v w0)) + inject_Z k)%Q) →
  battleStep (shotsAt v k) w0 (setTeam v s' w0).
Proof.
  intros Hg Hc Hw0. destruct (Hw0 v) as [Hg0 Hc0].
  destruct (Hc Hc0) as [Hc' Hsum]. split.
  - intros u. destruct (decide (u = v)) as [->|Hu].
    + rewrite teamGrid_setTeam. split; [by apply Hg|done].
    + rewrite teamGrid_setTeam_ne by done. apply Hw0.
  - intros u. unfold shotsAt. destruct (decide (u = v)) as [->|Hu].
    + by rewrite teamGrid_setTeam.
    + rewrite teamGrid_setTeam_ne by done. cbn. ring.
Qed.

Lemma truthy_generateOwner (r : string) :
  truthy (Some (generateOwner r)) = Some (generateOwner r).
Proof. unfold truthy, generateOwner. by rewrite bool_decide_eq_false_2. Qed.

Lemma battleStep_idle_trans (w0 w1 w2 : World) :
  battleStep (λ _, 0) w0 w1 → battleStep (λ _, 0) w1 w2 →
  battleStep (λ _, 0) w0 w2.
Proof. by apply battleStep_compose. Qed.

Lemma queuesOnly_bind_idle {A B : Type} (m : Handler A) (f : A → Handler B)
  (w : World) :
  queuesOnly m w (battleStep (λ _, 0)) →
  (∀ a, queuesOnly (f a) w (battleStep (λ _, 0))) →
  queuesOnly (m ≫= f) w (battleStep (λ _, 0)).
Proof.
  intros Hm Hf. eapply queuesOnly_bind; [done..|apply battleStep_idle_trans].
Qed.

Lemma queuesOnly_ext {A : Type} (h h' : Handler A) (w : World)
  (R : World → World → Prop) :
  (∀ p, h w p = h' w p) → queuesOnly h' w R → queuesOnly h w R.
Proof. intros Heq Hh p. rewrite Heq. apply Hh. Qed.

Lemma queuesOnly_readGrid {A : Type} (t : Team) (f : Grid → Handler A)
  (w : World) (R : World → World → Prop) :
  queuesOnly (f (grid (teamGrid t w))) w R →
  queuesOnly (readGrid t ≫= f) w R.
Proof. by apply queuesOnly_ext. Qed.

Lemma queuesOnly_lift {A B : Type} (a : A) (f : A → Handler B) (w : World)
  (R : World → World → Prop) :
  queuesOnly (f a) w R → queuesOnly (liftOutcome (Returned a) ≫= f) w R.
Proof. by apply queuesOnly_ext. Qed.

(** A placement, as one step of a handler: it returns, and the update it
    may queue keeps the states well formed and the activity as it is. *)
Lemma processAction_place_queues (e : Env) (action : BattleAction) (t : Team)
  (w : World) :
  act_type action = PLACE_SHIP → team action = Some t →
  wf_grid (grid (teamGrid t w)) →
  queuesOnly (processAction e action) w (battleStep (λ _, 0)).
Proof.
  intros Htype Hteam Hwf. unfold processAction. rewrite Htype, Hteam.
  cbn [default from_option id].
  destruct (shipCells action) as [cells|];
    [|by apply queuesOnly_ret, battleStep_refl].
  destruct (truthy (owner action)) as [o|];
    [|by apply queuesOnly_ret, battleStep_refl].
  apply queuesOnly_readGrid.
  destruct (isValidShipPlacement_returns (now e) _ cells Hwf) as [valid ->].
  apply queuesOnly_lift.
  destruct valid; cbn [negb]; [|by apply queuesOnly_ret, battleStep_refl].
  apply queuesOnly_bind_idle;
    [|intros _; apply queuesOnly_ret, battleStep_refl].
  apply queuesOnly_set. intros l w0. cbn [pureUpdater fst].
  eapply (battleStep_compose (shotsAt t 0) (λ _, 0));
    [|apply battleStep_team|apply battleStep_refl].
  - intros u. unfold shotsAt. by destruct (decide _).
  - apply wf_grid_placeUpdater.
  - intros Hc. split; [done|]. cbn [placeUpdater chunks]. cbn. ring.
Qed.

Lemma battleStep_team_idle (v : Team) (s' : TeamGridState) (w0 : World) :
  (wf_grid (grid (teamGrid v w0)) → wf_grid (grid s')) →
  chunks s' = chunks (teamGrid v w0) →
  battleStep (λ _, 0) w0 (setTeam v s' w0).
Proof.
  intros Hg Hc.
  eapply (battleStep_compose (shotsAt v 0) (λ _, 0));
    [|apply battleStep_team|apply battleStep_refl].
  - intros u. unfold shotsAt. by destruct (decide _).
  - done.
  - rewrite Hc. intros Hwf. split; [done|]. cbn. ring.
Qed.

(** The ship branch of a shot queues the ship updater and nothing else:
    the variable it tests is still [false]. *)
Lemma fire_ship_branch (e : Env) (cell : CellState) (target : Team)
  (w : World) (p : Pending) :
  (declareLocals initLocals ;;
   setTeamGrid target (shipHitUpdater cell) ;;
   l ← readLocals;
   if shipWasDestroyed l && (0 <? Z.of_nat (length (destroyedShipCells l)))
   then applyCooldownToShipArea e (destroyedShipCells l) target
   else mret ()) w p
  = (Returned (),
     {| queue := queue p ++ [ {| upd_team := target;
                                 upd_run := shipHitUpdater cell |} ];
        locals := initLocals |}).
Proof. reflexivity. Qed.

(** A shot at a cell of the grid, as one step of a handler: it returns,
    and what it queues adds one to the activity of the target team. *)
Lemma processAction_fire_queues (e : Env) (action : BattleAction) (t : Team)
  (w : World) :
  act_type action = FIRE → team action = Some t →
  wf_grid (grid (teamGrid (opposite t) w)) →
  inBounds (act_x action) (act_y action) = true →
  queuesOnly (processAction e action) w (battleStep (shotsAt (opposite t) 1)).
Proof.
  intros Htype Hteam Hwf Hb. unfold processAction. rewrite Htype, Hteam.
  cbn [default from_option id].
  eapply (queuesOnly_bind _ _ _ (battleStep (shotsAt (opposite t) 1))
            (battleStep (λ _, 0))).
  - unfold updateChunkActivity, getChunkFromCoords. apply queuesOnly_set.
    intros l w0. cbn [pureUpdater fst]. apply battleStep_team; [done|].
    intros Hc. split; [by apply wf_chunks_activityUpdater|].
    by apply totalActivity_activityUpdater.
  - intros _. apply queuesOnly_readGrid.
    destruct (wf_grid_cellAt _ _ _ Hwf Hb) as [cell ->].
    apply queuesOnly_lift.
    destruct (hit cell); [by apply queuesOnly_ret, battleStep_refl|].
    apply queuesOnly_bind_idle.
    { apply queuesOnly_set. intros l w0. cbn [pureUpdater fst].
      apply battleStep_team_idle; [apply wf_grid_updateCell|done]. }
    intros _. apply queuesOnly_bind_idle;
      [|intros _; apply queuesOnly_ret, battleStep_refl].
    destruct (occupied cell && bool_decide (is_Some (ship cell)));
      [|by apply queuesOnly_ret, battleStep_refl].
    intros p. eexists (), initLocals, _. split; [apply fire_ship_branch|].
    intros l w0 q'. cbn [app flush upd_team upd_run].
    destruct (shipHitUpdater_frame cell (teamGrid (opposite t) w0) l)
      as (Hg & Hc & _).
    destruct (shipHitUpdater cell (teamGrid (opposite t) w0) l) as [s' l'].
    exists l', (setTeam (opposite t) s' w0). split; [done|].
    cbn [fst] in Hg, Hc. apply battleStep_team_idle; [by rewrite Hg|done].
  - intros w0 w1 w2. apply battleStep_compose. intros u. lia.
Qed.

Lemma tryAttempts_returns (g : Grid) (size : Z) (l : list Attempt) :
  wf_grid g → ∃ r, tryAttempts g size l = Returned r.
Proof.
  intros Hwf. induction l as [|a l IH]; cbn [tryAttempts]; [by eexists|].
  destruct (isValidShipPlacement_returns (attemptNow a) g (attemptCells size a) Hwf)
    as [[|] ->]; [by eexists|done].
Qed.

Lemma generateShips_queues (d : nat → ShipDraws) (actionsCount : Z) (t : Team)
  (w : World) :
  wf_grid (grid (teamGrid t w)) →
  queuesOnly (generateShips d actionsCount t) w (battleStep (λ _, 0)).
Proof.
  intros Hwf. unfold generateShips.
  eapply queuesOnly_weaken.
  - apply (queuesOnly_forEach _ _ _ (λ _, battleStep (λ _, 0)) 0);
      [apply battleStep_refl|intros _ _; apply battleStep_idle_trans|].
    intros i _. cbv zeta. apply queuesOnly_readGrid.
    assert (∃ r, match arrayAt SHIP_SIZES
                         (randomIndex (sizeDraw (d i))
                            (Z.of_nat (length SHIP_SIZES))) with
                 | Some sz => generateRandomShipPlacement (attempts (d i))
                                (grid (teamGrid t w)) sz
                 | None => Returned (Some [])
                 end = Returned r) as [r ->].
    { destruct (arrayAt _ _); [by apply tryAttempts_returns|by eexists]. }
    apply queuesOnly_lift.
    destruct r as [[|c cells]|]; try (by apply queuesOnly_ret, battleStep_refl).
    apply queuesOnly_bind_idle;
      [|intros _; apply queuesOnly_ret, battleStep_refl].
    by apply (processAction_place_queues _ _ t).
  - done.
Qed.

Lemma simulateFiring_queues (d : nat → ShotDraws) (t : Team) (count : Z)
  (w : World) :
  wf_grid (grid (teamGrid (opposite t) w)) →
  (∀ i, unitDraw (shotXDraw (d i)) ∧ unitDraw (shotYDraw (d i))) →
  queuesOnly (simulateFiring d t count) w
    (battleStep (shotsAt (opposite t) (Z.max 0 count))).
Proof.
  intros Hwf Hd. unfold simulateFiring.
  eapply queuesOnly_weaken.
  - apply (queuesOnly_forEach _ _ _
             (λ n, battleStep (shotsAt (opposite t) n)) 1).
    + intros w0. eapply (battleStep_compose (λ _, 0) (λ _, 0));
        [|apply battleStep_refl..].
      intros u. unfold shotsAt. by destruct (decide _).
    + intros m n w0 w1 w2. apply battleStep_compose.
      intros u. unfold shotsAt. destruct (decide _); lia.
    + intros i _. cbv zeta.
      eapply queuesOnly_bind;
        [|intros _; apply queuesOnly_ret, battleStep_refl|].
      * apply (processAction_fire_queues _ _ t); [done..|].
        cbn [act_x act_y]. apply inBounds_spec.
        destruct (Hd i) as [Hx Hy].
        split; apply randomIndex_range; done.
      * intros w0 w1 w2. apply battleStep_compose. intros u. lia.
  - intros w0 w1. rewrite length_seq.
    replace (1 * Z.of_nat (Z.to_nat count)) with (Z.max 0 count) by lia.
    done.
Qed.

Lemma resetHeatMap_queues (w : World) :
  queuesOnly resetHeatMap w
    (λ w0 w1, wf_world w0 →
              wf_world w1
              ∧ ∀ u, (totalActivity (chunks (teamGrid u w1)) == 0)%Q).
Proof.
  intros p. eexists (), _, [_; _]. split.
  { unfold resetHeatMap, mbind, Handler_bind, setTeamGrid. cbn [queue locals].
    rewrite <- app_assoc. reflexivity. }
  intros l w0 q'. eexists l, _. split; [reflexivity|].
  intros Hw0. split.
  - intros u. destruct (Hw0 u) as [Hg Hc].
    destruct u; (split; [done|]);
      exact (eq_trans (chunkCoords_resetChunks _) Hc).
  - intros u. destruct u; cbn; apply totalActivity_resetChunks.
Qed.

(** A simulated battle without a test action, as a handler: it returns,
    and its queue resets the activity and then adds the shots. *)
Lemma simulateBattle_queues (d : BattleDraws) (actionsCount : Z)
  (options : option SimOptions) (w : World) :
  options ≫= testAction = None → wf_world w → unitShots d →
  queuesOnly (simulateBattle d actionsCount options) w
    (λ w0 w1, wf_world w0 →
              wf_world w1
              ∧ ∀ u, (totalActivity (chunks (teamGrid u w1))
                      == inject_Z (shotsPerTeam actionsCount))%Q).
Proof.
  intros Hopt Hw Hd. unfold simulateBattle. rewrite Hopt.
  set (k := Qfloor (inject_Z actionsCount * 0.9) / 2).
  eapply (queuesOnly_bind _ _ _ _ (battleStep (λ _, Z.max 0 k)));
    [apply resetHeatMap_queues| |].
  - intros _.
    eapply (queuesOnly_bind _ _ _ (battleStep (λ _, 0)));
      [apply generateShips_queues, Hw| |].
    { intros _. eapply (queuesOnly_bind _ _ _ (battleStep (λ _, 0)));
        [apply generateShips_queues, Hw| |].
      - intros _. cbv zeta. fold k.
        eapply queuesOnly_bind;
          [apply (simulateFiring_queues _ blue), Hd; apply Hw
          |intros _; apply (simulateFiring_queues _ red), Hd; apply Hw|].
        intros w0 w1 w2.
        apply (battleStep_compose _ _ (λ _, Z.max 0 k)).
        intros u. unfold shotsAt.
        destruct u; cbn [opposite]; repeat case_decide; try done; lia.
      - intros w0 w1 w2.
        apply (battleStep_compose _ _ (λ _, Z.max 0 k)). intros u. lia. }
    intros w0 w1 w2. apply battleStep_compose. intros u. lia.
  - intros w0 w1 w2 Hreset Hstep Hw0.
    destruct (Hreset Hw0) as [Hw1 Hzero]. destruct (Hstep Hw1) as [Hw2 Hsum].
    split; [done|]. intros u. rewrite Hsum, Hzero. unfold shotsPerTeam.
    fold k. ring.
Qed.

(** ** Simulated battles *)

(** X10. A simulated battle without a test action returns and keeps both
    teams well formed; afterwards the activity counts of the chunks of
    each team add up to the number of shots this call fired at it, the
    floor of half the floor of 0.9 times the action count: what was
    recorded before the call is gone. *)
Theorem simulateBattle_counts_its_shots (d : BattleDraws) (actionsCount : Z)
  (options : option SimOptions) (w : World) :
  options ≫= testAction = None → wf_world w → unitShots d →
  let res := dispatch (simulateBattle d actionsCount options) w in
  res.1 = Returned ()
  ∧ wf_world res.2
  ∧ ∀ u, (totalActivity (chunks (teamGrid u res.2))
          == inject_Z (shotsPerTeam actionsCount))%Q.
Proof.
  intros Hopt Hw Hd. cbv zeta.
  destruct (queuesOnly_dispatch _ _ _
              (simulateBattle_queues d actionsCount options w Hopt Hw Hd))
    as ([] & Hres & Hpost).
  destruct (Hpost Hw) as [Hw' Hsum]. done.
Qed.

Lemma simulateBattle_counts_its_shots_witness :
  let res := dispatch (simulateBattle sampleBattleDraws 25 None)
               sampleWorldShotAt in
  res.1 = Returned ()
  ∧ wf_world res.2
  ∧ ∀ u, (totalActivity (chunks (teamGrid u res.2)) == 11)%Q.
Proof.
  apply (simulateBattle_counts_its_shots sampleBattleDraws 25 None
           sampleWorldShotAt).
  - reflexivity.
  - intros u. split.
    + apply wf_gridb_spec. destruct u; vm_compute; reflexivity.
    + destruct u; vm_compute; reflexivity.
  - intros t i. unfold unitDraw. cbn. lra.
Defined.

Lemma simulateBattle_silent (d : BattleDraws) (actionsCount : Z)
  (options : option SimOptions) (w : World) (p : Pending) :
  is_Some (options ≫= testAction) → actionsCount ≤ 2 →
  simulateBattle d actionsCount options w p = (Returned (), p).
Proof.
  intros [ta Hta] Hn. unfold simulateBattle, generateShips, simulateFiring.
  rewrite Hta.
  assert (Qfloor (inject_Z actionsCount * 0.1) ≤ 0) as Hships.
  { change 0 with (Qfloor (inject_Z 2 * 0.1)). apply Qfloor_resp_le.
    apply Qmult_le_compat_r; [by rewrite <- Zle_Qle|done]. }
  assert (Qfloor (inject_Z actionsCount * 0.9) / 2 ≤ 0) as Hshots.
  { assert (Qfloor (inject_Z actionsCount * 0.9) ≤ 1) as Hfloor.
    { change 1 with (Qfloor (inject_Z 2 * 0.9)). apply Qfloor_resp_le.
      apply Qmult_le_compat_r; [by rewrite <- Zle_Qle|done]. }
    assert (Qfloor (inject_Z actionsCount * 0.9) / 2 < 1)
      by (apply Z.div_lt_upper_bound; lia).
    lia. }
  cbv zeta.
  replace (Z.to_nat (Qfloor (inject_Z actionsCount * 0.1))) with 0%nat by lia.
  replace (Z.to_nat (Qfloor (inject_Z actionsCount * 0.9) / 2)) with 0%nat
    by lia.
  reflexivity.
Qed.

(** X11. With a test action and an action count of at most 2,
    [simulateBattle] does nothing: it places no ship and fires no shot,
    whatever the test action says, and the state is left as it was. *)
Theorem simulateBattle_test_action_ignored (d : BattleDraws)
  (actionsCount : Z) (options : option SimOptions) (w : World) :
  is_Some (options ≫= testAction) → actionsCount ≤ 2 →
  dispatch (simulateBattle d actionsCount options) w = (Returned (), w).
Proof.
  intros Hta Hn. unfold dispatch.
  by rewrite (simulateBattle_silent d actionsCount options w _ Hta Hn).
Qed.

Lemma simulateBattle_test_action_ignored_witness :
  dispatch (simulateBattle sampleBattleDraws 1
              (Some {| testAction :=
                         Some {| ta_type := FIRE; ta_x := 10; ta_y := 10;
                                 ta_shipSize := None;
                                 ta_isHorizontal := None |} |}))
           scenarioPlaced
  = (Returned (), scenarioPlaced).
Proof.
  apply simulateBattle_test_action_ignored; [by eexists|lia].
Defined.

Lemma forEach_silent {A : Type} (l : list A) (body : A → Handler unit)
  (w : World) (p : Pending) :
  (∀ a, body a w p = (Returned (), p)) →
  forEach l body w p = (Returned (), p).
Proof.
  intros Hbody. induction l as [|a l IH]; [done|].
  cbn [forEach]. unfold mbind, Handler_bind. by rewrite Hbody.
Qed.

Lemma simulateAction_silent (dr : ActionDraws) (x y : Z) (w : World)
  (p : Pending) :
  simulateAction dr x y w p = (Returned (), p).
Proof.
  unfold simulateAction.
  destruct (Qlt_bool _ _); apply simulateBattle_silent; (by eexists) || lia.
Qed.

(** X12. The two generators of the simulation driver return and leave the
    state of the battle as it was, whatever they draw: each of their
    actions goes through [simulateBattle(1, { testAction })], which places
    and fires nothing. *)
Theorem simulation_driver_changes_nothing (d : nat → ActionDraws)
  (dc : nat → Q * Q) (dh : nat → nat → ActionDraws) (w : World) :
  dispatch (simulateWideDistribution d) w = (Returned (), w)
  ∧ dispatch (simulateFocusedHotspots dc dh) w = (Returned (), w).
Proof.
  unfold dispatch, simulateWideDistribution, simulateFocusedHotspots. split.
  - rewrite forEach_silent; [done|]. intros i. apply simulateAction_silent.
  - rewrite forEach_silent; [done|]. intros [k chunk].
    apply forEach_silent. intros i. apply simulateAction_silent.
Qed.

(** ** Random placement *)

Lemma cooldownOver_later (t t' : Z) (cell : CellState) :
  t ≤ t' → cooldownOver t cell = true → cooldownOver t' cell = true.
Proof.
  intros Ht. unfold cooldownOver. destruct (cooldownUntil cell) as [u|]; [|done].
  rewrite !orb_true_iff. lia.
Qed.

Lemma isValidShipPlacement_later (t t' : Z) (g : Grid) (cells : list Coord) :
  t ≤ t' →
  isValidShipPlacement t g cells = Returned true →
  isValidShipPlacement t' g cells = Returned true.
Proof.
  intros Ht. unfold isValidShipPlacement. rewrite !every_true.
  intros H. eapply Forall_impl; [exact H|]. clear H. intros c. cbv beta.
  destruct (inBounds (cx c) (cy c)); [|done].
  destruct (cellAt g (cx c) (cy c)) as [cell|]; [|done].
  intros [= H]. f_equal. apply andb_true_iff in H as [-> H].
  by rewrite (cooldownOver_later t t' cell Ht H).
Qed.

Lemma tryAttempts_Some (g : Grid) (size : Z) (l : list Attempt)
  (cells : list Coord) :
  tryAttempts g size l = Returned (Some cells) →
  ∃ a, a ∈ l ∧ cells = attemptCells size a
       ∧ isValidShipPlacement (attemptNow a) g cells = Returned true.
Proof.
  induction l as [|a l IH]; cbn [tryAttempts]; [done|].
  destruct (isValidShipPlacement _ g (attemptCells size a)) as [[|]|] eqn:Hv;
    [| |done].
  - intros [= <-]. exists a. split; [apply list_elem_of_here|done].
  - intros H. destruct (IH H) as (a' & Hin & Hcells & Hvalid).
    exists a'. split; [by apply list_elem_of_further|done].
Qed.

(** X13. The cells [generateRandomShipPlacement] returns are a straight
    line of [size] cells, and a placement of exactly these cells on the
    grid they were drawn for is accepted, at the time of the draw or
    later, whoever the non-empty owner is. *)
Theorem random_placement_is_accepted (draws : nat → Attempt) (e : Env)
  (w : World) (t : Team) (size : Z) (cells : list Coord)
  (action : BattleAction) :
  generateRandomShipPlacement draws (grid (teamGrid t w)) size
    = Returned (Some cells) →
  (∀ i, attemptNow (draws i) ≤ now e) →
  act_type action = PLACE_SHIP → team action = Some t →
  shipCells action = Some cells → is_Some (truthy (owner action)) →
  (∃ x y horizontal, cells = shipCellsFrom x y size horizontal)
  ∧ (dispatch (processAction e action) w).1 = Returned true.
Proof.
  intros Hgen Hnow Htype Hteam Hcells [o Ho].
  apply tryAttempts_Some in Hgen as (a & Hin & -> & Hvalid).
  split; [unfold attemptCells; by eexists _, _, _|].
  apply list_elem_of_fmap in Hin as (i & -> & _).
  apply (isValidShipPlacement_later _ (now e)) in Hvalid; [|apply Hnow].
  unfold dispatch, processAction. rewrite Htype, Hteam, Hcells, Ho.
  unfold mbind, Handler_bind, mret, Handler_ret, readGrid, liftOutcome,
    setTeamGrid.
  cbn [default from_option id]. by rewrite Hvalid.
Qed.

Lemma random_placement_is_accepted_witness :
  (∃ x y horizontal,
     shipCellsFrom 500 498 3 false = shipCellsFrom x y 3 horizontal)
  ∧ (dispatch
       (processAction (sampleEnv 9000)
          {| act_type := PLACE_SHIP; act_x := 500; act_y := 498;
             shipId := Some "id"; owner := Some "anon-o";
             shipCells := Some (shipCellsFrom 500 498 3 false);
             timestamp := 9000; team := Some blue |})
       scenarioPlaced).1 = Returned true.
Proof.
  apply (random_placement_is_accepted (λ _, sampleAttempt) (sampleEnv 9000)
           scenarioPlaced blue 3).
  - vm_compute. reflexivity.
  - intros i. cbn. lia.
  - reflexivity.
  - reflexivity.
  - reflexivity.
  - by eexists.
Defined.

(** X14. With random numbers drawn from [0, 1) and a size from 1 to
    [GRID_SIZE] - 1, every cell an attempt proposes lies inside the grid;
    a horizontal proposal never reaches the last column and a vertical
    one never reaches the last row. *)
Theorem random_attempt_inside_grid (size : Z) (a : Attempt) (c : Coord) :
  unitDraw (xDraw a) → unitDraw (yDraw a) → 0 < size < GRID_SIZE →
  c ∈ attemptCells size a →
  inBounds (cx c) (cy c) = true
  ∧ (if Qlt_bool 0.5 (orientationDraw a)
     then cx c ≤ GRID_SIZE - 2 else cy c ≤ GRID_SIZE - 2).
Proof.
  intros Hx Hy Hsize. unfold attemptCells, shipCellsFrom.
  rewrite list_elem_of_fmap. intros (i & -> & Hi).
  apply elem_of_seqZ in Hi. cbn [cx cy]. rewrite inBounds_spec.
  unfold GRID_SIZE in *.
  destruct (Qlt_bool 0.5 (orientationDraw a)).
  - pose proof (randomIndex_range (xDraw a) (1000 - size) Hx).
    pose proof (randomIndex_range (yDraw a) 1000 Hy). lia.
  - pose proof (randomIndex_range (xDraw a) 1000 Hx).
    pose proof (randomIndex_range (yDraw a) (1000 - size) Hy). lia.
Qed.

Lemma random_attempt_inside_grid_witness :
  inBounds 500 499 = true ∧ 499 ≤ GRID_SIZE - 2.
Proof.
  apply (random_attempt_inside_grid 3 sampleAttempt {| cx := 500; cy := 499 |}).
  - unfold unitDraw. cbn. lra.
  - unfold unitDraw. cbn. lra.
  - unfold GRID_SIZE. lia.
  - vm_compute. apply list_elem_of_further, list_elem_of_here.
Defined.

(** ** Cell clicks *)

Lemma dispatch_then_ret {A B : Type} (m : Handler A) (b : B) (w : World) :
  dispatch (m ;; mret b) w =
  (match (dispatch m w).1 with Returned _ => Returned b | Thrown => Thrown end,
   (dispatch m w).2).
Proof.
  unfold dispatch, mbind, Handler_bind, mret, Handler_ret.
  by destruct (m w _) as [[a|] p].
Qed.


(** X15. A cell click changes at most the team state the grid displays:
    the opponent's in the attack view, where it fires, and the player's
    own in the defend view, where it places a ship.  The state of the
    other team and the player's name are as before. *)
Theorem click_changes_only_the_grid_shown (e : Env) (sel : TeamSelection)
  (c : Controls) (x y : Z) (w : World) :
  let w' := (dispatch (handleCellClick e sel c x y) w).2 in
  teamGrid (opposite (shownTeam sel)) w' = teamGrid (opposite (shownTeam sel)) w
  ∧ playerRand w' = playerRand w.
Proof.
  cbv zeta. unfold handleCellClick, shownTeam.
  destruct (activeView sel); rewrite dispatch_then_ret; cbn [snd].
  - destruct (fireShot_frame e w x y (selectedTeam sel)) as (Hown & Hrand & _).
    split; [|done]. by destruct (selectedTeam sel).
  - rewrite dispatch_placeShip. cbv zeta.
    destruct (isValidShipPlacement _ _ _) as [[|]|]; cbn [fst snd]; [|done..].
    split; [|apply playerRand_setTeam].
    apply teamGrid_setTeam_ne. by destruct (selectedTeam sel).
Qed.

(** X16. The [BattleField] that keeps a [gameMode] state starts in the
    mode [fire] and never leaves it: its mode toggle does nothing, so
    every cell click fires a shot for the selected team and none places a
    ship. *)
Theorem field_only_fires (sel : TeamSelection) (c : Controls)
  (l : list FieldEvent) (w : World) :
  runField sel c l fire w = (fire, runOps (shotsOf sel l) w).
Proof.
  revert w. induction l as [|[e x y|] l IH]; intros w; [done| |apply IH].
  cbn [runField handleCellClickByMode].
  rewrite dispatch_then_ret.
  unfold shotsOf. cbn [mbind list_bind app runOps runOp].
  rewrite <- IH. by destruct (dispatch (fireShot _ _ _ _) w).1.
Qed.

(** ** The placement preview *)

Lemma inCooldown_cooldownOver (t : Z) (cell : CellState) :
  cooldownUntil cell ≠ Some t →
  inCooldown t cell = negb (cooldownOver t cell).
Proof.
  unfold inCooldown, cooldownOver. destruct (cooldownUntil cell) as [u|]; [|done].
  intros Hne. assert (u ≠ t) by congruence.
  destruct (u =? 0) eqn:H0; cbn [negb andb orb]; [done|].
  destruct (t <? u) eqn:H1, (u <? t) eqn:H2; cbn [negb]; try done; lia.
Qed.

(** X17. The preview and the placement agree: unless the cooldown of a
    covered cell ends at exactly the current millisecond, clicking places
    the ship ([placeShip] returns [true]) exactly when the validity test
    of the preview for the hovered cell holds at that instant, and
    [placeShip] raises exactly when the preview does. *)
Theorem preview_agrees_with_placement (e : Env) (w : World) (x y size : Z)
  (horizontal : bool) (t : Team) :
  (∀ c cell, c ∈ shipCellsFrom x y size horizontal →
     cellAt (grid (teamGrid t w)) (cx c) (cy c) = Some cell →
     cooldownUntil cell ≠ Some (now e)) →
  (dispatch (placeShip e x y size horizontal t) w).1
  = previewIsValid (now e) (grid (teamGrid t w))
      (shipCellsFrom x y size horizontal).
Proof.
  intros Hedge. rewrite dispatch_placeShip. cbv zeta.
  assert (isValidShipPlacement (now e) (grid (teamGrid t w))
            (shipCellsFrom x y size horizontal)
          = previewIsValid (now e) (grid (teamGrid t w))
              (shipCellsFrom x y size horizontal)) as <-.
  { unfold isValidShipPlacement, previewIsValid.
    induction (shipCellsFrom x y size horizontal) as [|c cells IH];
      [done|].
    cbn [every].
    rewrite IH by (intros c' cell Hc'; apply Hedge; by apply list_elem_of_further).
    assert (inBounds (cx c) (cy c)
            = negb ((cx c <? 0) || (GRID_SIZE <=? cx c)
                    || (cy c <? 0) || (GRID_SIZE <=? cy c))) as ->.
    { unfold inBounds. destruct (cx c <? 0) eqn:?, (GRID_SIZE <=? cx c) eqn:?,
        (cy c <? 0) eqn:?, (GRID_SIZE <=? cy c) eqn:?,
        (0 <=? cx c) eqn:?, (cx c <? GRID_SIZE) eqn:?,
        (0 <=? cy c) eqn:?, (cy c <? GRID_SIZE) eqn:?; cbn; try done; lia. }
    destruct (_ || _); cbn [negb]; [done|].
    destruct (cellAt _ (cx c) (cy c)) as [cell|] eqn:Hcell; [|done].
    rewrite (inCooldown_cooldownOver (now e) cell)
      by (by apply (Hedge c); [apply list_elem_of_here|]).
    by destruct (occupied cell), (cooldownOver (now e) cell). }
  by destruct (isValidShipPlacement _ _ _) as [[|]|].
Qed.

Lemma preview_agrees_with_placement_witness :
  (dispatch (placeShip (sampleEnv 6000) 9 10 2 true blue) sampleWorldCooled).1
  = previewIsValid 6000 (grid (teamGrid blue sampleWorldCooled))
      (shipCellsFrom 9 10 2 true).
Proof.
  apply (preview_agrees_with_placement (sampleEnv 6000) sampleWorldCooled
           9 10 2 true blue).
  intros c cell Hc.
  apply list_elem_of_fmap in Hc as (i & -> & Hi). apply elem_of_seqZ in Hi.
  assert (i = 0 ∨ i = 1) as [-> | ->] by lia; vm_compute;
    intros [= <-]; discriminate.
Defined.

(** ** The mouse on the grid *)

Lemma within_spec (n : Z) (i j : option Z) (c : Coord) :
  within n i j = Some c → 0 ≤ cx c < n ∧ 0 ≤ cy c < n.
Proof.
  unfold within. destruct i as [x|], j as [y|]; try done.
  destruct (_ && _) eqn:H; [|done]. intros [= <-]. cbn [cx cy]. lia.
Qed.

Lemma hoverInside_initial : hoverInside initialGridUi.
Proof. by split. Qed.

Lemma hoverInside_step (s : MouseStep) (ui : GridUi) :
  hoverInside ui → hoverInside (mouseStep s ui).1.
Proof.
  intros [Hcell Hchunk]. unfold mouseStep.
  destruct (stepKind s).
  - unfold handleMouseMove. destruct (stepCanvas s) as [cv|]; [|done].
    assert (∀ c, (if negb (isZoomedIn (stepView s)) && negb (isDragging ui)
                  then within CHUNK_SIZE
                         (floorDiv (clientX (stepEvent s) - rectLeft cv
                                    + px (viewportPosition (stepView s)))
                            (inject_Z CELLS_PER_CHUNK * cellSize (stepView s)))
                         (floorDiv (clientY (stepEvent s) - rectTop cv
                                    + py (viewportPosition (stepView s)))
                            (inject_Z CELLS_PER_CHUNK * cellSize (stepView s)))
                  else hoveredChunk ui) = Some c →
                 0 ≤ cx c < CHUNK_SIZE ∧ 0 ≤ cy c < CHUNK_SIZE) as Hchunk'.
    { intros c. destruct (_ && _); [apply within_spec|apply Hchunk]. }
    destruct (isDragging ui), (dragStart ui); (split; [|exact Hchunk']);
      cbn [fst hoveredCell]; try done;
      intros c Hc%within_spec; apply inBounds_spec; exact Hc.
  - unfold handleMouseDown. by destruct (_ =? _).
  - unfold handleMouseUp. by destruct (_ =? _).
  - by split.
Qed.

Lemma handleCellClick_returns (e : Env) (sel : TeamSelection) (c : Controls)
  (x y : Z) (w : World) :
  wf_world w → inBounds x y = true →
  (dispatch (handleCellClick e sel c x y) w).1 = Returned ().
Proof.
  intros Hw Hb. unfold handleCellClick.
  destruct (activeView sel); rewrite dispatch_then_ret; cbn [fst].
  - rewrite dispatch_fireShot. cbv zeta.
    destruct (wf_grid_cellAt _ x y (proj1 (Hw (opposite (selectedTeam sel)))) Hb)
      as [cell ->].
    destruct (hit cell); [done|]. by destruct (_ && _).
  - rewrite dispatch_placeShip. cbv zeta.
    destruct (isValidShipPlacement_returns (now e) _
                (shipCellsFrom x y (selectedShipSize c) (isHorizontal c))
                (proj1 (Hw (selectedTeam sel)))) as [[|] ->]; done.
Qed.

(** X18. Whatever the mouse does on the grid, every cell click the
    component reports is a cell of the grid, so handling it returns on a
    well-formed state, with no exception; and every chunk it zooms to is
    one of the chunks of the grid. *)
Theorem grid_clicks_are_inside (l : list MouseStep) (call : UiCall) :
  call ∈ mouseCalls l initialGridUi →
  match call with
  | CellClick x y =>
      inBounds x y = true
      ∧ ∀ e sel c w, wf_world w →
          (dispatch (handleCellClick e sel c x y) w).1 = Returned ()
  | ZoomToChunk chunk =>
      0 ≤ cx chunk < CHUNK_SIZE ∧ 0 ≤ cy chunk < CHUNK_SIZE
  | SetViewport _ => True
  end.
Proof.
  generalize hoverInside_initial. generalize initialGridUi.
  induction l as [|s l IH]; intros ui Hui; cbn [mouseCalls].
  { by intros ?%elem_of_nil. }
  pose proof (hoverInside_step s ui Hui) as Hui'.
  destruct (mouseStep s ui) as [ui' calls] eqn:Hstep. cbn [fst] in Hui'.
  rewrite elem_of_app. intros [Hin|Hin]; [|by apply (IH ui')].
  destruct Hui as [Hcell Hchunk]. clear IH Hui'.
  unfold mouseStep in Hstep. destruct (stepKind s).
  - unfold handleMouseMove in Hstep.
    destruct (stepCanvas s); [|injection Hstep as <- <-; by apply elem_of_nil in Hin].
    destruct (isDragging ui), (dragStart ui); injection Hstep as <- <-;
      try (by apply elem_of_nil in Hin).
    by apply list_elem_of_singleton in Hin as ->.
  - unfold handleMouseDown in Hstep.
    destruct (_ =? _); injection Hstep as <- <-; by apply elem_of_nil in Hin.
  - unfold handleMouseUp in Hstep.
    destruct (_ =? _); injection Hstep as <- <-;
      [|by apply elem_of_nil in Hin].
    destruct (isDragging ui), (dragStart ui), (stepCanvas s);
      try (by apply elem_of_nil in Hin).
    destruct (_ && _); [|by apply elem_of_nil in Hin].
    destruct (hoveredChunk ui) as [chunk|] eqn:Hhc,
      (isZoomedIn (stepView s)), (hoveredCell ui) as [cell|] eqn:Hcl;
      try (by apply elem_of_nil in Hin);
      apply list_elem_of_singleton in Hin as ->;
      try (by apply Hchunk);
      (split; [by apply Hcell|]);
      intros e sel ctl w Hw; apply handleCellClick_returns; try done;
      by apply Hcell.
  - injection Hstep as <- <-. by apply elem_of_nil in Hin.
Qed.

Lemma grid_clicks_are_inside_witness :
  inBounds 10 5 = true
  ∧ ∀ e sel c w, wf_world w →
      (dispatch (handleCellClick e sel c 10 5) w).1 = Returned ().
Proof.
  apply (grid_clicks_are_inside sampleClick (CellClick 10 5)).
  vm_compute. apply list_elem_of_here.
Defined.

(** ** The viewport *)

Lemma Math_max_spec (a b : Q) :
  (a <= Math_max a b)%Q ∧ (b <= Math_max a b)%Q
  ∧ (Math_max a b = a ∨ Math_max a b = b).
Proof.
  unfold Math_max. destruct (Qle_bool a b) eqn:H.
  - apply Qle_bool_iff in H. split_and!; [done|apply Qle_refl|by right].
  - split_and!; [apply Qle_refl| |by left].
    apply Qlt_le_weak, Qnot_le_lt. intros Hab. apply Qle_bool_iff in Hab.
    congruence.
Qed.

Lemma Math_min_spec (a b : Q) :
  (Math_min a b <= a)%Q ∧ (Math_min a b <= b)%Q
  ∧ (Math_min a b = a ∨ Math_min a b = b).
Proof.
  unfold Math_min. destruct (Qle_bool a b) eqn:H.
  - apply Qle_bool_iff in H. split_and!; [apply Qle_refl|done|by left].
  - split_and!; [|apply Qle_refl|by right].
    apply Qlt_le_weak, Qnot_le_lt. intros Hab. apply Qle_bool_iff in Hab.
    congruence.
Qed.

(** A position clamped as every scrolling updater clamps it. *)
Lemma clamped_between (a m : Q) :
  (0 <= Math_min (Math_max 0 a) (Math_max 0 m))%Q
  ∧ (Math_min (Math_max 0 a) (Math_max 0 m) <= Math_max 0 m)%Q.
Proof.
  destruct (Math_min_spec (Math_max 0 a) (Math_max 0 m)) as (_ & H2 & Hcase).
  split; [|exact H2].
  destruct Hcase as [-> | ->]; apply (proj1 (Math_max_spec 0 _)).
Qed.

Lemma moveViewport_onGrid (v : ViewState) (cv : Canvas) (dx dy : Q)
  (prev : Point) :
  onGrid v cv (moveViewport v (Some cv) dx dy prev).
Proof.
  unfold onGrid, moveViewport. cbn [px py].
  split_and!; apply clamped_between.
Qed.

Lemma limitDelta_bound (d m : Q) : (0 <= m)%Q → (Qabs (limitDelta d m) <= m)%Q.
Proof.
  intros Hm. unfold limitDelta.
  assert (0 <= Math_min (Qabs d) m)%Q as Hmin.
  { destruct (Math_min_spec (Qabs d) m) as (_ & _ & [-> | ->]);
      [apply Qabs_nonneg|done]. }
  destruct (Math_min_spec (Qabs d) m) as (_ & Hle & _).
  rewrite Qabs_Qmult, (Qabs_pos (Math_min _ _)) by done.
  destruct (Qlt_bool 0 d); [|destruct (Qlt_bool d 0)].
  - change (Qabs 1) with 1%Q. by rewrite Qmult_1_l.
  - change (Qabs (-1)) with 1%Q. by rewrite Qmult_1_l.
  - change (Qabs 0) with 0%Q. by rewrite Qmult_0_l.
Qed.

(** A clamped move by [d] ends within [|d|] of an in-range start. *)
Lemma clamped_move_bound (a d m : Q) :
  (0 <= a)%Q → (a <= Math_max 0 m)%Q →
  (Qabs (Math_min (Math_max 0 (a + d)) (Math_max 0 m) - a) <= Qabs d)%Q.
Proof.
  intros Ha Ham.
  destruct (Math_min_spec (Math_max 0 (a + d)) (Math_max 0 m))
    as (Hmin1 & Hmin2 & Hmin).
  destruct (Math_max_spec 0 (a + d)) as (Hmax1 & Hmax2 & Hmax).
  apply Qabs_Qle_condition.
  pose proof (Qle_Qabs d) as Hd1. pose proof (Qle_Qabs (- d)) as Hd2.
  rewrite Qabs_opp in Hd2. pose proof (Qabs_nonneg d) as Hd3.
  set (x := Math_max 0 (a + d)) in *. set (y := Math_max 0 m) in *.
  set (z := Math_min x y) in *.
  assert (z == x ∨ z == y)%Q as Hz by (destruct Hmin as [-> | ->]; auto with qarith).
  assert (x == 0 ∨ x == a + d)%Q as Hx by (destruct Hmax as [-> | ->]; auto with qarith).
  clearbody x y z. clear Hmin Hmax.
  destruct Hz as [Hz|Hz], Hx as [Hx|Hx]; split; lra.
Qed.

(** X19. With a canvas, dragging and the wheel never scroll off the grid:
    the position either updater computes, from any previous position,
    is not negative and not beyond the far edge of the grid less the
    canvas.  One wheel event moves a position that is on the grid by at
    most 30 pixels in each direction. *)
Theorem scrolling_stays_on_grid (v : ViewState) (cv : Canvas) (prev : Point) :
  (∀ e ui u, SetViewport u ∈ (handleMouseMove v (Some cv) e ui).2 →
     onGrid v cv (u prev))
  ∧ (∀ wheelX wheelY u, SetViewport u ∈ handleWheel v (Some cv) wheelX wheelY →
       onGrid v cv (u prev)
       ∧ (onGrid v cv prev →
          (Qabs (px (u prev) - px prev) <= 30)%Q
          ∧ (Qabs (py (u prev) - py prev) <= 30)%Q)).
Proof.
  split.
  - intros e ui u. unfold handleMouseMove.
    destruct (isDragging ui), (dragStart ui); cbn [snd];
      try (by intros ?%elem_of_nil).
    intros Hu%list_elem_of_singleton. injection Hu as ->.
    apply moveViewport_onGrid.
  - intros wheelX wheelY u. unfold handleWheel.
    destruct (if Qlt_bool _ _ then _ else _) as [deltaX deltaY].
    intros Hu%list_elem_of_singleton. injection Hu as ->.
    split; [apply moveViewport_onGrid|].
    intros (Hx0 & Hx1 & Hy0 & Hy1). unfold moveViewport. cbn [px py]. split.
    + eapply Qle_trans; [by apply clamped_move_bound|].
      by apply limitDelta_bound.
    + eapply Qle_trans; [by apply clamped_move_bound|].
      by apply limitDelta_bound.
Qed.


Lemma Math_max_equiv (a b b' : Q) :
  (b == b')%Q → (Math_max a b == Math_max a b')%Q.
Proof.
  intros Hb. unfold Math_max.
  assert (Qle_bool a b = Qle_bool a b') as ->.
  { destruct (Qle_bool a b') eqn:H.
    - apply Qle_bool_iff. apply Qle_bool_iff in H. by rewrite Hb.
    - destruct (Qle_bool a b) eqn:H'; [|done].
      apply Qle_bool_iff in H'. rewrite Hb in H'. apply Qle_bool_iff in H'.
      congruence. }
  by destruct (Qle_bool a b').
Qed.

(** X20. With a canvas, the two other ways to move the viewport keep it on
    the grid as well: a press or a drag on the mini-map, for any point of
    the mini-map or outside it, and the position the timer of
    [zoomToChunk] centres the chunk at, measured in the zoomed cell
    size. *)
Theorem navigation_stays_on_grid (v : ViewState) (cv : Canvas) :
  (∀ x y, onGrid v cv (miniMapCoordsToViewport v (Some cv) x y))
  ∧ (∀ chunk,
       let v' := zoomTimeout chunk (Some cv) (zoomToChunk chunk v) in
       onGrid v' cv (viewportPosition v')).
Proof.
  split.
  - intros x y. unfold miniMapCoordsToViewport, onGrid. cbn [px py].
    assert (∀ a m m', (m == m')%Q →
              (0 <= Math_max 0 (Math_min a m))%Q
              ∧ (Math_max 0 (Math_min a m) <= Math_max 0 m')%Q) as Hclamp.
    { intros a m m' Hm. split; [apply Math_max_spec|].
      rewrite <- (Math_max_equiv 0 m m' Hm).
      destruct (Math_max_spec 0 (Math_min a m)) as (_ & _ & [-> | ->]);
        [apply Math_max_spec|].
      eapply Qle_trans; [apply Math_min_spec|apply Math_max_spec]. }
    assert (inject_Z (CHUNK_SIZE * CELLS_PER_CHUNK) * (2.5 * cellSizeMultiplier v)
            == totalGridWidth v)%Q as Hw.
    { unfold totalGridWidth, cellSize. rewrite inject_Z_mult. ring. }
    unfold totalGridHeight.
    split; [|split; [|split]];
      first [ eapply (Hclamp _ _ _ (Qeq_refl _))
            | eapply Hclamp; by rewrite Hw ].
  - intros chunk. cbv zeta. unfold zoomTimeout, onGrid.
    cbn [setViewportPosition viewportPosition px py].
    assert (∀ a m m', (m == m')%Q →
              (0 <= Math_min (Math_max 0 a) (Math_max 0 m))%Q
              ∧ (Math_min (Math_max 0 a) (Math_max 0 m) <= Math_max 0 m')%Q)
      as Hclamp.
    { intros a m m' Hm. rewrite <- (Math_max_equiv 0 m m' Hm).
      apply clamped_between. }
    split; [|split; [|split]];
      first [ eapply (Hclamp _ _ _ (Qeq_refl _))
            | eapply Hclamp; unfold totalGridWidth, totalGridHeight, cellSize;
              cbn [cellSizeMultiplier setViewportPosition zoomToChunk];
              unfold GRID_SIZE, CHUNK_SIZE, CELLS_PER_CHUNK; ring ].
Qed.

(** X21. Zooming into a chunk and returning restores the view: after
    [zoomToChunk], its timer and any scrolling in between,
    [returnToOverview] puts the viewport back where it was when the zoom
    started, at cell size multiplier 1 and with no zoomed chunk. *)
Theorem zoom_round_trip (chunk : Coord) (canvas : option Canvas)
  (moves : list (Point → Point)) (v : ViewState) :
  returnToOverview
    (foldl (λ s u, setViewportPosition u s)
           (zoomTimeout chunk canvas (zoomToChunk chunk v)) moves)
  = {| viewportPosition := viewportPosition v; isZoomedIn := false;
       zoomedChunk := None; previousViewport := viewportPosition v;
       cellSizeMultiplier := 1 |}.
Proof.
  assert (previousViewport (zoomTimeout chunk canvas (zoomToChunk chunk v))
          = viewportPosition v) as Hprev by (by destruct canvas).
  revert Hprev. generalize (zoomTimeout chunk canvas (zoomToChunk chunk v)).
  induction moves as [|u moves IH]; intros s Hs; cbn [foldl].
  - unfold returnToOverview. by rewrite Hs.
  - by apply IH.
Qed.

Lemma Qfloor_div_pos (q : Q) (n : positive) :
  Qfloor (q / inject_Z (Z.pos n)) = Qfloor q / Z.pos n.
Proof.
  destruct q as [a b]. unfold Qdiv, Qinv, Qmult, inject_Z. cbn [Qnum Qden].
  unfold Qfloor. rewrite Z.mul_1_r, Pos2Z.inj_mul.
  by rewrite Z.div_div by lia.
Qed.

Lemma floorDiv_chunk (a s : Q) :
  (0 < s)%Q →
  floorDiv a (inject_Z CELLS_PER_CHUNK * s)
  = (λ i, i / CELLS_PER_CHUNK) <$> floorDiv a s.
Proof.
  intros Hs. unfold floorDiv.
  assert (¬ (s == 0)%Q) as Hs0 by lra.
  assert (¬ (inject_Z CELLS_PER_CHUNK * s == 0)%Q) as Hs1.
  { unfold CELLS_PER_CHUNK. change (inject_Z 100) with 100%Q. intros H. lra. }
  assert (Qeq_bool s 0 = false) as ->.
  { destruct (Qeq_bool s 0) eqn:H; [|done]. by apply Qeq_bool_iff in H. }
  assert (Qeq_bool (inject_Z CELLS_PER_CHUNK * s) 0 = false) as ->.
  { destruct (Qeq_bool _ 0) eqn:H; [|done]. by apply Qeq_bool_iff in H. }
  cbn [fmap option_fmap option_map]. f_equal. unfold CELLS_PER_CHUNK.
  rewrite <- (Qfloor_div_pos (a / s) 100).
  apply Qfloor_comp. change (inject_Z 100) with 100%Q. by field.
Qed.

(** X22. In the overview, the chunk a mouse move highlights is the chunk
    of the cell it hovers: both are set or both are cleared, and the
    chunk coordinates are the cell coordinates divided by
    [CELLS_PER_CHUNK], as [getChunkFromCoords] computes them. *)
Theorem hovered_chunk_is_chunk_of_cell (v : ViewState) (cv : Canvas)
  (e : MouseEvent) (ui : GridUi) :
  isZoomedIn v = false → isDragging ui = false →
  (0 < cellSizeMultiplier v)%Q →
  let ui' := (handleMouseMove v (Some cv) e ui).1 in
  hoveredChunk ui'
  = (λ c, {| cx := (getChunkFromCoords (cx c) (cy c)).1;
             cy := (getChunkFromCoords (cx c) (cy c)).2 |}) <$> hoveredCell ui'.
Proof.
  intros Hzoom Hdrag Hmult. cbv zeta. unfold handleMouseMove.
  rewrite Hzoom, Hdrag. cbn [negb andb fst hoveredChunk hoveredCell].
  assert (0 < cellSize v)%Q as Hsize by (unfold cellSize; lra).
  rewrite !(floorDiv_chunk _ _ Hsize).
  destruct (floorDiv _ (cellSize v)) as [x|], (floorDiv _ (cellSize v)) as [y|];
    try done.
  cbn [fmap option_fmap option_map within].
  unfold CHUNK_SIZE, CELLS_PER_CHUNK.
  pose proof (Z.div_mod x 100). pose proof (Z.mod_pos_bound x 100).
  pose proof (Z.div_mod y 100). pose proof (Z.mod_pos_bound y 100).
  destruct ((0 <=? x / 100) && (x / 100 <? 10) && (0 <=? y / 100)
            && (y / 100 <? 10)) eqn:Hchunk,
    ((0 <=? x) && (x <? 10 * 100) && (0 <=? y) && (y <? 10 * 100)) eqn:Hcell;
    try done; lia.
Qed.

Lemma hovered_chunk_is_chunk_of_cell_witness :
  let ui' := (handleMouseMove
                {| viewportPosition := {| px := 50; py := 50 |};
                   isZoomedIn := false; zoomedChunk := None;
                   previousViewport := {| px := 0; py := 0 |};
                   cellSizeMultiplier := 1 |}
                (Some sampleCanvas)
                {| clientX := 300; clientY := 200; button := 0 |}
                initialGridUi).1 in
  hoveredChunk ui' = Some {| cx := 1; cy := 1 |}
  ∧ hoveredCell ui' = Some {| cx := 140; cy := 100 |}.
Proof.
  cbv zeta. split; [|vm_compute; reflexivity].
  rewrite hovered_chunk_is_chunk_of_cell; [vm_compute; reflexivity|done..].
Defined.

(** ** The stored team *)

Lemma mountSelection_stored (t : Team) :
  mountSelection (Some (teamName t))
  = ({| selectedTeam := t; activeView := attack; hasSelectedTeam := true |},
     Some (teamName t)).
Proof. by destruct t. Qed.

(** X23. The stored item follows the selection: after the provider has
    mounted, from whatever was stored, and after any sequence of team
    selections, view changes and resets, the item is the name of the
    selected team if a team has been selected and is absent otherwise.
    So a reload restores the team and whether one was selected, with the
    view back at attack; after a reset it starts unselected with blue. *)
Theorem team_selection_survives_reload (saved0 : option string)
  (events : list SelectionEvent) :
  let '(sel, saved) :=
    foldl (λ s ev, selectionStep ev s) (mountSelection saved0) events in
  saved = (if hasSelectedTeam sel then Some (teamName (selectedTeam sel))
           else None)
  ∧ mountSelection saved
    = ({| selectedTeam := if hasSelectedTeam sel then selectedTeam sel else blue;
          activeView := attack;
          hasSelectedTeam := hasSelectedTeam sel |}, saved).
Proof.
  assert (∀ s : TeamSelection * option string,
            s.2 = (if hasSelectedTeam s.1
                   then Some (teamName (selectedTeam s.1)) else None) →
            ∀ ev, (selectionStep ev s).2
                  = (if hasSelectedTeam (selectionStep ev s).1
                     then Some (teamName (selectedTeam (selectionStep ev s).1))
                     else None)) as Hstep.
  { intros [sel saved] Hinv ev. cbn [fst snd] in Hinv.
    destruct ev as [t|view|]; cbn [selectionStep fst snd hasSelectedTeam
      selectedTeam]; unfold afterRender, persistTeam;
      cbn [hasSelectedTeam selectedTeam].
    - case_bool_decide as H; [|done].
      destruct H as [Ht Hh]. by rewrite Hinv, Hh, Ht.
    - by rewrite bool_decide_eq_true_2.
    - by case_bool_decide. }
  assert ((mountSelection saved0).2
          = (if hasSelectedTeam (mountSelection saved0).1
             then Some (teamName (selectedTeam (mountSelection saved0).1))
             else None)) as Hinit.
  { unfold mountSelection, persistTeam, initialSelection.
    cbn [fst snd hasSelectedTeam selectedTeam].
    destruct saved0 as [s|]; [|done].
    by rewrite bool_decide_eq_true_2. }
  revert Hinit. generalize (mountSelection saved0).
  induction events as [|ev events IH]; intros s Hs; cbn [foldl].
  - destruct s as [sel saved]. cbn [fst snd] in Hs. split; [done|].
    rewrite Hs. destruct (hasSelectedTeam sel); [apply mountSelection_stored|done].
  - by apply IH, Hstep.
Qed.

(** ** The heat estimate *)

(** X24. [calculateHeatLevel] is 0 for a chunk with no recorded activity;
    otherwise, for one random draw, the level is between 0 and 3 and does
    not rise as the clock advances. *)
Theorem calculateHeatLevel_cools_down (now now' : Z) (random : Q)
  (lastActivity : Z) :
  (0 <= random)%Q → now ≤ now' →
  calculateHeatLevel now random 0 = 0
  ∧ 0 ≤ calculateHeatLevel now' random lastActivity
  ∧ calculateHeatLevel now' random lastActivity
    ≤ calculateHeatLevel now random lastActivity
  ∧ calculateHeatLevel now random lastActivity ≤ 3.
Proof.
  intros Hr Hnow. split; [done|]. unfold calculateHeatLevel.
  destruct (lastActivity =? 0); [lia|]. cbv zeta.
  set (f := (0.9 + random * 0.2)%Q).
  assert (inject_Z (now - lastActivity) * f
          <= inject_Z (now' - lastActivity) * f)%Q as Hle.
  { apply Qmult_le_compat_r; [rewrite <- Zle_Qle; lia|unfold f; lra]. }
  set (a := (inject_Z (now - lastActivity) * f)%Q) in *.
  set (a' := (inject_Z (now' - lastActivity) * f)%Q) in *.
  assert (∀ k, Qlt_bool a' k = true → Qlt_bool a k = true) as Hmono.
  { intros k. rewrite !Qlt_bool_iff. intros H. by apply Qle_lt_trans with a'. }
  pose proof (Hmono 60000%Q). pose proof (Hmono 300000%Q).
  pose proof (Hmono 1800000%Q).
  destruct (Qlt_bool a' 60000), (Qlt_bool a' 300000), (Qlt_bool a' 1800000),
    (Qlt_bool a 60000), (Qlt_bool a 300000), (Qlt_bool a 1800000);
    try lia; exfalso; intuition discriminate.
Qed.

Lemma calculateHeatLevel_cools_down_witness :
  calculateHeatLevel 1000 0.5 0 = 0
  ∧ 0 ≤ calculateHeatLevel 400000 0.5 1000
  ∧ calculateHeatLevel 400000 0.5 1000 ≤ calculateHeatLevel 20000 0.5 1000
  ∧ calculateHeatLevel 20000 0.5 1000 ≤ 3.
Proof.
  pose proof (calculateHeatLevel_cools_down 20000 400000 0.5 1000) as H.
  destruct H as (_ & H); [lra|lia|].
  split; [reflexivity|exact H].
Defined.

(** ** What a cell looks like *)

(** X25. In the attack view a cell that has not been hit is drawn the
    same whether or not a ship is on it: fill colour, overlay and marker
    depend on its cooldown only.  In the defend view the fill colour
    alone tells whether the cell is occupied and whether it is hit. *)
Theorem enemy_ships_hidden_until_hit (t : Team) (now : Z) (c c' : CellState) :
  (hit c = false → hit c' = false → cooldownUntil c = cooldownUntil c' →
   drawCell attack t now c = drawCell attack t now c')
  ∧ (getCellColor defend t c = getCellColor defend t c' →
     occupied c = occupied c' ∧ hit c = hit c').
Proof.
  split.
  - intros Hc Hc' Hcool. unfold drawCell, getCellColor.
    rewrite Hc, Hc', Hcool. by rewrite !andb_false_r.
  - unfold getCellColor.
    destruct t, (occupied c), (hit c), (occupied c'), (hit c'); done.
Qed.

(** ** Hits and destroyed ships *)

Lemma filter_none {A : Type} (f : A → bool) (l : list A) :
  (∀ a, a ∈ l → f a = false) → List.filter f l = [].
Proof.
  induction l as [|a l IH]; intros Hf; [done|]. cbn [List.filter].
  rewrite (Hf a) by apply list_elem_of_here.
  apply IH. intros b Hb. by apply Hf, list_elem_of_further.
Qed.

Lemma filter_same {A : Type} (f g : A → bool) (l : list A) :
  (∀ a, a ∈ l → f a = g a) → List.filter f l = List.filter g l.
Proof.
  intros Hfg. apply filter_ext_in. intros a Ha. by apply Hfg, list_elem_of_In.
Qed.

(** Marking one more element of a duplicate-free list adds one to the
    count. *)
Lemma filter_one_more {A : Type} `{EqDecision A} (f g : A → bool)
  (l : list A) (a0 : A) :
  NoDup l → a0 ∈ l → f a0 = false →
  (∀ a, g a = if decide (a = a0) then true else f a) →
  length (List.filter g l) = S (length (List.filter f l)).
Proof.
  intros Hnd Hin Hf Hg. induction Hnd as [|a l Ha Hnd IH];
    [by apply elem_of_nil in Hin|].
  cbn [List.filter]. rewrite (Hg a).
  destruct (decide (a = a0)) as [->|Hne].
  - rewrite Hf. cbn [length]. f_equal. f_equal. apply filter_same.
    intros b Hb. rewrite Hg. destruct (decide (b = a0)) as [->|]; done.
  - apply elem_of_cons in Hin as [?|Hin]; [done|].
    destruct (f a); cbn [length]; by rewrite IH.
Qed.

Lemma length_filter_all {A : Type} (f : A → bool) (l : list A) :
  length (List.filter f l) = length l ↔ Forall (λ a, f a = true) l.
Proof.
  induction l as [|a l IH]; [by split|].
  cbn [List.filter]. rewrite Forall_cons.
  pose proof (filter_length_le f l) as Hle.
  destruct (f a); cbn [length].
  - rewrite <- IH. split; [intros [= ?]; done|intros [_ ->]; done].
  - split; [lia|by intros [? _]].
Qed.

Lemma NoDup_fmap_eq {A B : Type} (f : A → B) (l : list A) (x y : A) :
  NoDup (f <$> l) → x ∈ l → y ∈ l → f x = f y → x = y.
Proof.
  induction l as [|a l IH]; intros Hnd Hx Hy Hf; [by apply elem_of_nil in Hx|].
  rewrite fmap_cons in Hnd. apply NoDup_cons in Hnd as [Ha Hnd].
  apply elem_of_cons in Hx as [->|Hx], Hy as [->|Hy]; [done| | |by apply IH].
  - destruct Ha. rewrite Hf. by apply list_elem_of_fmap_2.
  - destruct Ha. rewrite <- Hf. by apply list_elem_of_fmap_2.
Qed.

Lemma isHitAt_updateCell_withHit (g : Grid) (x y : Z) (cell : CellState)
  (c : Coord) :
  cellAt g x y = Some cell →
  isHitAt (updateCell withHit g x y) c
  = if decide (c = {| cx := x; cy := y |}) then true else isHitAt g c.
Proof.
  intros Hcell. unfold isHitAt. rewrite cellAt_updateCell.
  destruct c as [i j]. cbn [cx cy].
  destruct (decide (_ = _)) as [[= -> ->]|Hne].
  - by rewrite bool_decide_eq_true_2, Hcell.
  - rewrite bool_decide_eq_false_2; [done|]. intros [-> ->]. done.
Qed.

Lemma NoDup_shipCellsFrom (x y size : Z) (horizontal : bool) :
  NoDup (shipCellsFrom x y size horizontal).
Proof.
  unfold shipCellsFrom. apply NoDup_fmap_2_strong; [|apply NoDup_seqZ].
  intros i j _ _. destruct horizontal; intros [= ?]; lia.
Qed.

Lemma struck_keeps_id (sid : string) (sh : Ship) :
  ship_id (struck sid sh) = ship_id sh.
Proof. unfold struck. by case_bool_decide. Qed.

Lemma fleetCounted_effect (placed : option Ship) (s s' : TeamGridState) :
  TeamEffect placed s s' → fleetConsistent s → fleetCounted s →
  (∀ sh, placed = Some sh →
     (ship_id sh ∉ (ship_id <$> ships s)) ∧ NoDup (ship_cells sh)
     ∧ ship_hits sh = 0 ∧ ship_destroyed sh = false) →
  fleetCounted s'.
Proof.
  intros Heff [Hcells Hships] [Hids Hcount] Hnew.
  destruct Heff as [Hg Hs _|sh Hplaced Hfree ->|x y cell Hcell Hhit Hg Hs _].
  - split; [by rewrite Hs|]. intros sh. unfold hitCells.
    rewrite Hs, Hg. apply Hcount.
  - destruct (Hnew sh Hplaced) as (Hfresh & Hnd & Hh0 & Hd0).
    rewrite Forall_forall in Hfree.
    unfold fleetCounted. cbn [placeUpdater ships grid]. split.
    + rewrite fmap_app. apply NoDup_app. split; [done|].
      split; [|apply NoDup_singleton].
      intros i Hi Hi'. apply list_elem_of_singleton in Hi' as ->. done.
    + intros sh' Hin. apply elem_of_app in Hin as [Hin|Hin].
      * destruct (Hcount sh' Hin) as (Hnd' & Hhits & Hdes).
        split; [done|]. split; [|done]. rewrite Hhits. unfold hitCells.
        do 2 f_equal. apply filter_same. intros c Hc. unfold isHitAt.
        rewrite cellAt_placed. rewrite bool_decide_eq_false_2; [done|].
        destruct c as [i j]. intros Hc'.
        destruct (Hfree _ Hc') as (_ & c1 & Hc1 & Ho1).
        destruct (Hships sh' _ Hin Hc) as (c2 & Hc2 & Ho2 & _).
        cbn [cx cy] in Hc1, Hc2. congruence.
      * apply list_elem_of_singleton in Hin as ->.
        split; [done|]. rewrite Hh0, Hd0. split; [|done].
        unfold hitCells. rewrite filter_none; [done|].
        intros c Hc. unfold isHitAt. rewrite cellAt_placed.
        destruct (Hfree _ Hc) as (_ & c1 & Hc1 & _).
        destruct c as [i j]. cbn [cx cy] in *.
        by rewrite bool_decide_eq_true_2, Hc1.
  - assert (∀ sh, sh ∈ ships s → {| cx := x; cy := y |} ∉ ship_cells sh →
              hitCells (grid s') sh = hitCells (grid s) sh) as Hsame.
    { intros sh Hin Hout. unfold hitCells. do 2 f_equal. rewrite Hg.
      apply filter_same. intros c Hc.
      rewrite (isHitAt_updateCell_withHit _ _ _ cell) by done.
      destruct (decide _) as [->|]; done. }
    destruct (occupied cell) eqn:Hocc.
    + destruct (Hcells x y cell Hcell) as [Hsome Href].
      destruct (proj1 Hsome Hocc) as [r Hr].
      destruct (Href r Hr) as (sh1 & Hin1 & -> & Hc1).
      rewrite Hr in Hs. cbn [from_option refOf ref_id] in Hs.
      split.
      { rewrite Hs, <- list_fmap_compose.
        rewrite (list_fmap_ext _ ship_id (ships s)); [done|].
        intros ? sh _. apply struck_keeps_id. }
      intros sh' Hin'. rewrite Hs in Hin'.
      apply list_elem_of_fmap in Hin' as (sh0 & -> & Hin0).
      destruct (Hcount sh0 Hin0) as (Hnd0 & Hhits0 & Hdes0).
      unfold struck. case_bool_decide as Hid.
      * assert (sh0 = sh1) as -> by (by eapply NoDup_fmap_eq).
        cbn [ship_cells ship_hits ship_destroyed].
        assert (hitCells (grid s') sh1 = ship_hits sh1 + 1) as Hmore.
        { rewrite Hhits0. unfold hitCells.
          rewrite (filter_one_more (isHitAt (grid s)) (isHitAt (grid s')) _
                     {| cx := x; cy := y |}); [lia|done..| |].
          - unfold isHitAt. cbn [cx cy]. by rewrite Hcell.
          - intros c. rewrite Hg.
            by apply (isHitAt_updateCell_withHit _ _ _ cell). }
        split; [done|].
        split; [by transitivity (hitCells (grid s') sh1)|].
        assert (0 ≤ ship_hits sh1) by (rewrite Hhits0; unfold hitCells; lia).
        replace (0 <? ship_hits sh1 + 1) with true by lia. done.
      * split; [done|]. split; [|done].
        rewrite Hhits0. symmetry. apply Hsame; [done|].
        intros Hc0. destruct (Hships sh0 _ Hin0 Hc0) as (c2 & Hc2 & _ & Href2).
        cbn [cx cy] in Hc2. rewrite Hcell in Hc2. injection Hc2 as <-.
        rewrite Hr in Href2. injection Href2 as Href2 _. congruence.
    + split; [by rewrite Hs|]. intros sh Hin. rewrite Hs in Hin.
      destruct (Hcount sh Hin) as (Hnd0 & Hhits0 & Hdes0).
      split; [done|]. split; [|done].
      rewrite Hhits0. symmetry. apply Hsame; [done|].
      intros Hc0. destruct (Hships sh _ Hin Hc0) as (c2 & Hc2 & Ho2 & _).
      cbn [cx cy] in Hc2. congruence.
Qed.

Lemma ids_effect (placed : option Ship) (s s' : TeamGridState) (i : string) :
  TeamEffect placed s s' → i ∈ ship_id <$> ships s' →
  i ∈ ship_id <$> ships s ∨ ∃ sh, placed = Some sh ∧ i = ship_id sh.
Proof.
  intros [_ Hs _|sh Hplaced _ ->|x y cell _ _ _ Hs _].
  - rewrite Hs. by left.
  - cbn [placeUpdater ships]. rewrite fmap_app, elem_of_app.
    intros [?|Hi]; [by left|]. right. exists sh.
    by apply list_elem_of_singleton in Hi.
  - rewrite Hs. intros Hi. left.
    destruct (occupied cell), (ship cell) as [r|]; cbn [from_option] in Hi;
      try done.
    rewrite <- list_fmap_compose in Hi.
    rewrite (list_fmap_ext _ ship_id (ships s)) in Hi; [done|].
    intros ? sh _. apply struck_keeps_id.
Qed.

Lemma fleetCounted_runOps (ops : list (Env * Op)) (w : World) :
  NoDup (placedIds ops) →
  (∀ u, fleetConsistent (teamGrid u w)) →
  (∀ u, fleetCounted (teamGrid u w)) →
  (∀ u i, i ∈ ship_id <$> ships (teamGrid u w) → i ∉ placedIds ops) →
  ∀ u, fleetCounted (teamGrid u (runOps ops w)).
Proof.
  revert w. induction ops as [|[e o] ops IH]; intros w Hnd Hcons Hcount Hfresh;
    [done|].
  cbn [runOps].
  assert (placedIds ((e, o) :: ops)
          = match o with
            | OpPlaceShip _ _ _ _ _ => [placedId e]
            | _ => []
            end ++ placedIds ops) as Hids by done.
  rewrite Hids in Hnd, Hfresh.
  assert (∀ sh, placedShip e o w = Some sh →
            ship_id sh = placedId e
            ∧ placedId e ∈ match o with
                           | OpPlaceShip _ _ _ _ _ => [placedId e]
                           | _ => []
                           end
            ∧ NoDup (ship_cells sh) ∧ ship_hits sh = 0
            ∧ ship_destroyed sh = false) as Hplaced.
  { intros sh. destruct o as [x y size horizontal t| |]; try done.
    intros [= <-]. split_and!; try done; [apply list_elem_of_here|].
    apply NoDup_shipCellsFrom. }
  apply IH.
  - by apply NoDup_app in Hnd as (_ & _ & Hnd).
  - intros u. eapply fleetConsistent_effect; [apply runOp_effect|done].
  - intros u. eapply fleetCounted_effect; [apply runOp_effect|done..|].
    intros sh Hsh. destruct (Hplaced sh Hsh) as (Hid & Hin & Hcells & Hh & Hd).
    split_and!; try done. intros Hi. rewrite Hid in Hi.
    apply (Hfresh u _ Hi). apply elem_of_app. by left.
  - intros u i Hi.
    destruct (ids_effect _ _ _ i (runOp_effect e o w u) Hi)
      as [Hold|(sh & Hsh & ->)].
    + intros Hin. apply (Hfresh u i Hold). apply elem_of_app. by right.
    + destruct (Hplaced sh Hsh) as (-> & Hin & _).
      apply NoDup_app in Hnd as (_ & Hdisj & _). by apply Hdisj.
Qed.

(** X26. When the identifiers drawn for the placements are pairwise
    distinct, every reachable state counts its hits faithfully: a ship
    has as many hits as it has cells marked hit on the grid, and it is
    flagged destroyed exactly when it has at least one cell and all its
    cells are hit. *)
Theorem destroyed_iff_all_cells_hit (r : string) (ops : list (Env * Op))
  (u : Team) (sh : Ship) :
  NoDup (placedIds ops) →
  sh ∈ ships (teamGrid u (runOps ops (initialWorld r))) →
  let g := grid (teamGrid u (runOps ops (initialWorld r))) in
  ship_hits sh = hitCells g sh
  ∧ (ship_destroyed sh = true
     ↔ ship_cells sh ≠ [] ∧ Forall (λ c, isHitAt g c = true) (ship_cells sh)).
Proof.
  intros Hnd Hin. cbv zeta.
  assert (fleetCounted (teamGrid u (runOps ops (initialWorld r)))) as [_ Hcount].
  { apply fleetCounted_runOps; [done| | |].
    - intros []; apply fleetConsistent_initial.
    - intros []; (split; [apply NoDup_nil_2|by intros ? ?%elem_of_nil]).
    - intros [] i Hi; by apply elem_of_nil in Hi. }
  destruct (Hcount sh Hin) as (_ & Hhits & ->). split; [done|].
  rewrite <- length_filter_all, Hhits. unfold hitCells.
  pose proof (filter_length_le
                (isHitAt (grid (teamGrid u (runOps ops (initialWorld r)))))
                (ship_cells sh)) as Hle.
  rewrite andb_true_iff, Z.ltb_lt, Z.eqb_eq.
  destruct (ship_cells sh) as [|c cells].
  { cbn. split; [lia|by intros [? _]]. }
  split.
  - intros [_ Heq]. split; [done|]. lia.
  - intros [_ ->]. cbn [length]. lia.
Qed.

Lemma destroyed_iff_all_cells_hit_witness :
  let ops := [(sampleEnv 1000, OpPlaceShip 10 10 2 true blue);
              (sampleEnv 2000, OpFireShot 10 10 red);
              (sampleEnv 3000, OpFireShot 11 10 red)] in
  let sh := {| ship_id := "s1"; ship_owner := "anon-p";
               ship_cells := shipCellsFrom 10 10 2 true; ship_hits := 2;
               ship_destroyed := true |} in
  let g := grid (teamGrid blue (runOps ops (initialWorld "p"))) in
  ship_hits sh = hitCells g sh
  ∧ (ship_destroyed sh = true
     ↔ ship_cells sh ≠ [] ∧ Forall (λ c, isHitAt g c = true) (ship_cells sh)).
Proof.
  cbv zeta. apply destroyed_iff_all_cells_hit.
  - vm_compute. apply NoDup_singleton.
  - vm_compute. apply list_elem_of_here.
Defined.

(** ** The application never raises *)

Lemma wf_world_click (e : Env) (sel : TeamSelection) (ctl : Controls)
  (x y : Z) (w : World) :
  wf_world w → wf_world (dispatch (handleCellClick e sel ctl x y) w).2.
Proof.
  intros Hw. unfold handleCellClick.
  destruct (activeView sel); rewrite dispatch_then_ret; cbn [snd].
  - apply (wf_world_runOp e (OpFireShot x y (selectedTeam sel)) w Hw).
  - apply (wf_world_runOp e (OpPlaceShip x y (selectedShipSize ctl)
                               (isHorizontal ctl) (selectedTeam sel)) w Hw).
Qed.

Lemma appStep_safe (ev : AppEvent) (w : World) :
  appEventOk ev → wf_world w →
  (appStep ev w).1 = Returned () ∧ wf_world (appStep ev w).2.
Proof.
  intros Hev Hw. destruct ev as [e sel ctl x y|e|d n|d|dc d]; cbn [appStep].
  - split; [by apply handleCellClick_returns|by apply wf_world_click].
  - split; [done|]. apply (wf_world_runOp e OpDecay w Hw).
  - destruct (queuesOnly_dispatch _ _ _
                (simulateBattle_queues d n None w eq_refl Hw Hev))
      as ([] & Hres & Hpost).
    split; [done|]. by apply Hpost.
  - unfold dispatch, simulateWideDistribution.
    rewrite forEach_silent; [done|]. intros i. apply simulateAction_silent.
  - unfold dispatch, simulateFocusedHotspots.
    rewrite forEach_silent; [done|]. intros [k chunk].
    apply forEach_silent. intros i. apply simulateAction_silent.
Qed.

(** X27. From the initial state, no event the components deliver to the
    battle state raises, and every state on the way is well formed:
    clicks on cells of the grid in either view, ticks of the decay
    timer, simulated battles with shots drawn from [0, 1), and the two
    generators of the simulation driver, in any order. *)
Theorem app_never_raises (r : string) (events : list AppEvent) :
  Forall appEventOk events →
  Forall (λ o, o = Returned ()) (appRun events (initialWorld r)).1
  ∧ wf_world (appRun events (initialWorld r)).2.
Proof.
  generalize (wf_world_initial r). generalize (initialWorld r).
  induction events as [|ev events IH]; intros w Hw Hok; [by split|].
  apply Forall_cons in Hok as [Hev Hok]. cbn [appRun].
  destruct (appStep_safe ev w Hev Hw) as [Hres Hw'].
  destruct (appStep ev w) as [r0 w'] eqn:Hstep. cbn [fst snd] in Hres, Hw'.
  specialize (IH w' Hw' Hok). destruct (appRun events w') as [rs w''].
  cbn [fst snd] in *. destruct IH as [Hrs Hw'']. split; [|done].
  by constructor.
Qed.

Lemma app_never_raises_witness :
  let events :=
    [ AppClick (sampleEnv 1000)
        {| selectedTeam := blue; activeView := defend; hasSelectedTeam := true |}
        {| selectedShipSize := 2; isHorizontal := true |} 10 10;
      AppSimulate sampleBattleDraws 25;
      AppDecay (sampleEnv 100000);
      AppClick (sampleEnv 101000)
        {| selectedTeam := red; activeView := attack; hasSelectedTeam := true |}
        {| selectedShipSize := 2; isHorizontal := true |} 10 10 ] in
  Forall (λ o, o = Returned ()) (appRun events (initialWorld "p")).1
  ∧ wf_world (appRun events (initialWorld "p")).2.
Proof.
  cbv zeta. apply app_never_raises.
  repeat first [apply Forall_nil | apply Forall_cons; split];
    cbn [appEventOk]; done.
Defined.

(** ** Decay that stalls, and the grace period of a shot *)




(** X29. A shot protects its chunk for the grace period: after a shot at
    a cell of the grid, a decay tick that runs at most [NO_DECAY_PERIOD]
    after it leaves the activity count of the target chunk at one more
    than before the shot, and its last activity at the time of the
    shot. *)
Theorem shot_survives_grace_period (e e' : Env) (w : World) (x y : Z)
  (t : Team) (c : Chunk) :
  wf_chunks (chunks (teamGrid (opposite t) w)) →
  inBounds x y = true →
  now e' - now e ≤ NO_DECAY_PERIOD →
  chunks (teamGrid (opposite t) w) !! chunkIndexOf x y = Some c →
  let w1 := (dispatch (fireShot e x y t) w).2 in
  let w2 := (dispatch (decayTick e') w1).2 in
  ∃ c2, chunks (teamGrid (opposite t) w2) !! chunkIndexOf x y = Some c2
        ∧ (activityCount c2 == activityCount c + 1)%Q
        ∧ lastActivity c2 = now e.
Proof.
  intros Hwf Hb Hgrace Hc. cbv zeta.
  set (w1 := (dispatch (fireShot e x y t) w).2).
  assert (∃ h, chunks (teamGrid (opposite t) w1) !! chunkIndexOf x y
               = Some (withHeatLevel h
                         (withLastActivity (now e)
                            (withActivityCount (bumpActivity (activityCount c))
                               c)))) as [h Hc1].
  { unfold w1. rewrite (proj2 (proj2 (fireShot_frame e w x y t))).
    unfold activityUpdater. cbn [withChunks chunks].
    destruct (findChunkIndex_wf _ x y Hwf Hb) as (-> & _).
    apply updateHeatLevels_lookup_Some.
    by rewrite list_lookup_alter_eq, Hc. }
  assert (chunks (teamGrid (opposite t) (dispatch (decayTick e') w1).2)
          = chunks (decayChunks (now e') (teamGrid (opposite t) w1))) as ->.
  { rewrite dispatch_decayTick. by destruct t. }
  destruct (decayChunks_on_chunk (now e') _ _ _ Hc1)
    as (c2 & Hc2 & (_ & _ & Hlast) & _ & _ & Hkeep & _).
  exists c2. split; [done|].
  cbn [withHeatLevel withLastActivity withActivityCount lastActivity
       activityCount] in Hlast, Hkeep.
  split; [|done]. rewrite Hkeep by done. apply bumpActivity_spec.
Qed.

Lemma shot_survives_grace_period_witness :
  ∃ c2, chunks (teamGrid blue
          (dispatch (decayTick (sampleEnv 60500))
             (dispatch (fireShot (sampleEnv 500) 10 10 red)
                sampleWorld).2).2) !! 0%nat = Some c2
        ∧ (activityCount c2 == 0 + 1)%Q ∧ lastActivity c2 = 500.
Proof.
  apply (shot_survives_grace_period (sampleEnv 500) (sampleEnv 60500)
           sampleWorld 10 10 red
           {| chunk_x := 0; chunk_y := 0; heatLevel := 0; lastActivity := 0;
              activityCount := 0 |}).
  - reflexivity.
  - reflexivity.
  - vm_compute. discriminate.
  - reflexivity.
Defined.

(** ** The mini-map shows the grid of the main view *)

(** X30. The mini-map and the main grid always show the same team: the
    grid the mini-map selects is the grid of the state [getActiveGrid]
    selects, for every team, view and state. *)
Theorem miniMap_shows_active_grid (sel : TeamSelection) (w : World) :
  miniMapActiveGrid sel w = grid (getActiveGrid sel w).
Proof.
  unfold miniMapActiveGrid, getActiveGrid.
  by destruct (activeView sel), (selectedTeam sel).
Qed.
